(** * Ember Guide: the ensemble grid-propagation spread engine

    A shallow embedding of [pipeline/spread/baseline.py] and
    [pipeline/spread/monte_carlo.py].

    Numeric model.  numpy's float arrays are idealised: a cell holds an exact
    rational ([Q]), so rounding, the casts between float64 and float32,
    infinities and the NaN that arithmetic can produce (a division by a zero
    [slope_max_deg], which is 0 in [Q]) are outside the model.  The one NaN
    the program produces without any such input, the mean over an empty
    ensemble axis, is kept, as [NaN] of [fval].  A 2-D array is a list of
    rows; the elementwise operations pair the cells of arrays of one shape,
    which is the only case in which numpy does not raise or broadcast.

    Collaborators.  rasterio's [rowcol] and numpy's global random generator
    are parameters of the definitions that use them.  Logging is left out,
    except where evaluating the logged value can raise. *)

From Stdlib Require Import QArith Qabs Qminmax Qround ZArith Lia Lqa List Bool.
From stdpp Require Import gmap strings list fin_maps pretty.

Local Open Scope Q_scope.

(** ** numpy: arrays and elementwise operations *)

Module Np.

(** A float array of shape (H, W), row-major. *)
Abbreviation grid := (list (list Q)).
(** A boolean array of shape (H, W). *)
Abbreviation mask := (list (list bool)).

(** [a[r, c]], [None] out of range. *)
Definition get2 {A} (a : list (list A)) (r c : nat) : option A :=
  a !! r ≫= (.!! c).

(** Every row of [a] has [W] cells and there are [H] rows. *)
Definition has_shape {A} (H W : nat) (a : list (list A)) : Prop :=
  length a = H ∧ Forall (λ row, length row = W) a.

(** Two arrays have the same number of rows and the same row lengths. *)
Definition same_shape {A B} (a : list (list A)) (b : list (list B)) : Prop :=
  Forall2 (λ ra rb, length ra = length rb) a b.

(** [np.zeros(shape)] *)
Definition zeros (H W : nat) : grid := replicate H (replicate W 0).

(** Elementwise unary and binary operations. *)
Definition amap {A B} (f : A → B) (a : list (list A)) : list (list B) :=
  map (map f) a.
Definition amap2 {A B C} (f : A → B → C)
    (a : list (list A)) (b : list (list B)) : list (list C) :=
  zip_with (zip_with f) a b.

(** [x > y] on floats. *)
Definition gt (x y : Q) : bool := negb (Qle_bool x y).

(** [np.clip(x, lo, hi)], that is [minimum(maximum(x, lo), hi)]. *)
Definition clip (x lo hi : Q) : Q := Qmin (Qmax x lo) hi.

(** [np.sqrt] on the rationals: exact on squares of rationals, and rounded
    down to a multiple of [1 / Qden x] elsewhere; 0 below 0. *)
Definition sqrt (x : Q) : Q :=
  Qmake (Z.sqrt (Qnum x * Zpos (Qden x))) (Qden x).

(** [a.copy()] at the level of values. *)
Definition copy {A} (a : list (list A)) : list (list A) := a.

(** [m[r, c]] of a boolean array read with signed indices, [False] outside
    (scipy pads the input of a dilation with [border_value = 0]). *)
Definition mask_at (m : mask) (r c : Z) : bool :=
  if ((r <? 0)%Z || (c <? 0)%Z)%bool then false
  else default false (get2 m (Z.to_nat r) (Z.to_nat c)).

(** [scipy.ndimage.binary_dilation(input, structure=structure)] for a 3x3
    structuring element, whose origin is its centre (1, 1): the output cell
    (r, c) is set when some set element [structure[i, j]] meets a set input
    cell at offset [(i - 1, j - 1)] from it. *)
Definition dilated_at (input structure : mask) (r c : nat) : bool :=
  existsb (λ i,
    existsb (λ j,
      default false (get2 structure i j)
      && mask_at input (Z.of_nat r - (Z.of_nat i - 1))
                       (Z.of_nat c - (Z.of_nat j - 1)))
      (seq 0 3))
    (seq 0 3).

Definition binary_dilation (input structure : mask) : mask :=
  imap (λ r row, imap (λ c (_ : bool), dilated_at input structure r c) row)
    input.

(** [a[m] = b[m]] for a boolean array [m] of the shape of [a] and [b]: the
    cells of [a] selected by [m] take the value of the same cell of [b]. *)
Definition mask_assign (a : grid) (m : mask) (b : grid) : grid :=
  amap2 (λ v (bp : bool * Q), if bp.1 then bp.2 else v) a (amap2 pair m b).

End Np.

Import Np.

Arguments dilated_at : simpl never.

(** ** Configuration dictionaries *)

(** A configuration is a Python [dict] from option names to numbers. *)
Abbreviation config := (gmap string Q).

(** [config.get(key, dflt)] *)
Definition config_get (cfg : config) (key : string) (dflt : Q) : Q :=
  default dflt (cfg !! key).

(** ** baseline.py *)

(** A row of [hotspots_df]: the columns ['longitude'] and ['latitude']. *)
Record hotspot := { longitude : Q; latitude : Q }.

(** [rasterio.Affine]: the six coefficients of the grid's geo-transform,
    [x = a * col + b * row + c] and [y = d * col + e * row + f]. *)
Record Affine :=
  { aff_a : Q; aff_b : Q; aff_c : Q; aff_d : Q; aff_e : Q; aff_f : Q }.

(** [a.shape] of a 2-D array. *)
Definition shape {A} (arr : list (list A)) : nat * nat :=
  (length arr, from_option length 0%nat (head arr)).

(** [grid[row, col] = v], for indices already checked to be in range. *)
Definition set2 (grid : grid) (row col : nat) (v : Q) : list (list Q) :=
  alter (λ cells, <[col := v]> cells) row grid.

Section GridSeeder.

(** [rasterio.transform.rowcol(transform, xs, ys)]: the cell of a coordinate,
    [None] when the call raises.  rasterio is not part of the repository, so
    the function is a parameter of the embedding. *)
Variable rowcol : Affine → Q → Q → option (Z * Z).

(** The body of the loop of [initialize_grid], for one hotspot: the [try]
    block and its [except Exception: continue]. *)
Definition seed_hotspot (grid_shape : nat * nat) (transform : Affine)
    (seed_strength : Q) (grid : grid) (hotspot : hotspot) : list (list Q) :=
  match rowcol transform (longitude hotspot) (latitude hotspot) with
  | Some (row, col) =>
      if ((0 <=? row)%Z && (row <? Z.of_nat grid_shape.1)%Z
          && (0 <=? col)%Z && (col <? Z.of_nat grid_shape.2)%Z)%bool
      then set2 grid (Z.to_nat row) (Z.to_nat col) seed_strength
      else grid
  | None => grid
  end.

(** [initialize_grid(hotspots_df, grid_shape, transform, seed_strength)] *)
Definition initialize_grid (hotspots_df : list hotspot)
    (grid_shape : nat * nat) (transform : Affine) (seed_strength : Q) : grid :=
  let grid := zeros grid_shape.1 grid_shape.2 in
  fold_left (seed_hotspot grid_shape transform seed_strength) hotspots_df grid.

End GridSeeder.

(** The local [wind_factor] of [compute_spread_potential]. *)
Definition wind_factor (wind_u wind_v : grid) : grid :=
  let wind_speed :=
    amap sqrt (amap2 Qplus (amap (λ x, x * x) wind_u) (amap (λ x, x * x) wind_v)) in
  amap (λ s, clip (s / 20) 0 1) wind_speed.

(** [compute_spread_potential(wind_u, wind_v, slope, rh, config)] *)
Definition compute_spread_potential (wind_u wind_v slope rh : grid)
    (cfg : config) : grid :=
  let wind_factor := wind_factor wind_u wind_v in
  let slope_factor :=
    amap (λ s, clip (s / config_get cfg "slope_max_deg" 45) 0 1) slope in
  let rh_threshold := config_get cfg "rh_dry_threshold" 30 in
  let dryness_factor := amap (λ h, clip ((100 - h) / 100) 0 1) rh in
  let potential :=
    amap2 Qplus
      (amap2 Qplus
         (amap (Qmult (config_get cfg "wind_weight" (5 # 10))) wind_factor)
         (amap (Qmult (config_get cfg "slope_weight" (3 # 10))) slope_factor))
      (amap (Qmult (config_get cfg "dryness_weight" (2 # 10))) dryness_factor) in
  amap (λ p, clip p 0 1) potential.

(** The two structuring elements of [propagate_spread]. *)
Definition structure4 : mask :=
  [[false; true; false]; [true; true; true]; [false; true; false]].
Definition structure8 : mask := replicate 3 (replicate 3 true).

(** [propagate_spread(current_grid, spread_potential, threshold, neighbors)] *)
Definition propagate_spread (current_grid spread_potential : grid)
    (threshold neighbors : Q) : grid :=
  let active_mask := amap (λ v, gt v 0) current_grid in
  let structure := if Qeq_bool neighbors 4 then structure4 else structure8 in
  let neighbor_mask := binary_dilation active_mask structure in
  let can_spread :=
    amap2 andb
      (amap2 andb (amap (λ p, gt p threshold) spread_potential) neighbor_mask)
      (amap negb active_mask) in
  let new_grid := copy current_grid in
  mask_assign new_grid can_spread spread_potential.


(** [range(n)] for a Python integer [n]: empty when [n] is not positive. *)
Definition range (n : Z) : list nat := seq 0 (Z.to_nat n).

Section BaselineSpreadSimulator.

Variable rowcol : Affine → Q → Q → option (Z * Z).

(** One turn of the time loop of [run_baseline_spread], on the pair
    [(current_grid, max_grid)]. *)
Definition timestep (spread_potential : grid) (cfg : config)
    (st : grid * grid) (t : nat) : grid * grid :=
  let current_grid :=
    propagate_spread st.1 spread_potential
      (config_get cfg "spread_threshold" (3 # 10))
      (config_get cfg "neighbors" 8) in
  let max_grid := amap2 Qmax st.2 current_grid in
  (current_grid, max_grid).

(** [run_baseline_spread(hotspots_df, wind_u, wind_v, slope, rh, transform,
    config, n_timesteps)]: the pair [(current_grid, max_grid)]. *)
Definition run_baseline_spread (hotspots_df : list hotspot)
    (wind_u wind_v slope rh : grid) (transform : Affine) (cfg : config)
    (n_timesteps : Z) : grid * grid :=
  let grid_shape := shape wind_u in
  let current_grid :=
    initialize_grid rowcol hotspots_df grid_shape transform
      (config_get cfg "seed_strength" 1) in
  let max_grid := copy current_grid in
  let spread_potential :=
    compute_spread_potential wind_u wind_v slope rh cfg in
  fold_left (timestep spread_potential cfg) (range n_timesteps)
    (current_grid, max_grid).

End BaselineSpreadSimulator.

(** ** monte_carlo.py *)

(** The exceptions the ensemble can raise: numpy's [ValueError], for a
    negative dimension and for a seed outside [0, 2**32). *)
Inductive exn := ValueError.

Inductive result (A : Type) :=
  | Ok (x : A)
  | Raise (err : exn).
Arguments Ok {A} x.
Arguments Raise {A} err.

(** A cell of a reduced array: a number, or numpy's [nan]. *)
Inductive fval :=
  | NaN
  | Val (q : Q).

(** [np.mean(xs)] along an axis holding the values [xs]. *)
Definition np_mean (xs : list Q) : fval :=
  match xs with
  | [] => NaN
  | _ => Val (fold_right Qplus 0 xs / inject_Z (Z.of_nat (length xs)))
  end.

(** [np.std(xs)] along an axis: [sqrt(mean(abs(x - x.mean())**2))]. *)
Definition np_std (xs : list Q) : fval :=
  match np_mean xs with
  | NaN => NaN
  | Val m => match np_mean (map (λ x, Qabs (x - m) * Qabs (x - m)) xs) with
             | NaN => NaN
             | Val v => Val (sqrt v)
             end
  end.

(** A reduction [f] along axis 0 of a stack of shape [(n, H, W)]; a cell of a
    member is the 0 of [np.zeros] until it is written. *)
Definition reduce_axis0 (f : list Q → fval) (grid_shape : nat * nat)
    (stack : list grid) : list (list fval) :=
  map (λ r, map (λ c, f (map (λ m, default 0 (get2 m r c)) stack))
                (seq 0 grid_shape.2))
      (seq 0 grid_shape.1).

Section EnsembleOrchestrator.

(** numpy's global generator ([np.random]) is not part of the repository:
    its state, its seeding and its draw of one sample of [0, 1) are
    parameters. *)
Variable rng_state : Type.
Variable init_genrand : Z → rng_state.
Variable random_sample : rng_state → Q * rng_state.

Variable rowcol : Affine → Q → Q → option (Z * Z).

(** Computations that read and write the global generator and may raise. *)
Definition M (A : Type) : Type := rng_state → result (A * rng_state).

Definition ret {A} (x : A) : M A := λ s, Ok (x, s).
Definition bind {A B} (m : M A) (k : A → M B) : M B :=
  λ s, match m s with
       | Ok (x, s') => k x s'
       | Raise err => Raise err
       end.
Definition raise {A} (err : exn) : M A := λ _, Raise err.

Notation "'do' x <- m ; k" := (bind m (λ x, k))
  (at level 10, x pattern, m at level 100, k at level 200).

Fixpoint mapM {A B} (f : A → M B) (l : list A) : M (list B) :=
  match l with
  | [] => ret []
  | x :: l' => do y <- f x; do ys <- mapM f l'; ret (y :: ys)
  end.

Fixpoint foldM {A B} (f : B → A → M B) (l : list A) (acc : B) : M B :=
  match l with
  | [] => ret acc
  | x :: l' => do acc' <- f acc x; foldM f l' acc'
  end.

(** [np.random.seed(seed)] *)
Definition np_random_seed (seed : Z) : M unit :=
  λ _, if ((0 <=? seed)%Z && (seed <? 2 ^ 32)%Z)%bool
       then Ok (tt, init_genrand seed)
       else Raise ValueError.

(** [np.random.uniform(low, high, a.shape)]: one sample per cell, in
    row-major order, scaled as [low + (high - low) * sample]. *)
Definition np_random_uniform (low high : Q) (a : grid) : M grid :=
  mapM (mapM (λ _ : Q, λ s,
    let (u, s') := random_sample s in Ok (low + (high - low) * u, s'))) a.

(** [a.max()] where only the call matters, its value being logged: numpy
    raises [ValueError] on an array without cells. *)
Definition np_max {A} (a : list (list A)) : M unit :=
  match concat a with
  | [] => raise ValueError
  | _ => ret tt
  end.

(** [perturb_weather(wind_u, wind_v, temp, rh, config, seed)] *)
Definition perturb_weather (wind_u wind_v temp rh : grid) (cfg : config)
    (seed : Z) : M (grid * grid * grid * grid) :=
  do _ <- np_random_seed seed;
  let wind_pert := config_get cfg "wind_perturbation" (2 # 10) in
  let temp_pert := config_get cfg "temp_perturbation" (5 # 100) in
  let rh_pert := config_get cfg "rh_perturbation" (1 # 10) in
  do du <- np_random_uniform (- wind_pert) wind_pert wind_u;
  let wind_u_pert := amap2 (λ x d, x * (1 + d)) wind_u du in
  do dv <- np_random_uniform (- wind_pert) wind_pert wind_v;
  let wind_v_pert := amap2 (λ x d, x * (1 + d)) wind_v dv in
  do dt <- np_random_uniform (- temp_pert) temp_pert temp;
  let temp_pert_val := amap2 (λ x d, x * (1 + d)) temp dt in
  do dh <- np_random_uniform (- rh_pert) rh_pert rh;
  let rh_pert_val := amap2 (λ x d, x * (1 + d)) rh dh in
  let rh_pert_val := amap (λ h, clip h 0 100) rh_pert_val in
  ret (wind_u_pert, wind_v_pert, temp_pert_val, rh_pert_val).

(** The body of the ensemble loop, for member [i], on [ensemble_results]. *)
Definition ensemble_member (hotspots_df : list hotspot)
    (wind_u wind_v temp slope rh : grid) (transform : Affine)
    (model_config mc_config : config) (base_seed n_timesteps : Z)
    (ensemble_results : list grid) (i : nat) : M (list grid) :=
  let seed := (base_seed + Z.of_nat i)%Z in
  do (wind_u_pert, wind_v_pert, temp_pert, rh_pert) <-
    perturb_weather wind_u wind_v temp rh mc_config seed;
  let '(_, max_grid) :=
    run_baseline_spread rowcol hotspots_df wind_u_pert wind_v_pert slope
      rh_pert transform model_config n_timesteps in
  ret (<[i := max_grid]> ensemble_results).

(** [run_monte_carlo_ensemble(hotspots_df, wind_u, wind_v, temp, slope, rh,
    transform, model_config, mc_config, n_ensemble, base_seed, n_timesteps)]:
    the triple [(probability, mean_intensity, uncertainty)]. *)
Definition run_monte_carlo_ensemble (hotspots_df : list hotspot)
    (wind_u wind_v temp slope rh : grid) (transform : Affine)
    (model_config mc_config : config) (n_ensemble base_seed n_timesteps : Z)
    : M (list (list fval) * list (list fval) * list (list fval)) :=
  let grid_shape := shape wind_u in
  do ensemble_results <-
    (if (n_ensemble <? 0)%Z then raise ValueError
     else ret (replicate (Z.to_nat n_ensemble)
                 (zeros grid_shape.1 grid_shape.2)));
  do ensemble_results <-
    foldM (ensemble_member hotspots_df wind_u wind_v temp slope rh transform
             model_config mc_config base_seed n_timesteps)
      (range n_ensemble) ensemble_results;
  let probability :=
    reduce_axis0 np_mean grid_shape
      (amap (λ v, if gt v 0 then 1 else 0) <$> ensemble_results) in
  let mean_intensity := reduce_axis0 np_mean grid_shape ensemble_results in
  let uncertainty := reduce_axis0 np_std grid_shape ensemble_results in
  do _ <- np_max probability;
  ret (probability, mean_intensity, uncertainty).

End EnsembleOrchestrator.

Arguments ret {rng_state A} x.
Arguments bind {rng_state A B} m k.
Arguments raise {rng_state A} err.
Arguments mapM {rng_state A B} f l.
Arguments foldM {rng_state A B} f l acc.
Arguments np_random_seed {rng_state} init_genrand seed.
Arguments np_random_uniform {rng_state} random_sample low high a.
Arguments np_max {rng_state A} a.
Arguments perturb_weather {rng_state} init_genrand random_sample
  wind_u wind_v temp rh cfg seed.
Arguments ensemble_member {rng_state} init_genrand random_sample rowcol
  hotspots_df wind_u wind_v temp slope rh transform model_config mc_config
  base_seed n_timesteps ensemble_results i.
Arguments run_monte_carlo_ensemble {rng_state} init_genrand random_sample rowcol
  hotspots_df wind_u wind_v temp slope rh transform model_config mc_config
  n_ensemble base_seed n_timesteps.

(** ** Concrete collaborators, for examples *)

(** Modelled from the spec: rasterio's [rowcol], which is not part of the
    repository.  The coordinate goes through the inverse affine transform and is
    rounded to the nearest integer cell; a transform that cannot be inverted
    makes the call fail. *)
Definition rowcol_affine (t : Affine) (x y : Q) : option (Z * Z) :=
  let det := aff_a t * aff_e t - aff_b t * aff_d t in
  if Qeq_bool det 0 then None
  else
    let col := (aff_e t * (x - aff_c t) - aff_b t * (y - aff_f t)) / det in
    let row := (aff_a t * (y - aff_f t) - aff_d t * (x - aff_c t)) / det in
    Some (Qfloor (row + (1 # 2)), Qfloor (col + (1 # 2))).

(** The transform of a grid whose cell (row, col) is at [x = col], [y = row]. *)
Definition unit_transform : Affine :=
  {| aff_a := 1; aff_b := 0; aff_c := 0; aff_d := 0; aff_e := 1; aff_f := 0 |}.

(** A linear congruential generator, standing for numpy's generator where an
    example needs one: the state is an integer, a sample is [state / 2**31]. *)
Definition lcg_seed (seed : Z) : Z := seed.
Definition lcg_sample (s : Z) : Q * Z :=
  let s' := ((1103515245 * s + 12345) mod 2 ^ 31)%Z in
  (Qmake s' (2 ^ 31), s').

(** [np.full((H, W), v)] *)
Definition full (H W : nat) (v : Q) : grid := replicate H (replicate W v).

(** ** Vocabulary of the properties *)

(** The cell (r, c) of [can_spread] in [propagate_spread], for a cell holding
    [v] whose potential is [pv]. *)
Definition can_spread_at (current_grid : grid) (threshold neighbors : Q)
    (r c : nat) (v pv : Q) : bool :=
  gt pv threshold
  && dilated_at (amap (λ v, gt v 0) current_grid)
       (if Qeq_bool neighbors 4 then structure4 else structure8) r c
  && negb (gt v 0).

(** A cell is burned when its FireState is positive. *)
Definition burned (g : grid) (r c : nat) : Prop :=
  ∃ v, get2 g r c = Some v ∧ 0 < v.

(** A FireState: a grid valued in [0, 1]. *)
Definition fire_state (g : grid) : Prop :=
  ∀ r c v, get2 g r c = Some v → 0 <= v <= 1.

(** The pair [(current_grid, max_grid)] of [run_baseline_spread] after [t]
    turns of its time loop, started on the seeded grid [g0]. *)
Definition simulate (spread_potential : grid) (cfg : config) (g0 : grid)
    (t : nat) : grid * grid :=
  fold_left (timestep spread_potential cfg) (seq 0 t) (g0, copy g0).

(** Elementwise equality of two float arrays ([==] of numpy, cell by cell). *)
Definition grid_eq (a b : grid) : Prop := Forall2 (Forall2 Qeq) a b.

(** The running maximum tracks the current grid: every cell of
    [current_grid] has an equal cell in [max_grid]. *)
Definition max_tracks (st : grid * grid) : Prop :=
  ∀ r c v, get2 st.1 r c = Some v → ∃ m, get2 st.2 r c = Some m ∧ m == v.

(** [propagate_spread] iterated [n] times on one potential grid. *)
Definition iterate_spread (spread_potential : grid) (threshold neighbors : Q)
    (n : nat) (g : grid) : grid :=
  Nat.iter n (λ g, propagate_spread g spread_potential threshold neighbors) g.

#[global] Instance Q_eq_dec : EqDecision Q.
Proof. solve_decision. Defined.

(** A cell is settled when no later step can change it: it is burned, or it
    already holds its potential. *)
Definition settled_at (g pot : grid) (rc : nat * nat) : bool :=
  match get2 g rc.1 rc.2, get2 pot rc.1 rc.2 with
  | Some v, Some pv => gt v 0 || bool_decide (v = pv)
  | _, _ => true
  end.

(** The cell indices of an array of shape (H, W). *)
Definition cells (H W : nat) : list (nat * nat) :=
  list_prod (seq 0 H) (seq 0 W).

Definition settled_count (H W : nat) (g pot : grid) : nat :=
  length (filter (λ rc, settled_at g pot rc = true) (cells H W)).

(** A seeded 3x3 grid, a uniform potential, and a potential with a wall that
    leaves one way round. *)
Definition corner_seed : grid := [[1; 0; 0]; [0; 0; 0]; [0; 0; 0]].
Definition uniform_half : grid := full 3 3 (1 # 2).
Definition walled_half : grid :=
  [[1 # 2; 1 # 2; 1 # 2]; [0; 0; 1 # 2]; [1 # 2; 1 # 2; 1 # 2]].

(** A hotspot is off the grid when [rowcol] raises on it or gives a cell
    outside [0, H) x [0, W). *)
Definition off_grid (rowcol : Affine → Q → Q → option (Z * Z))
    (grid_shape : nat * nat) (transform : Affine) (h : hotspot) : Prop :=
  match rowcol transform (longitude h) (latitude h) with
  | None => True
  | Some (row, col) =>
      ¬ ((0 ≤ row < Z.of_nat grid_shape.1)%Z
         ∧ (0 ≤ col < Z.of_nat grid_shape.2)%Z)
  end.

(** The wind factor in the spec's words:
    [clip(sqrt(wind_u^2 + wind_v^2) / wind_norm_max, 0, 1)], with
    [wind_norm_max] read from the configuration, 20 by default. *)
Definition wind_factor_spec (cfg : config) (wind_u wind_v : grid) : grid :=
  let wind_speed :=
    amap sqrt (amap2 Qplus (amap (λ x, x * x) wind_u) (amap (λ x, x * x) wind_v)) in
  amap (λ s, clip (s / config_get cfg "wind_norm_max" 20) 0 1) wind_speed.

(** What a caller sees of a call: its value or its exception, without the
    state the global generator is left in. *)
Definition outcome {S A} (r : result (A * S)) : result A :=
  match r with
  | Ok (x, _) => Ok x
  | Raise err => Raise err
  end.

(** [np.full((H, W), nan)] *)
Definition full_nan (H W : nat) : list (list fval) :=
  replicate H (replicate W NaN).

(** A 1x1 scene. *)
Definition one_cell (v : Q) : grid := [[v]].

(** Every cell of an array satisfies [P]. *)
Definition cells_in {A} (P : A → Prop) (a : list (list A)) : Prop :=
  ∀ r c x, get2 a r c = Some x → P x.

(** A cell of a reduced array is a number in [lo, hi]. *)
Definition val_in (lo hi : Q) (x : fval) : Prop :=
  ∃ q, x = Val q ∧ lo <= q <= hi.

(** A cell of a reduced array is a number that is not negative. *)
Definition val_nonneg (x : fval) : Prop := ∃ q, x = Val q ∧ 0 <= q.

(** [x'] is [x] perturbed by the fraction [pert]: multiplied by one plus a
    uniform draw of [-pert, pert), made from one sample of the generator. *)
Definition perturbed_by {rng_state} (random_sample : rng_state → Q * rng_state)
    (pert x x' : Q) : Prop :=
  ∃ s, x' = x * (1 + (- pert + (pert - - pert) * (random_sample s).1)).

(** Every cell of the potential exceeds the threshold and is positive. *)
Definition hot (pot : grid) (thr : Q) : Prop :=
  cells_in (λ p, thr < p ∧ 0 < p) pot.

(** The burned mask one step later, where the potential is [hot]: the mask
    joined with its dilation. *)
Definition spread_mask (neighbors : Q) (m : mask) : mask :=
  amap2 orb m
    (binary_dilation m
       (if Qeq_bool neighbors 4 then structure4 else structure8)).

(** The configuration of the 10x10 scenario. *)
Definition scenario_config : config :=
  {[ "spread_threshold" := 1 # 10; "neighbors" := 8 ]}.

(** The 10x10 grid that is 1.0 on the cells at most 3 rows and 3 columns away
    from (r0, c0), and 0.0 elsewhere. *)
Definition block_7x7 (r0 c0 : nat) : list (list fval) :=
  map (λ r,
    map (λ c,
      if ((r0 - 3 <=? r) && (r <=? r0 + 3)
          && (c0 - 3 <=? c) && (c <=? c0 + 3))%nat%bool
      then Val 1 else Val 0)
      (seq 0 10))
    (seq 0 10).

(** ** The arrays as objects of the interpreter

    The functions above give the values of the arrays.  Here the arrays of
    [baseline.py] are objects in a heap, so that what a call allocates and
    what it writes in place can be told apart.  A location is the identity of
    an array object. *)

Module Heap.

Inductive ndarray :=
  | FloatArray (g : grid)
  | BoolArray (m : mask).

Abbreviation loc := positive.
Abbreviation heap := (gmap positive ndarray).

(** The values computed by [compute_spread_potential]. *)
Abbreviation potential_values := compute_spread_potential.

(** A computation on the heap; [None] when an operand is not an array of
    the expected dtype. *)
Definition heapM (A : Type) : Type := heap → option (A * heap).

Definition ret {A} (x : A) : heapM A := λ σ, Some (x, σ).
Definition bind {A B} (m : heapM A) (k : A → heapM B) : heapM B :=
  λ σ, match m σ with
       | Some (x, σ') => k x σ'
       | None => None
       end.

Notation "'do' x <- m ; k" := (bind m (λ x, k))
  (at level 10, x pattern, m at level 100, k at level 200).

Fixpoint for_each {A B} (f : B → A → heapM B) (l : list A) (acc : B)
    : heapM B :=
  match l with
  | [] => ret acc
  | x :: l' => do acc' <- f acc x; for_each f l' acc'
  end.

(** A new array object. *)
Definition alloc (a : ndarray) : heapM loc :=
  λ σ, let l := fresh (dom σ) in Some (l, <[l := a]> σ).

Definition read_float (l : loc) : heapM grid :=
  λ σ, match σ !! l with
       | Some (FloatArray g) => Some (g, σ)
       | _ => None
       end.

Definition read_bool (l : loc) : heapM mask :=
  λ σ, match σ !! l with
       | Some (BoolArray m) => Some (m, σ)
       | _ => None
       end.

(** The contents of an existing object are replaced, in place. *)
Definition write (l : loc) (a : ndarray) : heapM unit :=
  λ σ, Some (tt, <[l := a]> σ).

(** [a > y] *)
Definition np_gt (a : loc) (y : Q) : heapM loc :=
  do g <- read_float a; alloc (BoolArray (amap (λ v, gt v y) g)).

(** [binary_dilation(input, structure=structure)] *)
Definition np_binary_dilation (input structure : loc) : heapM loc :=
  do m <- read_bool input;
  do s <- read_bool structure;
  alloc (BoolArray (binary_dilation m s)).

(** [a & b] *)
Definition np_and (a b : loc) : heapM loc :=
  do ma <- read_bool a; do mb <- read_bool b;
  alloc (BoolArray (amap2 andb ma mb)).

(** [~a] *)
Definition np_not (a : loc) : heapM loc :=
  do ma <- read_bool a; alloc (BoolArray (amap negb ma)).

(** [a.copy()] *)
Definition np_copy (a : loc) : heapM loc :=
  do g <- read_float a; alloc (FloatArray (copy g)).

(** [np.maximum(a, b)] *)
Definition np_maximum (a b : loc) : heapM loc :=
  do ga <- read_float a; do gb <- read_float b;
  alloc (FloatArray (amap2 Qmax ga gb)).

(** [a[m] = b[m]]: writes into [a]. *)
Definition setitem_mask (a m b : loc) : heapM unit :=
  do ga <- read_float a; do mm <- read_bool m; do gb <- read_float b;
  write a (FloatArray (mask_assign ga mm gb)).

(** [a[row, col] = v]: writes into [a]. *)
Definition setitem (a : loc) (row col : nat) (v : Q) : heapM unit :=
  do ga <- read_float a; write a (FloatArray (set2 ga row col v)).

(** [propagate_spread], on array objects. *)
Definition propagate_spread (current_grid spread_potential : loc)
    (threshold neighbors : Q) : heapM loc :=
  do active_mask <- np_gt current_grid 0;
  do structure <-
    alloc (BoolArray (if Qeq_bool neighbors 4 then structure4
                      else structure8));
  do neighbor_mask <- np_binary_dilation active_mask structure;
  do above <- np_gt spread_potential threshold;
  do near <- np_and above neighbor_mask;
  do inactive <- np_not active_mask;
  do can_spread <- np_and near inactive;
  do new_grid <- np_copy current_grid;
  do _ <- setitem_mask new_grid can_spread spread_potential;
  ret new_grid.

Section Run.
Variable rowcol : Affine → Q → Q → option (Z * Z).

(** The body of the loop of [initialize_grid], on the object [grid]. *)
Definition seed_hotspot (grid_shape : nat * nat) (transform : Affine)
    (seed_strength : Q) (grid : loc) (hotspot : hotspot) : heapM unit :=
  match rowcol transform (longitude hotspot) (latitude hotspot) with
  | Some (row, col) =>
      if ((0 <=? row)%Z && (row <? Z.of_nat grid_shape.1)%Z
          && (0 <=? col)%Z && (col <? Z.of_nat grid_shape.2)%Z)%bool
      then setitem grid (Z.to_nat row) (Z.to_nat col) seed_strength
      else ret tt
  | None => ret tt
  end.

(** [initialize_grid], on array objects. *)
Definition initialize_grid (hotspots_df : list hotspot)
    (grid_shape : nat * nat) (transform : Affine) (seed_strength : Q)
    : heapM loc :=
  do grid <- alloc (FloatArray (zeros grid_shape.1 grid_shape.2));
  do _ <- for_each
            (λ _ hotspot,
               seed_hotspot grid_shape transform seed_strength grid hotspot)
            hotspots_df tt;
  ret grid.

(** [compute_spread_potential], on array objects: the four inputs are
    read and the result is a new array (the temporaries of the expression
    are not kept). *)
Definition compute_spread_potential (wind_u wind_v slope rh : loc)
    (cfg : config) : heapM loc :=
  do wu <- read_float wind_u; do wv <- read_float wind_v;
  do sl <- read_float slope; do h <- read_float rh;
  alloc (FloatArray (potential_values wu wv sl h cfg)).

(** One turn of the time loop, on the variables [current_grid] and
    [max_grid]. *)
Definition timestep (spread_potential : loc) (cfg : config)
    (st : loc * loc) (t : nat) : heapM (loc * loc) :=
  do current_grid <-
    propagate_spread st.1 spread_potential
      (config_get cfg "spread_threshold" (3 # 10))
      (config_get cfg "neighbors" 8);
  do max_grid <- np_maximum st.2 current_grid;
  ret (current_grid, max_grid).

(** [run_baseline_spread], on array objects. *)
Definition run_baseline_spread (hotspots_df : list hotspot)
    (wind_u wind_v slope rh : loc) (transform : Affine) (cfg : config)
    (n_timesteps : Z) : heapM (loc * loc) :=
  do wu <- read_float wind_u;
  let grid_shape := shape wu in
  do current_grid <-
    initialize_grid hotspots_df grid_shape transform
      (config_get cfg "seed_strength" 1);
  do max_grid <- np_copy current_grid;
  do spread_potential <-
    compute_spread_potential wind_u wind_v slope rh cfg;
  for_each (timestep spread_potential cfg) (range n_timesteps)
    (current_grid, max_grid).

End Run.

End Heap.

(** The result [r] of an operation run on the heap [σ] is a new object
    holding [a], every object of [σ] being left as it was. *)
Definition allocates (σ : gmap positive Heap.ndarray)
    (r : option (positive * gmap positive Heap.ndarray)) (a : Heap.ndarray)
    : Prop :=
  ∃ l σ', r = Some (l, σ') ∧ σ ⊆ σ' ∧ σ !! l = None ∧ σ' !! l = Some a.

(** Hotspots of the examples: on the cell (1, 1), far off the grid, and the
    transform that cannot be inverted. *)
Definition hotspot_11 : hotspot := {| longitude := 1; latitude := 1 |}.
Definition hotspot_55 : hotspot := {| longitude := 5; latitude := 5 |}.
Definition hotspot_far : hotspot := {| longitude := 7; latitude := 7 |}.
Definition singular_transform : Affine :=
  {| aff_a := 0; aff_b := 0; aff_c := 0; aff_d := 0; aff_e := 0; aff_f := 0 |}.

(** A heap holding a seeded grid and a potential. *)
Definition two_arrays : gmap positive Heap.ndarray :=
  {[ 1%positive := Heap.FloatArray corner_seed;
     2%positive := Heap.FloatArray uniform_half ]}.

(** ** Vocabulary of further properties of the engine *)

(** The hotspot [h] is mapped by [rowcol] to the cell (r, c). *)
Definition placedb (rowcol : Affine → Q → Q → option (Z * Z))
    (transform : Affine) (r c : nat) (h : hotspot) : bool :=
  match rowcol transform (longitude h) (latitude h) with
  | Some (row, col) => ((row =? Z.of_nat r)%Z && (col =? Z.of_nat c)%Z)%bool
  | None => false
  end.

(** The cells (r, c) and (r', c') are at most [d] rows apart. *)
Definition near (d r r' : nat) : Prop := (r' ≤ r + d ∧ r ≤ r' + d)%nat.

(** The cell (r', c') is covered by the structuring element that [neighbors]
    selects, centred on (r, c): the cell itself and its 4 or 8 neighbours. *)
Definition adjacent (neighbors : Q) (r c r' c' : nat) : Prop :=
  if Qeq_bool neighbors 4
  then (r = r' ∧ near 1 c c') ∨ (c = c' ∧ near 1 r r')
  else near 1 r r' ∧ near 1 c c'.

(** The grid that the member of an ensemble with the seed [seed] stores: the
    running maximum of the run on the weather perturbed with that seed.
    [perturb_weather] reseeds the generator, so the state it is started in
    here is immaterial. *)
Definition member_grid {rng_state} (init_genrand : Z → rng_state)
    (random_sample : rng_state → Q * rng_state)
    (rowcol : Affine → Q → Q → option (Z * Z)) (hotspots_df : list hotspot)
    (wind_u wind_v temp slope rh : grid) (transform : Affine)
    (model_config mc_config : config) (n_timesteps : Z) (seed : Z) : grid :=
  match perturb_weather init_genrand random_sample wind_u wind_v temp rh
          mc_config seed (init_genrand 0%Z) with
  | Ok (wind_u', wind_v', _, rh', _) =>
      (run_baseline_spread rowcol hotspots_df wind_u' wind_v' slope rh'
         transform model_config n_timesteps).2
  | Raise _ => []
  end.

(** The three reductions of [run_monte_carlo_ensemble] over a stack of member
    grids: probability, mean intensity and uncertainty. *)
Definition ensemble_statistics (grid_shape : nat * nat) (stack : list grid)
    : list (list fval) * list (list fval) * list (list fval) :=
  (reduce_axis0 np_mean grid_shape
     (amap (λ v, if gt v 0 then 1 else 0) <$> stack),
   reduce_axis0 np_mean grid_shape stack,
   reduce_axis0 np_std grid_shape stack).

(** A cell of a reduced array is the number [q], up to [==]. *)
Definition val_eq (q : Q) (x : fval) : Prop := ∃ q', x = Val q' ∧ q' == q.

(** The values of the cell (r, c) along the members of a stack. *)
Definition cell_values (stack : list grid) (r c : nat) : list Q :=
  map (λ m, default 0 (get2 m r c)) stack.

(** The indicator of a burned cell, as [ensemble_results > 0] gives it to
    [np.mean]. *)
Definition indicator (v : Q) : Q := if gt v 0 then 1 else 0.

(** The stack of an ensemble of [n_ensemble] members: the grid of the
    member [i] is made with the seed [base_seed + i]. *)
Definition ensemble_members {rng_state} (init_genrand : Z → rng_state)
    (random_sample : rng_state → Q * rng_state)
    (rowcol : Affine → Q → Q → option (Z * Z)) (hotspots_df : list hotspot)
    (wind_u wind_v temp slope rh : grid) (transform : Affine)
    (model_config mc_config : config) (n_ensemble base_seed n_timesteps : Z)
    : list grid :=
  map (λ i, member_grid init_genrand random_sample rowcol hotspots_df
              wind_u wind_v temp slope rh transform model_config mc_config
              n_timesteps (base_seed + Z.of_nat i))
    (range n_ensemble).

(** [x'] is within the fraction [pert] of [x]. *)
Definition within_fraction (pert x x' : Q) : Prop :=
  Qabs (x' - x) <= Qabs pert * Qabs x.

(** Every cell burned in [g] is burned in [g']. *)
Definition burned_sub (g g' : grid) : Prop :=
  ∀ r c, burned g r c → burned g' r c.

(** Cell by cell, [a] is at most [b]. *)
Definition grid_le (a b : grid) : Prop := Forall2 (Forall2 Qle) a b.

(** ** monte_carlo.py: the spread direction *)




Section SpreadDirection.

(** [np.arctan2] and [np.pi] are not rational: they are parameters. *)
Variable arctan2 : Q → Q → Q.
Variable np_pi : Q.


End SpreadDirection.

(** ** run.py and api/utils.py: the products index *)

(** An entry of ['fires'] in [index.json]. *)
Record fire_entry := {
  entry_id : string;
  entry_region : string;
  entry_centroid : Q * Q;
  entry_bbox : list Q;
  entry_status : string;
  entry_nowcast_available : list Z;
  entry_last_updated : string
}.

(** The keys of [metadata] that [update_products_index] reads. *)
Record fire_metadata := {
  md_region : string;
  md_centroid : Q * Q;
  md_bbox : list Q;
  md_horizon_hours : Z;
  md_generated_at : string
}.

(** The content of [data/products/index.json]. *)
Record products_index := {
  index_fires : list fire_entry;
  index_generated_at : option string
}.

(** [load_products_index()], on the file system reduced to the content of
    [index.json], [None] when the file does not exist. *)
Definition load_products_index (fs : option products_index) : products_index :=
  match fs with
  | None => {| index_fires := []; index_generated_at := None |}
  | Some index => index
  end.

(** [update_products_index(fire_id, metadata)]: the content of [index.json]
    after the call, [now] being the string that the clock gives for
    ['generated_at']. *)
Definition update_products_index (now : string) (fire_id : string)
    (metadata : fire_metadata) (fs : option products_index)
    : option products_index :=
  let index :=
    match fs with
    | Some index => index
    | None => {| index_fires := []; index_generated_at := None |}
    end in
  let fire_entry :=
    {| entry_id := fire_id;
       entry_region := md_region metadata;
       entry_centroid := md_centroid metadata;
       entry_bbox := md_bbox metadata;
       entry_status := "active";
       entry_nowcast_available := [md_horizon_hours metadata];
       entry_last_updated := md_generated_at metadata |} in
  let fires :=
    filter (λ f, entry_id f ≠ fire_id) (index_fires index) in
  let fires := fires ++ [fire_entry] in
  Some {| index_fires := fires; index_generated_at := Some now |}.

(** The index after a sequence of pipeline runs, each one ending in a call
    of [update_products_index]. *)
Definition index_after (runs : list (string * string * fire_metadata))
    (fs : option products_index) : option products_index :=
  fold_left (λ fs run, update_products_index run.1.1 run.1.2 run.2 fs) runs fs.

(** ** isotonic.py: applying a calibrator *)

(** [flat.reshape((H, W))] of a 1-D array: rows of [W] cells in row-major
    order. *)
Fixpoint rows_of (H W : nat) (flat : list Q) : grid :=
  match H with
  | O => []
  | S H' => take W flat :: rows_of H' W (drop W flat)
  end.

(** [flat.reshape(shape)]: numpy raises [ValueError] when the sizes differ. *)
Definition np_reshape (flat : list Q) (shape : nat * nat) : result grid :=
  if (length flat =? shape.1 * shape.2)%nat
  then Ok (rows_of shape.1 shape.2 flat)
  else Raise ValueError.

Section Calibration.

(** [calibrator.predict] of the model loaded from [calibrator_path]:
    scikit-learn's regression is a parameter; it may raise. *)
Variable predict : list Q → result (list Q).

(** [apply_calibration(probability_grid, calibrator_path)] *)
Definition apply_calibration (probability_grid : grid) : result grid :=
  let original_shape := shape probability_grid in
  let flat_probs := concat probability_grid in
  match predict flat_probs with
  | Raise err => Raise err
  | Ok calibrated_flat =>
      let calibrated_flat := map (λ x, clip x 0 1) calibrated_flat in
      np_reshape calibrated_flat original_shape
  end.

End Calibration.

(** A calibrator that scales its input, for examples. *)
Definition scaling_calibrator (k : Q) (flat : list Q) : result (list Q) :=
  Ok (map (Qmult k) flat).

(** ** align_grids.py: the UTM zone of a fire *)



(** * Properties *)

(** ** Reading cells of elementwise results *)

Section Cells.
Context {A B C : Type}.

Lemma get2_amap (f : A → B) (a : list (list A)) r c :
  get2 (amap f a) r c = f <$> get2 a r c.
Proof.
  unfold get2, amap. rewrite !list_lookup_fmap.
  destruct (a !! r) as [row|]; simpl; [|done].
  apply list_lookup_fmap.
Qed.

Lemma get2_amap2 (f : A → B → C) (a : list (list A)) (b : list (list B)) r c :
  get2 (amap2 f a b) r c
  = get2 a r c ≫= λ x, get2 b r c ≫= λ y, Some (f x y).
Proof.
  unfold get2, amap2. rewrite lookup_zip_with.
  destruct (a !! r) as [ra|]; simpl; [|done].
  destruct (b !! r) as [rb|]; simpl.
  - rewrite lookup_zip_with. done.
  - by destruct (ra !! c).
Qed.

Lemma same_shape_get2 (a : list (list A)) (b : list (list B)) r c :
  same_shape a b → is_Some (get2 a r c) ↔ is_Some (get2 b r c).
Proof.
  intros Hs. unfold get2.
  destruct (a !! r) as [ra|] eqn:Ha; simpl.
  - destruct (Forall2_lookup_l _ _ _ _ _ Hs Ha) as (rb & -> & Hlen). simpl.
    rewrite !lookup_lt_is_Some. lia.
  - destruct (b !! r) as [rb|] eqn:Hb; simpl; [|done].
    destruct (Forall2_lookup_r _ _ _ _ _ Hs Hb) as (ra & Ha' & _). congruence.
Qed.

Lemma same_shape_sym (a : list (list A)) (b : list (list B)) :
  same_shape a b → same_shape b a.
Proof. intros Hs. apply Forall2_flip. eapply Forall2_impl; [exact Hs|]. done. Qed.

Lemma same_shape_trans (a : list (list A)) (b : list (list B))
    (d : list (list C)) :
  same_shape a b → same_shape b d → same_shape a d.
Proof.
  intros H1 H2. eapply Forall2_trans; [| exact H1 | exact H2].
  simpl. intros; congruence.
Qed.

Lemma same_shape_amap (f : A → B) (a : list (list A)) :
  same_shape (amap f a) a.
Proof.
  unfold same_shape, amap. apply Forall2_fmap_l, Forall_Forall2_diag, Forall_true.
  intros row. simpl. apply length_map.
Qed.

Lemma same_shape_amap2 (f : A → B → C) (a : list (list A)) (b : list (list B)) :
  same_shape a b → same_shape (amap2 f a b) a.
Proof.
  unfold same_shape, amap2. induction 1 as [|ra rb a' b' Hl _ IH]; simpl.
  - constructor.
  - constructor; [|exact IH]. by apply length_zip_with_l_eq.
Qed.

End Cells.

Lemma same_shape_refl {A} (a : list (list A)) : same_shape a a.
Proof. apply Forall_Forall2_diag, Forall_true. done. Qed.

Lemma same_shape_binary_dilation (m s : mask) :
  same_shape (binary_dilation m s) m.
Proof.
  unfold same_shape, binary_dilation.
  apply Forall2_same_length_lookup_2; [by rewrite length_imap|].
  intros i ra rb Ha Hb. rewrite list_lookup_imap, Hb in Ha.
  injection Ha as <-. apply length_imap.
Qed.

Lemma get2_binary_dilation (m s : mask) r c :
  get2 (binary_dilation m s) r c = (λ _, dilated_at m s r c) <$> get2 m r c.
Proof.
  unfold get2, binary_dilation. rewrite list_lookup_imap.
  destruct (m !! r) as [row|]; simpl.
  - rewrite list_lookup_imap. by destruct (row !! c).
  - done.
Qed.

(** ** One propagation step, cell by cell *)

Lemma gt_spec x y : gt x y = true ↔ y < x.
Proof.
  unfold gt. rewrite negb_true_iff, <- not_true_iff_false, Qle_bool_iff.
  split; [apply Qnot_le_lt | apply Qlt_not_le].
Qed.

Lemma gt_false x y : gt x y = false ↔ x <= y.
Proof. unfold gt. rewrite negb_false_iff. apply Qle_bool_iff. Qed.

Lemma get2_propagate_spread g pot thr nb r c :
  get2 (propagate_spread g pot thr nb) r c
  = get2 g r c ≫= λ v, get2 pot r c ≫= λ pv,
      Some (if can_spread_at g thr nb r c v pv then pv else v).
Proof.
  unfold propagate_spread, mask_assign, copy, can_spread_at.
  rewrite !get2_amap2, !get2_amap, get2_binary_dilation, get2_amap.
  destruct (get2 g r c) as [v|]; simpl; [|done].
  destruct (get2 pot r c) as [pv|]; simpl; done.
Qed.

Section ShapeOf.
Context {A B C D : Type} (g : list (list D)).

Lemma shaped_amap (f : A → B) a :
  same_shape a g → same_shape (amap f a) g.
Proof. intros. eapply same_shape_trans; [apply same_shape_amap | done]. Qed.

Lemma shaped_amap2 (f : A → B → C) a b :
  same_shape a g → same_shape b g → same_shape (amap2 f a b) g.
Proof.
  intros Ha Hb. eapply same_shape_trans; [apply same_shape_amap2 | done].
  eapply same_shape_trans; [exact Ha | by apply same_shape_sym].
Qed.

Lemma shaped_binary_dilation m s :
  same_shape m g → same_shape (binary_dilation m s) g.
Proof.
  intros. eapply same_shape_trans; [apply same_shape_binary_dilation | done].
Qed.
End ShapeOf.

Lemma same_shape_propagate_spread g pot thr nb :
  same_shape g pot → same_shape (propagate_spread g pot thr nb) g.
Proof.
  intros Hs. apply same_shape_sym in Hs.
  unfold propagate_spread, mask_assign, copy.
  repeat first
    [ exact Hs | apply same_shape_refl | apply shaped_amap2 | apply shaped_amap
    | apply shaped_binary_dilation ].
Qed.

Lemma propagate_spread_keeps_burned g pot thr nb r c v :
  same_shape g pot → get2 g r c = Some v → 0 < v →
  get2 (propagate_spread g pot thr nb) r c = Some v.
Proof.
  intros Hs Hv Hpos. rewrite get2_propagate_spread, Hv. simpl.
  destruct (proj1 (same_shape_get2 g pot r c Hs)) as [pv ->]; [by eexists|].
  simpl. unfold can_spread_at.
  apply gt_spec in Hpos. rewrite Hpos, andb_false_r. done.
Qed.

(** ** The time loop *)

Lemma simulate_S pot cfg g0 t :
  simulate pot cfg g0 (S t) = timestep pot cfg (simulate pot cfg g0 t) t.
Proof. unfold simulate. rewrite seq_S, fold_left_app. done. Qed.

Lemma same_shape_simulate pot cfg g0 t :
  same_shape g0 pot →
  same_shape (simulate pot cfg g0 t).1 pot
  ∧ same_shape (simulate pot cfg g0 t).2 pot.
Proof.
  intros Hs. induction t as [|t [IH1 IH2]]; [done|].
  rewrite simulate_S. unfold timestep. simpl.
  assert (same_shape (propagate_spread (simulate pot cfg g0 t).1 pot
            (config_get cfg "spread_threshold" (3 # 10))
            (config_get cfg "neighbors" 8)) pot) as Hp.
  { eapply same_shape_trans; [by apply same_shape_propagate_spread | done]. }
  split; [done|]. by apply shaped_amap2.
Qed.

Lemma run_baseline_spread_simulate rowcol hotspots_df wind_u wind_v slope rh
    transform cfg n_timesteps :
  run_baseline_spread rowcol hotspots_df wind_u wind_v slope rh transform cfg
    n_timesteps
  = simulate (compute_spread_potential wind_u wind_v slope rh cfg) cfg
      (initialize_grid rowcol hotspots_df (shape wind_u) transform
         (config_get cfg "seed_strength" 1))
      (Z.to_nat n_timesteps).
Proof. reflexivity. Qed.

(** C3. Monotonic propagation: on grids of one shape, a step of
    [propagate_spread] leaves every non-zero cell of a FireState (a grid valued
    in [0, 1]) non-zero with the value it had; and along the time loop of a
    simulation the cells burned (FireState > 0) after [t] turns are burned
    after [t + 1] turns. *)
Theorem propagate_spread_monotonic (g pot : grid) (thr nb : Q) :
  same_shape g pot →
  (fire_state g → ∀ r c v,
     get2 g r c = Some v → ¬ v == 0 →
     get2 (propagate_spread g pot thr nb) r c = Some v ∧ ¬ v == 0)
  ∧ (∀ cfg t r c,
       burned (simulate pot cfg g t).1 r c →
       burned (simulate pot cfg g (S t)).1 r c).
Proof.
  intros Hs. split.
  - intros Hfs r c v Hv Hnz. split; [|exact Hnz].
    apply propagate_spread_keeps_burned; [done..|].
    destruct (Hfs r c v Hv) as [H0 _].
    apply Qle_lteq in H0 as [H0|H0]; [done|].
    exfalso. apply Hnz. by symmetry.
  - intros cfg t r c (v & Hv & Hpos). exists v. split; [|done].
    rewrite simulate_S. unfold timestep. simpl.
    apply propagate_spread_keeps_burned; [|done..].
    by apply same_shape_simulate.
Qed.

(** ** Shapes and bounds of the arrays of a run *)

Lemma clip_bounds x lo hi : lo <= hi → lo <= clip x lo hi <= hi.
Proof.
  intros Hle. unfold clip. split.
  - apply Q.min_glb; [apply Q.le_max_r | exact Hle].
  - apply Q.le_min_r.
Qed.

Lemma compute_spread_potential_bounds wind_u wind_v slope rh cfg r c p :
  get2 (compute_spread_potential wind_u wind_v slope rh cfg) r c = Some p →
  0 <= p <= 1.
Proof.
  unfold compute_spread_potential. rewrite get2_amap.
  intros (x & _ & ->)%fmap_Some. by apply clip_bounds.
Qed.

Lemma has_shape_same_shape {A B} H W (a : list (list A)) (b : list (list B)) :
  has_shape H W a → has_shape H W b → same_shape a b.
Proof.
  intros [La Fa] [Lb Fb].
  apply Forall2_same_length_lookup_2; [congruence|].
  intros i x y Hx Hy.
  rewrite (Forall_lookup_1 _ _ _ _ Fa Hx), (Forall_lookup_1 _ _ _ _ Fb Hy). done.
Qed.

Lemma same_shape_compute_spread_potential wind_u wind_v slope rh cfg :
  same_shape wind_v wind_u → same_shape slope wind_u → same_shape rh wind_u →
  same_shape (compute_spread_potential wind_u wind_v slope rh cfg) wind_u.
Proof.
  intros Hv Hs Hr. unfold compute_spread_potential, wind_factor.
  repeat first
    [ assumption | apply same_shape_refl | apply shaped_amap2
    | apply shaped_amap ].
Qed.

Lemma same_shape_zeros {A} H W (a : list (list A)) :
  has_shape H W a → same_shape (zeros (shape a).1 (shape a).2) a.
Proof.
  intros [_ Fa]. destruct a as [|row a']; [constructor|].
  unfold shape, zeros. simpl fst. simpl snd.
  apply Forall2_same_length_lookup_2; [by rewrite length_replicate|].
  intros i x y [-> _]%lookup_replicate Hy.
  rewrite length_replicate.
  rewrite (Forall_lookup_1 _ _ 0%nat row Fa eq_refl).
  by rewrite (Forall_lookup_1 _ _ _ _ Fa Hy).
Qed.

Lemma same_shape_set2 g r c v : same_shape (set2 g r c v) g.
Proof.
  unfold set2. apply Forall2_same_length_lookup_2; [apply length_alter|].
  intros i x y Hx Hy. destruct (decide (r = i)) as [->|Hne].
  - rewrite list_lookup_alter_eq, Hy in Hx. injection Hx as <-.
    apply length_insert.
  - rewrite list_lookup_alter_ne in Hx by done. congruence.
Qed.

Lemma same_shape_initialize_grid {A} rowcol hotspots_df transform seed_strength
    H W (a : list (list A)) :
  has_shape H W a →
  same_shape (initialize_grid rowcol hotspots_df (shape a) transform
                seed_strength) a.
Proof.
  intros Ha. unfold initialize_grid.
  generalize (same_shape_zeros H W a Ha).
  generalize (zeros (shape a).1 (shape a).2).
  induction hotspots_df as [|h hs IH]; intros g Hg; [done|].
  simpl. apply IH. unfold seed_hotspot.
  destruct (rowcol _ _ _) as [[row col]|]; [|done].
  destruct (_ && _)%bool; [|done].
  eapply same_shape_trans; [apply same_shape_set2 | done].
Qed.

(** ** The running maximum *)

Lemma timestep_max_tracks pot cfg st t :
  (∀ r c p, get2 pot r c = Some p → 0 <= p) →
  max_tracks st → max_tracks (timestep pot cfg st t).
Proof.
  intros Hpot Hst r c v'. unfold timestep. simpl.
  rewrite get2_amap2, get2_propagate_spread.
  destruct (get2 st.1 r c) as [v|] eqn:Hv; simpl; [|done].
  destruct (get2 pot r c) as [pv|] eqn:Hp; simpl; [|done].
  intros [= <-]. destruct (Hst r c v Hv) as (m & -> & Hm). simpl.
  eexists; split; [done|]. apply Q.max_r.
  destruct (can_spread_at _ _ _ _ _ _ _) eqn:Hcs.
  - unfold can_spread_at in Hcs.
    apply andb_true_iff in Hcs as [_ Hcs].
    apply negb_true_iff, gt_false in Hcs.
    rewrite Hm. eapply Qle_trans; [exact Hcs|]. by eapply Hpot.
  - rewrite Hm. apply Qle_refl.
Qed.

Lemma simulate_max_tracks pot cfg g0 t :
  (∀ r c p, get2 pot r c = Some p → 0 <= p) →
  max_tracks (simulate pot cfg g0 t).
Proof.
  intros Hpot. induction t as [|t IH].
  - intros r c v Hv. exists v. split; [done|]. reflexivity.
  - rewrite simulate_S. by apply timestep_max_tracks.
Qed.

Lemma grid_eq_cells (a b : grid) :
  same_shape a b →
  (∀ r c v, get2 a r c = Some v → ∃ m, get2 b r c = Some m ∧ m == v) →
  grid_eq a b.
Proof.
  intros Hs Hc. apply Forall2_same_length_lookup_2; [by eapply Forall2_length|].
  intros i ra rb Ha Hb.
  apply Forall2_same_length_lookup_2.
  { exact (Forall2_lookup_lr _ _ _ _ _ _ Hs Ha Hb). }
  intros j x y Hx Hy.
  destruct (Hc i j x) as (m & Hm & Heq).
  { unfold get2. rewrite Ha. done. }
  unfold get2 in Hm. rewrite Hb in Hm. simpl in Hm.
  assert (m = y) as -> by congruence. by symmetry.
Qed.

Lemma run_baseline_spread_grid_eq rowcol hotspots_df
    (wind_u wind_v slope rh : grid) transform cfg n_timesteps :
  same_shape wind_v wind_u → same_shape slope wind_u → same_shape rh wind_u →
  (∃ H W, has_shape H W wind_u) →
  grid_eq
    (run_baseline_spread rowcol hotspots_df wind_u wind_v slope rh transform
       cfg n_timesteps).1
    (run_baseline_spread rowcol hotspots_df wind_u wind_v slope rh transform
       cfg n_timesteps).2.
Proof.
  intros Hv Hs Hr (H & W & Hu). rewrite run_baseline_spread_simulate.
  set (pot := compute_spread_potential wind_u wind_v slope rh cfg).
  set (g0 := initialize_grid _ _ _ _ _).
  assert (same_shape g0 pot) as Hg0.
  { eapply same_shape_trans; [by eapply same_shape_initialize_grid|].
    by apply same_shape_sym, same_shape_compute_spread_potential. }
  destruct (same_shape_simulate pot cfg g0 (Z.to_nat n_timesteps) Hg0)
    as [H1 H2].
  apply grid_eq_cells.
  - eapply same_shape_trans; [exact H1 | by apply same_shape_sym].
  - apply simulate_max_tracks. intros r c p Hp.
    by destruct (compute_spread_potential_bounds _ _ _ _ _ _ _ _ Hp).
Qed.

(** C7. The two grids returned by [run_baseline_spread], the final FireState
    and the running elementwise maximum, are elementwise equal, for weather and
    terrain grids of one shape (H, W) and every [n_timesteps]. *)
Theorem final_state_equals_running_max rowcol hotspots_df
    (wind_u wind_v slope rh : grid) transform cfg n_timesteps H W :
  has_shape H W wind_u → has_shape H W wind_v →
  has_shape H W slope → has_shape H W rh →
  grid_eq
    (run_baseline_spread rowcol hotspots_df wind_u wind_v slope rh transform
       cfg n_timesteps).1
    (run_baseline_spread rowcol hotspots_df wind_u wind_v slope rh transform
       cfg n_timesteps).2.
Proof.
  intros Hu Hv Hs Hr.
  apply run_baseline_spread_grid_eq; try (by eapply has_shape_same_shape).
  by exists H, W.
Qed.

(** ** Convergence *)

(** C4, refuted as stated: on a 3x3 grid seeded in a corner, three steps
    (max(H, W) = 3) do not reach a fixed point, neither with 4 neighbours on a
    uniform potential nor with 8 neighbours on a potential that blocks the
    middle row: a fourth step still changes the grid. *)
Lemma convergence_bound_counterexample :
  has_shape 3 3 corner_seed ∧ has_shape 3 3 uniform_half
  ∧ has_shape 3 3 walled_half ∧ burned corner_seed 0 0
  ∧ propagate_spread
      (iterate_spread uniform_half (3 # 10) 4 (3 `max` 3) corner_seed)
      uniform_half (3 # 10) 4
    ≠ iterate_spread uniform_half (3 # 10) 4 (3 `max` 3) corner_seed
  ∧ propagate_spread
      (iterate_spread walled_half (3 # 10) 8 (3 `max` 3) corner_seed)
      walled_half (3 # 10) 8
    ≠ iterate_spread walled_half (3 # 10) 8 (3 `max` 3) corner_seed.
Proof.
  split; [by repeat constructor|].
  split; [by repeat constructor|].
  split; [by repeat constructor|].
  split; [exists 1; split; reflexivity|].
  split; vm_compute; discriminate.
Qed.

Section Counting.
Context {A : Type} (P Q : A → Prop).
Context `{!∀ x, Decision (P x)} `{!∀ x, Decision (Q x)}.

Lemma filter_length_mono (l : list A) :
  (∀ x, x ∈ l → P x → Q x) → length (filter P l) ≤ length (filter Q l).
Proof.
  induction l as [|x l IH]; intros Hsub; [done|].
  rewrite !filter_cons.
  assert (length (filter P l) ≤ length (filter Q l)) as Hle.
  { apply IH. intros y Hy. apply Hsub. by right. }
  destruct (decide (P x)) as [HP|HP].
  - rewrite decide_True by (apply Hsub; [left | done]). simpl. lia.
  - destruct (decide (Q x)); simpl; lia.
Qed.

Lemma filter_length_eq_inv (l : list A) :
  (∀ x, x ∈ l → P x → Q x) →
  length (filter P l) = length (filter Q l) →
  ∀ x, x ∈ l → Q x → P x.
Proof.
  induction l as [|y l IH]; intros Hsub Hlen x Hx HQ; [by inv Hx|].
  assert (∀ z, z ∈ l → P z → Q z) as Hsub'.
  { intros z Hz. apply Hsub. by right. }
  pose proof (filter_length_mono l Hsub') as Hle.
  rewrite !filter_cons in Hlen.
  destruct (decide (P y)) as [HP|HP].
  - rewrite decide_True in Hlen by (apply Hsub; [left | done]).
    simpl in Hlen. inv Hx; [done|]. apply IH; [done | lia | done..].
  - destruct (decide (Q y)) as [HQy|HQy]; simpl in Hlen; [lia|].
    inv Hx; [done|]. by apply IH.
Qed.

Lemma filter_length_all (l : list A) :
  length l ≤ length (filter P l) → ∀ x, x ∈ l → P x.
Proof.
  intros Hlen x Hx. destruct (decide (P x)) as [HP|HP]; [done|].
  pose proof (length_filter_lt P l x Hx HP). lia.
Qed.
End Counting.

Lemma cells_Forall2 {A B} (R : A → B → Prop)
    (a : list (list A)) (b : list (list B)) :
  same_shape a b →
  (∀ r c x y, get2 a r c = Some x → get2 b r c = Some y → R x y) →
  Forall2 (Forall2 R) a b.
Proof.
  intros Hs Hc. apply Forall2_same_length_lookup_2; [by eapply Forall2_length|].
  intros i ra rb Ha Hb.
  apply Forall2_same_length_lookup_2.
  { exact (Forall2_lookup_lr _ _ _ _ _ _ Hs Ha Hb). }
  intros j x y Hx Hy. apply (Hc i j); unfold get2.
  - by rewrite Ha.
  - by rewrite Hb.
Qed.

Lemma grid_ext {A} (a b : list (list A)) :
  same_shape a b →
  (∀ r c x y, get2 a r c = Some x → get2 b r c = Some y → x = y) →
  a = b.
Proof.
  intros Hs Hc. apply list_eq_Forall2.
  eapply Forall2_impl; [by apply (cells_Forall2 eq)|].
  intros ra rb. apply list_eq_Forall2.
Qed.

Lemma has_shape_get2 {A} H W (a : list (list A)) r c x :
  has_shape H W a → get2 a r c = Some x → (r < H)%nat ∧ (c < W)%nat.
Proof.
  intros [Hl Hf]. unfold get2.
  destruct (a !! r) as [row|] eqn:Hr; simpl; [|done].
  intros Hc. split.
  - rewrite <- Hl. by eapply lookup_lt_Some.
  - rewrite <- (Forall_lookup_1 _ _ _ _ Hf Hr). by eapply lookup_lt_Some.
Qed.

Lemma same_shape_has_shape {A B} H W (a : list (list A)) (b : list (list B)) :
  same_shape a b → has_shape H W b → has_shape H W a.
Proof.
  intros Hs [Hl Hf]. split.
  - by rewrite (Forall2_length _ _ _ Hs).
  - apply Forall_lookup. intros i ra Ha.
    destruct (Forall2_lookup_l _ _ _ _ _ Hs Ha) as (rb & Hb & ->).
    by apply (Forall_lookup_1 _ _ _ _ Hf Hb).
Qed.

Lemma elem_of_cells H W r c :
  (r < H)%nat → (c < W)%nat → (r, c) ∈ cells H W.
Proof.
  intros Hr Hc. unfold cells. apply list_elem_of_In, in_prod; apply in_seq; lia.
Qed.

Lemma length_cells H W : length (cells H W) = (H * W)%nat.
Proof. unfold cells. by rewrite length_prod, !length_seq. Qed.

Lemma settled_at_propagate_spread g pot thr nb rc :
  settled_at g pot rc = true →
  settled_at (propagate_spread g pot thr nb) pot rc = true.
Proof.
  unfold settled_at. rewrite get2_propagate_spread.
  destruct (get2 g rc.1 rc.2) as [v|]; simpl; [|done].
  destruct (get2 pot rc.1 rc.2) as [pv|]; simpl; [|done].
  intros Hv. destruct (can_spread_at _ _ _ _ _ _ _); [|done].
  rewrite bool_decide_eq_true_2 by done. apply orb_true_r.
Qed.

Lemma propagate_spread_settled_fixed H W g pot thr nb :
  has_shape H W g → same_shape g pot →
  (∀ rc, rc ∈ cells H W →
     settled_at (propagate_spread g pot thr nb) pot rc = true →
     settled_at g pot rc = true) →
  propagate_spread g pot thr nb = g.
Proof.
  intros Hg Hs Hset. apply grid_ext; [by apply same_shape_propagate_spread|].
  intros r c x y Hx Hy.
  destruct (has_shape_get2 _ _ _ _ _ _ Hg Hy) as [Hr Hc].
  specialize (Hset (r, c) (elem_of_cells _ _ _ _ Hr Hc)).
  unfold settled_at in Hset. simpl in Hset. rewrite Hx, Hy in Hset.
  rewrite get2_propagate_spread, Hy in Hx. simpl in Hx.
  destruct (get2 pot r c) as [pv|]; simpl in Hx; [|done].
  injection Hx as <-.
  destruct (can_spread_at g thr nb r c y pv) eqn:Hcs; [|done].
  rewrite bool_decide_eq_true_2, orb_true_r in Hset by done.
  specialize (Hset eq_refl).
  unfold can_spread_at in Hcs. apply andb_true_iff in Hcs as [_ Hcs].
  apply negb_true_iff in Hcs. rewrite Hcs in Hset. simpl in Hset.
  by apply bool_decide_eq_true in Hset.
Qed.

Lemma same_shape_iterate_spread pot thr nb k g :
  same_shape g pot → same_shape (iterate_spread pot thr nb k g) pot.
Proof.
  intros Hs. induction k as [|k IH]; [done|].
  unfold iterate_spread in *. simpl.
  eapply same_shape_trans; [by apply same_shape_propagate_spread | done].
Qed.

Lemma iterate_spread_progress H W g pot thr nb k :
  has_shape H W pot → same_shape g pot →
  propagate_spread (iterate_spread pot thr nb k g) pot thr nb
  = iterate_spread pot thr nb k g
  ∨ (k ≤ settled_count H W (iterate_spread pot thr nb k g) pot)%nat.
Proof.
  intros Hp Hs. induction k as [|k IH]; [right; lia|].
  pose proof (same_shape_iterate_spread pot thr nb k g Hs) as Hsk.
  change (iterate_spread pot thr nb (S k) g)
    with (propagate_spread (iterate_spread pot thr nb k g) pot thr nb).
  set (gk := iterate_spread pot thr nb k g) in *.
  destruct (decide (propagate_spread gk pot thr nb = gk)) as [Hfix|Hne].
  { left. by rewrite !Hfix. }
  destruct IH as [Hfix|Hk]; [done|]. right.
  unfold settled_count in *.
  pose proof (filter_length_mono
    (λ rc, settled_at gk pot rc = true)
    (λ rc, settled_at (propagate_spread gk pot thr nb) pot rc = true)
    (cells H W)
    (λ rc _, settled_at_propagate_spread gk pot thr nb rc)) as Hle.
  destruct (decide (length (filter (λ rc, settled_at gk pot rc = true)
                              (cells H W))
                    = length (filter
                        (λ rc, settled_at (propagate_spread gk pot thr nb)
                                 pot rc = true)
                        (cells H W)))) as [Heq|Hlt]; [|lia].
  exfalso. apply Hne.
  apply (propagate_spread_settled_fixed H W); [|done|].
  - by eapply same_shape_has_shape.
  - eapply filter_length_eq_inv; [|exact Heq].
    intros rc _. apply settled_at_propagate_spread.
Qed.

(** C4, as amended: on a grid and a potential of shape (H, W), for every
    threshold and neighbours setting, H * W steps of [propagate_spread] reach a
    fixed point: one more step returns the grid unchanged, and so does any
    number of further steps. *)
Theorem propagate_spread_converges H W (g pot : grid) (thr nb : Q) :
  has_shape H W g → has_shape H W pot →
  propagate_spread (iterate_spread pot thr nb (H * W) g) pot thr nb
  = iterate_spread pot thr nb (H * W) g
  ∧ ∀ k, iterate_spread pot thr nb (H * W + k) g
         = iterate_spread pot thr nb (H * W) g.
Proof.
  intros Hg Hp.
  assert (same_shape g pot) as Hs by by eapply has_shape_same_shape.
  assert (propagate_spread (iterate_spread pot thr nb (H * W) g) pot thr nb
          = iterate_spread pot thr nb (H * W) g) as Hfix.
  { destruct (iterate_spread_progress H W g pot thr nb (H * W) Hp Hs)
      as [Hfix|Hall]; [done|].
    pose proof (same_shape_iterate_spread pot thr nb (H * W) g Hs) as Hsk.
    apply (propagate_spread_settled_fixed H W); [|done|].
    - by eapply same_shape_has_shape.
    - intros rc Hrc _. unfold settled_count in Hall.
      rewrite <- (length_cells H W) in Hall at 1.
      by apply (filter_length_all _ _ Hall). }
  split; [exact Hfix|].
  induction k as [|k IH]; [by rewrite Nat.add_0_r|].
  rewrite Nat.add_succ_r.
  change (iterate_spread pot thr nb (S (H * W + k)) g)
    with (propagate_spread (iterate_spread pot thr nb (H * W + k) g)
            pot thr nb).
  by rewrite IH.
Qed.

(** ** Seeding *)

Lemma seed_hotspot_off_grid rowcol grid_shape transform seed_strength g h :
  off_grid rowcol grid_shape transform h →
  seed_hotspot rowcol grid_shape transform seed_strength g h = g.
Proof.
  unfold off_grid, seed_hotspot.
  destruct (rowcol _ _ _) as [[row col]|]; [|done].
  intros Hoff.
  destruct (_ && _)%bool eqn:Hin; [|done].
  exfalso. apply Hoff.
  repeat (apply andb_true_iff in Hin as [Hin ?]). lia.
Qed.

(** C9. A hotspot whose coordinate maps outside [0, H) x [0, W), or on which
    the coordinate transformation fails, changes no cell of the grid being
    seeded, and [initialize_grid] (a total function: it does not raise) gives
    the grid it gives without that hotspot, the hotspots before and after it
    being processed as usual. *)
Theorem initialize_grid_skips_off_grid rowcol grid_shape transform
    seed_strength (before after : list hotspot) (h : hotspot) :
  off_grid rowcol grid_shape transform h →
  (∀ g, seed_hotspot rowcol grid_shape transform seed_strength g h = g)
  ∧ initialize_grid rowcol (before ++ h :: after) grid_shape transform
      seed_strength
    = initialize_grid rowcol (before ++ after) grid_shape transform
        seed_strength.
Proof.
  intros Hoff. split.
  - intros g. by apply seed_hotspot_off_grid.
  - unfold initialize_grid. rewrite !fold_left_app. simpl.
    by rewrite seed_hotspot_off_grid.
Qed.

(** ** The wind factor *)

(** C8, refuted as stated: with [wind_norm_max = 10] in the configuration and
    a wind of 5 m/s the spec's wind factor is 1/2, the code's is 1/4. *)
Lemma wind_norm_max_counterexample :
  grid_eq (wind_factor_spec {[ "wind_norm_max" := 10 ]} [[5]] [[0]]) [[1 # 2]]
  ∧ grid_eq (wind_factor [[5]] [[0]]) [[1 # 4]]
  ∧ ¬ grid_eq (wind_factor [[5]] [[0]])
        (wind_factor_spec {[ "wind_norm_max" := 10 ]} [[5]] [[0]]).
Proof.
  split; [by repeat constructor|].
  split; [by repeat constructor|].
  intros H. inv H. match goal with H : Forall2 Qeq _ _ |- _ => inv H end.
  match goal with H : _ == _ |- _ => vm_compute in H; discriminate H end.
Qed.

(** C8, as amended: the wind factor entering the spread potential is
    [clip(sqrt(wind_u^2 + wind_v^2) / 20, 0, 1)]: it is the spec's factor for a
    configuration without [wind_norm_max], and [wind_norm_max] is not read, so
    setting it to any [c] leaves the spread potential as it was. *)
Theorem wind_factor_fixed_norm (cfg : config) (c : Q)
    (wind_u wind_v slope rh : grid) :
  wind_factor wind_u wind_v
  = wind_factor_spec (delete "wind_norm_max" cfg) wind_u wind_v
  ∧ compute_spread_potential wind_u wind_v slope rh
      (<["wind_norm_max" := c]> cfg)
    = compute_spread_potential wind_u wind_v slope rh cfg.
Proof.
  split.
  - unfold wind_factor, wind_factor_spec, config_get.
    by rewrite lookup_delete_eq.
  - unfold compute_spread_potential, config_get.
    by rewrite !lookup_insert_ne.
Qed.

(** ** The ensemble: determinism and preconditions *)

Section Ensemble.
Context {rng_state : Type}.
Context (init_genrand : Z → rng_state).
Context (random_sample : rng_state → Q * rng_state).
Context (rowcol : Affine → Q → Q → option (Z * Z)).

Lemma bind_ok {A B} (m : M rng_state A) (k : A → M rng_state B) s x s' :
  m s = Ok (x, s') → bind m k s = k x s'.
Proof. unfold bind. by intros ->. Qed.

Lemma perturb_weather_reseeds wind_u wind_v temp rh cfg seed s1 s2 :
  perturb_weather init_genrand random_sample wind_u wind_v temp rh cfg seed s1
  = perturb_weather init_genrand random_sample wind_u wind_v temp rh cfg
      seed s2.
Proof.
  unfold perturb_weather, bind, np_random_seed.
  by destruct (_ && _)%bool.
Qed.

Lemma foldM_outcome {A B} (f : B → A → M rng_state B) l acc s1 s2 :
  (∀ acc i s1 s2, f acc i s1 = f acc i s2) →
  outcome (foldM f l acc s1) = outcome (foldM f l acc s2).
Proof.
  intros Hf. destruct l as [|i l]; [done|].
  simpl. unfold bind. by rewrite (Hf acc i s1 s2).
Qed.

Lemma outcome_bind {A B} (m : M rng_state A) (k : A → M rng_state B) s1 s2 :
  outcome (m s1) = outcome (m s2) →
  (∀ x t1 t2, outcome (k x t1) = outcome (k x t2)) →
  outcome (bind m k s1) = outcome (bind m k s2).
Proof.
  intros Hm Hk. unfold bind.
  destruct (m s1) as [[x1 t1]|e1], (m s2) as [[x2 t2]|e2]; simpl in Hm;
    try done.
  - injection Hm as ->. apply Hk.
  - by destruct e1, e2.
Qed.

(** C1. Determinism of the ensemble: two invocations of
    [run_monte_carlo_ensemble] on the same grids, detections, configuration,
    [base_seed] and [n_ensemble] give the same outcome, the same three grids
    or the same exception, whatever states [s1] and [s2] the global generator
    is in when they start. *)
Theorem run_monte_carlo_ensemble_deterministic hotspots_df
    wind_u wind_v temp slope rh transform model_config mc_config
    n_ensemble base_seed n_timesteps (s1 s2 : rng_state) :
  outcome (run_monte_carlo_ensemble init_genrand random_sample rowcol
             hotspots_df wind_u wind_v temp slope rh transform model_config
             mc_config n_ensemble base_seed n_timesteps s1)
  = outcome (run_monte_carlo_ensemble init_genrand random_sample rowcol
               hotspots_df wind_u wind_v temp slope rh transform model_config
               mc_config n_ensemble base_seed n_timesteps s2).
Proof.
  unfold run_monte_carlo_ensemble.
  destruct (n_ensemble <? 0)%Z; [done|].
  apply outcome_bind; [done|]. intros er0 t1 t2.
  apply outcome_bind.
  - apply foldM_outcome. intros acc i u1 u2. unfold ensemble_member, bind.
    by rewrite (perturb_weather_reseeds _ _ _ _ _ _ u1 u2).
  - intros er u1 u2. unfold np_max, bind, raise, ret.
    by destruct (concat _).
Qed.

Lemma map_const_seq {A} (x : A) j n :
  map (λ _, x) (seq j n) = replicate n x.
Proof. revert j. induction n as [|n IH]; intros j; simpl; by f_equal. Qed.

Lemma reduce_axis0_empty f grid_shape :
  reduce_axis0 f grid_shape [] = replicate grid_shape.1 (replicate grid_shape.2 (f [])).
Proof.
  unfold reduce_axis0. simpl. by rewrite !map_const_seq.
Qed.

Lemma np_max_ok {A} H W (a : list (list A)) (s : rng_state) :
  has_shape H W a → (0 < H * W)%nat → np_max a s = Ok (tt, s).
Proof.
  intros [Hl Hf] Hpos. unfold np_max.
  destruct a as [|row a']; [simpl in Hl; lia|].
  inv Hf. destruct row as [|x row]; [simpl in Hpos; lia|]. done.
Qed.

(** C6, as amended: a negative [n_ensemble] makes the call fail with numpy's
    [ValueError]; [n_ensemble = 0], on a grid that has cells, makes it return
    three grids of the shape of the input whose cells are all NaN, leaving the
    generator as it was; and a negative [n_timesteps] is run as
    [n_timesteps = 0]. *)
Theorem run_monte_carlo_ensemble_preconditions hotspots_df
    wind_u wind_v temp slope rh transform model_config mc_config
    n_ensemble base_seed n_timesteps (s : rng_state) :
  ((n_ensemble < 0)%Z →
     run_monte_carlo_ensemble init_genrand random_sample rowcol
       hotspots_df wind_u wind_v temp slope rh transform model_config
       mc_config n_ensemble base_seed n_timesteps s
     = Raise ValueError)
  ∧ ((0 < (shape wind_u).1 * (shape wind_u).2)%nat →
     run_monte_carlo_ensemble init_genrand random_sample rowcol
       hotspots_df wind_u wind_v temp slope rh transform model_config
       mc_config 0 base_seed n_timesteps s
     = (let nan := full_nan (shape wind_u).1 (shape wind_u).2 in
        Ok (nan, nan, nan, s)))
  ∧ ((n_timesteps < 0)%Z →
       run_monte_carlo_ensemble init_genrand random_sample rowcol
         hotspots_df wind_u wind_v temp slope rh transform model_config
         mc_config n_ensemble base_seed n_timesteps s
       = run_monte_carlo_ensemble init_genrand random_sample rowcol
           hotspots_df wind_u wind_v temp slope rh transform model_config
           mc_config n_ensemble base_seed 0 s).
Proof.
  split; [|split].
  - intros Hneg. unfold run_monte_carlo_ensemble.
    apply Z.ltb_lt in Hneg. rewrite Hneg. done.
  - intros Hpos. unfold run_monte_carlo_ensemble, range.
    change (0 <? 0)%Z with false. change (Z.to_nat 0) with 0%nat.
    cbn [seq foldM replicate fmap list_fmap]. unfold bind at 1 2.
    unfold ret at 1 2. cbv beta iota.
    rewrite !reduce_axis0_empty.
    rewrite (bind_ok _ _ _ _ _
               (np_max_ok (shape wind_u).1 (shape wind_u).2 _ s
                  (conj (length_replicate _ _)
                        (Forall_replicate _ _ _ (length_replicate _ _)))
                  Hpos)).
    done.
  - intros Hneg. unfold run_monte_carlo_ensemble, ensemble_member,
      run_baseline_spread, range.
    by rewrite (Z2Nat.nonpos n_timesteps) by lia.
Qed.

End Ensemble.

(** C6, refuted as stated: with [n_ensemble = 0] the call returns a result,
    and with [n_timesteps = -1] it returns a result too. *)
Lemma precondition_counterexample :
  (∃ r, run_monte_carlo_ensemble lcg_seed lcg_sample rowcol_affine
          [{| longitude := 0; latitude := 0 |}]
          (one_cell 5) (one_cell 0) (one_cell 295) (one_cell 10) (one_cell 40)
          unit_transform ∅ ∅ 0 42 24 7%Z = Ok r)
  ∧ (∃ r, run_monte_carlo_ensemble lcg_seed lcg_sample rowcol_affine
            [{| longitude := 0; latitude := 0 |}]
            (one_cell 5) (one_cell 0) (one_cell 295) (one_cell 10)
            (one_cell 40) unit_transform ∅ ∅ 1 42 (-1) 7%Z = Ok r).
Proof. split; vm_compute; eexists; reflexivity. Qed.

(** ** Bounds of the cells of a run *)

Lemma get2_set2 g r c v r' c' x :
  get2 (set2 g r c v) r' c' = Some x → x = v ∨ get2 g r' c' = Some x.
Proof.
  unfold get2, set2. destruct (decide (r = r')) as [->|Hr].
  - rewrite list_lookup_alter_eq. destruct (g !! r') as [row|]; simpl; [|done].
    destruct (decide (c = c')) as [->|Hc].
    + intros Hx. left.
      apply list_lookup_insert_Some in Hx as [(_ & -> & _)|[Hne _]]; done.
    + rewrite list_lookup_insert_ne by done. by right.
  - rewrite list_lookup_alter_ne by done. by right.
Qed.

Lemma cells_in_zeros (P : Q → Prop) H W : P 0 → cells_in P (zeros H W).
Proof.
  intros H0 r c x. unfold get2, zeros.
  destruct (replicate H (replicate W 0) !! r) as [row|] eqn:Hr; simpl; [|done].
  apply lookup_replicate in Hr as [-> _].
  by intros [-> _]%lookup_replicate.
Qed.

Lemma cells_in_initialize_grid (P : Q → Prop) rowcol hotspots_df grid_shape
    transform seed_strength :
  P 0 → P seed_strength →
  cells_in P (initialize_grid rowcol hotspots_df grid_shape transform
                seed_strength).
Proof.
  intros H0 Hs. unfold initialize_grid.
  generalize (cells_in_zeros P grid_shape.1 grid_shape.2 H0).
  generalize (zeros grid_shape.1 grid_shape.2).
  induction hotspots_df as [|h hs IH]; intros g Hg; [done|].
  simpl. apply IH. unfold seed_hotspot.
  destruct (rowcol _ _ _) as [[row col]|]; [|done].
  destruct (_ && _)%bool; [|done].
  intros r c x [->|Hx]%get2_set2; [done|]. by eapply Hg.
Qed.

Lemma cells_in_propagate_spread (P : Q → Prop) g pot thr nb :
  cells_in P g → cells_in P pot → cells_in P (propagate_spread g pot thr nb).
Proof.
  intros Hg Hp r c x. rewrite get2_propagate_spread.
  destruct (get2 g r c) as [v|] eqn:Hv; simpl; [|done].
  destruct (get2 pot r c) as [pv|] eqn:Hpv; simpl; [|done].
  intros [= <-]. destruct (can_spread_at _ _ _ _ _ _ _); [by eapply Hp | by eapply Hg].
Qed.

Lemma Qmax_cases x y : Qmax x y = x ∨ Qmax x y = y.
Proof.
  unfold Qmax, GenericMinMax.gmax. destruct (x ?= y); auto.
Qed.

Lemma cells_in_maximum (P : Q → Prop) (a b : grid) :
  cells_in P a → cells_in P b → cells_in P (amap2 Qmax a b).
Proof.
  intros Ha Hb r c x. rewrite get2_amap2.
  destruct (get2 a r c) as [v|] eqn:Hv; simpl; [|done].
  destruct (get2 b r c) as [w|] eqn:Hw; simpl; [|done].
  intros [= <-]. destruct (Qmax_cases v w) as [->| ->]; [by eapply Ha | by eapply Hb].
Qed.

Lemma cells_in_simulate (P : Q → Prop) pot cfg g0 t :
  cells_in P g0 → cells_in P pot →
  cells_in P (simulate pot cfg g0 t).1 ∧ cells_in P (simulate pot cfg g0 t).2.
Proof.
  intros Hg Hp. induction t as [|t [IH1 IH2]]; [done|].
  rewrite simulate_S. unfold timestep. simpl.
  assert (cells_in P (propagate_spread (simulate pot cfg g0 t).1 pot
            (config_get cfg "spread_threshold" (3 # 10))
            (config_get cfg "neighbors" 8))) as Hc
    by by apply cells_in_propagate_spread.
  split; [done|]. by apply cells_in_maximum.
Qed.

Lemma cells_in_run_baseline_spread (P : Q → Prop) rowcol hotspots_df
    wind_u wind_v slope rh transform cfg n_timesteps :
  P 0 → P (config_get cfg "seed_strength" 1) → (∀ x, 0 <= x <= 1 → P x) →
  cells_in P (run_baseline_spread rowcol hotspots_df wind_u wind_v slope rh
                transform cfg n_timesteps).2.
Proof.
  intros H0 Hs H01. rewrite run_baseline_spread_simulate.
  apply cells_in_simulate.
  - by apply cells_in_initialize_grid.
  - intros r c x Hx. apply H01.
    by eapply compute_spread_potential_bounds.
Qed.

(** ** Reductions along the ensemble axis *)

Lemma sum_bounds lo hi xs :
  Forall (λ x, lo <= x <= hi) xs →
  inject_Z (Z.of_nat (length xs)) * lo <= fold_right Qplus 0 xs
  ∧ fold_right Qplus 0 xs <= inject_Z (Z.of_nat (length xs)) * hi.
Proof.
  induction 1 as [|x xs [Hlo Hhi] _ [IH1 IH2]].
  - change (inject_Z (Z.of_nat (length (@nil Q)))) with 0.
    simpl fold_right. split; lra.
  - simpl length. simpl fold_right.
    rewrite Nat2Z.inj_succ, <- Z.add_1_r, inject_Z_plus.
    change (inject_Z 1) with 1.
    set (n := inject_Z (Z.of_nat (length xs))) in *.
    set (t := fold_right Qplus 0 xs) in *.
    split; lra.
Qed.

Lemma np_mean_bounds lo hi xs :
  xs ≠ [] → Forall (λ x, lo <= x <= hi) xs → val_in lo hi (np_mean xs).
Proof.
  intros Hne Hxs. destruct (sum_bounds lo hi xs Hxs) as [H1 H2].
  destruct xs as [|x xs]; [done|].
  unfold np_mean. eexists; split; [done|].
  set (n := inject_Z (Z.of_nat (length (x :: xs)))) in *.
  assert (0 < n) as Hn.
  { unfold n, Qlt. simpl. lia. }
  split.
  - apply Qle_shift_div_l; [done|]. lra.
  - apply Qle_shift_div_r; [done|]. lra.
Qed.

Lemma sqrt_nonneg x : 0 <= sqrt x.
Proof.
  unfold sqrt, Qle. simpl. pose proof (Z.sqrt_nonneg (Qnum x * Z.pos (Qden x))).
  lia.
Qed.

Lemma np_std_nonneg xs : xs ≠ [] → val_nonneg (np_std xs).
Proof.
  intros Hne. destruct xs as [|x xs]; [done|].
  unfold np_std. simpl. eexists; split; [done|]. apply sqrt_nonneg.
Qed.

Lemma get2_reduce_axis0 f grid_shape stack r c x :
  get2 (reduce_axis0 f grid_shape stack) r c = Some x →
  x = f (map (λ m, default 0 (get2 m r c)) stack).
Proof.
  unfold reduce_axis0, get2. rewrite list_lookup_fmap.
  destruct (seq 0 grid_shape.1 !! r) as [r'|] eqn:Hr; simpl; [|done].
  apply lookup_seq in Hr as [-> _]. rewrite list_lookup_fmap.
  destruct (seq 0 grid_shape.2 !! c) as [c'|] eqn:Hc; simpl; [|done].
  apply lookup_seq in Hc as [-> _]. by intros [= <-].
Qed.

Lemma has_shape_reduce_axis0 f grid_shape stack :
  has_shape grid_shape.1 grid_shape.2 (reduce_axis0 f grid_shape stack).
Proof.
  unfold reduce_axis0. split.
  - by rewrite length_map, length_seq.
  - apply Forall_fmap, Forall_true. intros r. simpl.
    by rewrite length_map, length_seq.
Qed.

Lemma Forall2_amap2_r {A B C} (R : A → B → Prop) (S : A → C → Prop)
    (f : A → B → C) (a : list (list A)) (b : list (list B)) :
  Forall2 (Forall2 R) a b → (∀ x y, R x y → S x (f x y)) →
  Forall2 (Forall2 S) a (amap2 f a b).
Proof.
  intros Hab HRS. unfold amap2.
  induction Hab as [|ra rb a' b' Hr _ IH]; simpl; constructor; [|done].
  induction Hr; simpl; constructor; auto.
Qed.

Lemma Forall2_amap_r {A B C} (R : A → B → Prop) (S : A → C → Prop)
    (f : B → C) (a : list (list A)) (b : list (list B)) :
  Forall2 (Forall2 R) a b → (∀ x y, R x y → S x (f y)) →
  Forall2 (Forall2 S) a (amap f b).
Proof.
  intros Hab HRS. unfold amap.
  induction Hab as [|ra rb a' b' Hr _ IH]; simpl; constructor; [|done].
  induction Hr; simpl; constructor; auto.
Qed.

(** ** The generator and the ensemble loop *)

Section EnsembleLoop.
Context {rng_state : Type}.
Context (init_genrand : Z → rng_state).
Context (random_sample : rng_state → Q * rng_state).
Context (rowcol : Affine → Q → Q → option (Z * Z)).

Lemma mapM_Forall2 {A B} (f : A → M rng_state B) (R : A → B → Prop) l s :
  (∀ x s, ∃ y s', f x s = Ok (y, s') ∧ R x y) →
  ∃ ys s', mapM f l s = Ok (ys, s') ∧ Forall2 R l ys.
Proof.
  intros Hf. revert s. induction l as [|x l IH]; intros s; simpl.
  - by exists [], s.
  - destruct (Hf x s) as (y & s1 & Hy & HR).
    destruct (IH s1) as (ys & s2 & Hys & HRs).
    exists (y :: ys), s2. unfold bind. rewrite Hy, Hys. by split; [|constructor].
Qed.

Lemma foldM_inv {A B} (f : B → A → M rng_state B) (Inv : B → Prop) l acc s :
  (∀ acc i s, i ∈ l → Inv acc → ∃ acc' s', f acc i s = Ok (acc', s') ∧ Inv acc') →
  Inv acc → ∃ acc' s', foldM f l acc s = Ok (acc', s') ∧ Inv acc'.
Proof.
  revert acc s. induction l as [|i l IH]; intros acc s Hf Hacc; simpl.
  - by exists acc, s.
  - destruct (Hf acc i s) as (acc1 & s1 & Hi & Hacc1); [by left | done |].
    unfold bind. rewrite Hi. apply IH; [|done].
    intros acc' j s' Hj. apply Hf. by right.
Qed.

Lemma np_random_uniform_spec low high a s :
  ∃ d s', np_random_uniform random_sample low high a s = Ok (d, s')
    ∧ Forall2 (Forall2 (λ (_ x : Q),
        ∃ s0, x = low + (high - low) * (random_sample s0).1)) a d.
Proof.
  unfold np_random_uniform. apply mapM_Forall2. intros row s1.
  apply mapM_Forall2. intros _ s2.
  destruct (random_sample s2) as [u s3] eqn:Hu.
  exists (low + (high - low) * u), s3. split; [done|].
  exists s2. by rewrite Hu.
Qed.

Lemma perturb_weather_spec wind_u wind_v temp rh cfg seed s :
  (0 ≤ seed < 2 ^ 32)%Z →
  ∃ wind_u' wind_v' temp' rh' s',
    perturb_weather init_genrand random_sample wind_u wind_v temp rh cfg
      seed s
    = Ok (wind_u', wind_v', temp', rh', s')
    ∧ Forall2 (Forall2 (perturbed_by random_sample
                 (config_get cfg "wind_perturbation" (2 # 10))))
        wind_u wind_u'
    ∧ Forall2 (Forall2 (perturbed_by random_sample
                 (config_get cfg "wind_perturbation" (2 # 10))))
        wind_v wind_v'
    ∧ Forall2 (Forall2 (λ h h', ∃ y,
                 perturbed_by random_sample
                   (config_get cfg "rh_perturbation" (1 # 10)) h y
                 ∧ h' = clip y 0 100))
        rh rh'.
Proof.
  intros Hseed. unfold perturb_weather, np_random_seed, bind at 1.
  rewrite (proj2 (andb_true_iff _ _)) by (split; [apply Z.leb_le | apply Z.ltb_lt]; lia).
  set (wp := config_get cfg "wind_perturbation" (2 # 10)).
  set (tp := config_get cfg "temp_perturbation" (5 # 100)).
  set (rp := config_get cfg "rh_perturbation" (1 # 10)).
  destruct (np_random_uniform_spec (- wp) wp wind_u (init_genrand seed))
    as (du & s1 & Hu & Hdu).
  destruct (np_random_uniform_spec (- wp) wp wind_v s1) as (dv & s2 & Hv & Hdv).
  destruct (np_random_uniform_spec (- tp) tp temp s2) as (dt & s3 & Ht & Hdt).
  destruct (np_random_uniform_spec (- rp) rp rh s3) as (dh & s4 & Hh & Hdh).
  rewrite (bind_ok _ _ _ _ _ Hu), (bind_ok _ _ _ _ _ Hv),
    (bind_ok _ _ _ _ _ Ht), (bind_ok _ _ _ _ _ Hh).
  unfold ret. do 5 eexists. split; [done|].
  split; [|split].
  - eapply Forall2_amap2_r; [exact Hdu|]. intros x d (s0 & ->). by exists s0.
  - eapply Forall2_amap2_r; [exact Hdv|]. intros x d (s0 & ->). by exists s0.
  - eapply Forall2_amap_r.
    + eapply (Forall2_amap2_r _ (perturbed_by random_sample rp)); [exact Hdh|].
      intros x d (s0 & ->). by exists s0.
    + intros h y Hy. simpl. by exists y.
Qed.

Lemma ensemble_member_spec hotspots_df wind_u wind_v temp slope rh transform
    model_config mc_config base_seed n_timesteps ensemble_results i s :
  (0 ≤ base_seed + Z.of_nat i < 2 ^ 32)%Z →
  ∃ wind_u' wind_v' rh' s',
    ensemble_member init_genrand random_sample rowcol hotspots_df
      wind_u wind_v temp slope rh transform model_config mc_config
      base_seed n_timesteps ensemble_results i s
    = Ok (<[i := (run_baseline_spread rowcol hotspots_df wind_u' wind_v'
                    slope rh' transform model_config n_timesteps).2]>
            ensemble_results, s')
    ∧ Forall2 (Forall2 (perturbed_by random_sample
                 (config_get mc_config "wind_perturbation" (2 # 10))))
        wind_u wind_u'
    ∧ Forall2 (Forall2 (perturbed_by random_sample
                 (config_get mc_config "wind_perturbation" (2 # 10))))
        wind_v wind_v'
    ∧ Forall2 (Forall2 (λ h h', ∃ y,
                 perturbed_by random_sample
                   (config_get mc_config "rh_perturbation" (1 # 10)) h y
                 ∧ h' = clip y 0 100))
        rh rh'.
Proof.
  intros Hseed. unfold ensemble_member.
  destruct (perturb_weather_spec wind_u wind_v temp rh mc_config
              (base_seed + Z.of_nat i) s Hseed)
    as (wu & wv & t' & rh' & s' & Hp & Hu & Hv & Hh).
  rewrite (bind_ok _ _ _ _ _ Hp).
  exists wu, wv, rh', s'. split; [|done].
  by destruct (run_baseline_spread _ _ _ _ _ _ _ _ _).
Qed.

(** C5, as amended: on a grid that has cells, for [n_ensemble >= 1] and
    member seeds within numpy's range [0, 2**32),
    [run_monte_carlo_ensemble] returns three grids of the shape of
    [wind_u]; for every configuration every cell of [probability]
    is in [0, 1] and every cell of [uncertainty] is not negative; and for
    every configuration whose [seed_strength] is in [0, 1] every cell of
    [mean_intensity] is in [0, 1]. *)
Theorem ensemble_outputs_bounded hotspots_df
    wind_u wind_v temp slope rh transform model_config mc_config
    n_ensemble base_seed n_timesteps (s : rng_state) :
  (0 < (shape wind_u).1 * (shape wind_u).2)%nat →
  (1 ≤ n_ensemble)%Z → (0 ≤ base_seed)%Z →
  (base_seed + n_ensemble ≤ 2 ^ 32)%Z →
  ∃ probability mean_intensity uncertainty s',
    run_monte_carlo_ensemble init_genrand random_sample rowcol
      hotspots_df wind_u wind_v temp slope rh transform model_config
      mc_config n_ensemble base_seed n_timesteps s
    = Ok (probability, mean_intensity, uncertainty, s')
    ∧ has_shape (shape wind_u).1 (shape wind_u).2 probability
    ∧ has_shape (shape wind_u).1 (shape wind_u).2 mean_intensity
    ∧ has_shape (shape wind_u).1 (shape wind_u).2 uncertainty
    ∧ cells_in (val_in 0 1) probability
    ∧ (0 <= config_get model_config "seed_strength" 1 <= 1 →
       cells_in (val_in 0 1) mean_intensity)
    ∧ cells_in val_nonneg uncertainty.
Proof.
  intros Hcells Hn Hb Hmax. unfold run_monte_carlo_ensemble.
  rewrite (proj2 (Z.ltb_ge n_ensemble 0)) by lia.
  unfold bind at 1. unfold ret at 1.
  set (seed_strength := config_get model_config "seed_strength" 1).
  set (P := λ x : Q, 0 <= seed_strength <= 1 → 0 <= x <= 1).
  set (n := Z.to_nat n_ensemble).
  set (Inv := λ er : list grid, length er = n ∧ Forall (cells_in P) er).
  edestruct (foldM_inv
    (ensemble_member init_genrand random_sample rowcol hotspots_df wind_u
       wind_v temp slope rh transform model_config mc_config base_seed
       n_timesteps)
    Inv (range n_ensemble)
    (replicate n (zeros (shape wind_u).1 (shape wind_u).2)) s)
    as (er & s' & Hfold & Hlen & Her).
  { intros acc i s0 Hi [Hacc1 Hacc2].
    apply elem_of_seq in Hi.
    destruct (ensemble_member_spec hotspots_df wind_u wind_v temp slope rh
                transform model_config mc_config base_seed n_timesteps
                acc i s0) as (wu & wv & rh' & s1 & -> & _); [lia|].
    do 2 eexists. split; [done|]. split.
    - by rewrite length_insert.
    - apply Forall_insert; [done|].
      apply cells_in_run_baseline_spread; unfold P, seed_strength; intros;
        lra. }
  { split; [by rewrite length_replicate|].
    apply Forall_replicate, cells_in_zeros. unfold P. intros; lra. }
  rewrite (bind_ok _ _ _ _ _ Hfold).
  rewrite (bind_ok _ _ _ _ _
             (np_max_ok _ _ _ s' (has_shape_reduce_axis0 np_mean _ _) Hcells)).
  unfold ret.
  assert (er ≠ []) as Hne.
  { intros ->. simpl in Hlen. lia. }
  do 4 eexists. split; [done|].
  split; [apply has_shape_reduce_axis0|].
  split; [apply has_shape_reduce_axis0|].
  split; [apply has_shape_reduce_axis0|].
  split; [|split].
  - intros r c x ->%get2_reduce_axis0. apply np_mean_bounds.
    + by destruct er.
    + rewrite !Forall_fmap. apply Forall_true. intros m. simpl.
      rewrite get2_amap. destruct (get2 m r c) as [v|]; simpl; [|lra].
      destruct (gt v 0); lra.
  - intros Hs r c x ->%get2_reduce_axis0. apply np_mean_bounds.
    + by destruct er.
    + rewrite Forall_fmap. eapply Forall_impl; [exact Her|].
      intros m Hm. simpl.
      destruct (get2 m r c) as [v|] eqn:Hv; simpl; [|lra].
      by apply (Hm r c v Hv).
  - intros r c x ->%get2_reduce_axis0. apply np_std_nonneg.
    by destruct er.
Qed.

End EnsembleLoop.

(** C5, refuted as stated: with [seed_strength = 2] in the configuration the
    seeded cell has mean intensity 2. *)
Lemma bounded_outputs_counterexample :
  ∃ probability mean_intensity uncertainty s' q,
    run_monte_carlo_ensemble lcg_seed lcg_sample rowcol_affine
      [{| longitude := 0; latitude := 0 |}]
      (one_cell 5) (one_cell 0) (one_cell 295) (one_cell 10) (one_cell 40)
      unit_transform {[ "seed_strength" := 2 ]} ∅ 1 42 24 7%Z
    = Ok (probability, mean_intensity, uncertainty, s')
    ∧ get2 mean_intensity 0 0 = Some (Val q) ∧ q == 2 ∧ ¬ q <= 1.
Proof.
  vm_compute. do 5 eexists. split; [reflexivity|].
  split; [reflexivity|]. split; [reflexivity|].
  intros Hle. exact (Hle eq_refl).
Qed.

(** ** The burned mask under a hot potential *)

Lemma active_propagate_spread_hot g pot thr nb :
  same_shape g pot → hot pot thr →
  amap (λ v, gt v 0) (propagate_spread g pot thr nb)
  = spread_mask nb (amap (λ v, gt v 0) g).
Proof.
  intros Hs Hhot. unfold spread_mask. apply grid_ext.
  - eapply same_shape_trans; [apply same_shape_amap|].
    eapply same_shape_trans; [by apply same_shape_propagate_spread|].
    apply same_shape_sym, shaped_amap2.
    + apply same_shape_amap.
    + apply shaped_binary_dilation, same_shape_amap.
  - intros r c x y.
    rewrite get2_amap, get2_propagate_spread, get2_amap2, get2_binary_dilation,
      !get2_amap.
    destruct (get2 g r c) as [v|] eqn:Hv; simpl; [|done].
    destruct (get2 pot r c) as [pv|] eqn:Hpv; simpl; [|done].
    intros [= <-] [= <-].
    destruct (Hhot r c pv Hpv) as [Hthr Hpos].
    apply gt_spec in Hthr, Hpos. unfold can_spread_at. rewrite Hthr. simpl.
    destruct (gt v 0) eqn:Hact; simpl.
    + by rewrite andb_false_r, Hact.
    + rewrite andb_true_r. destruct (dilated_at _ _ r c); [done|]. by rewrite Hact.
Qed.

Lemma active_simulate_hot pot cfg g0 t :
  same_shape g0 pot → hot pot (config_get cfg "spread_threshold" (3 # 10)) →
  amap (λ v, gt v 0) (simulate pot cfg g0 t).1
  = Nat.iter t (spread_mask (config_get cfg "neighbors" 8))
      (amap (λ v, gt v 0) g0).
Proof.
  intros Hs Hhot. induction t as [|t IH]; [done|].
  rewrite simulate_S. unfold timestep. simpl.
  rewrite active_propagate_spread_hot; [by rewrite IH | | done].
  by apply same_shape_simulate.
Qed.

Lemma active_grid_eq (a b : grid) :
  grid_eq a b → amap (λ v, gt v 0) a = amap (λ v, gt v 0) b.
Proof.
  intros Hab. unfold amap. apply list_eq_Forall2, Forall2_fmap.
  eapply Forall2_impl; [exact Hab|]. intros ra rb Hr.
  apply list_eq_Forall2, Forall2_fmap.
  eapply Forall2_impl; [exact Hr|]. intros x y Hxy. simpl.
  unfold gt. by rewrite Hxy.
Qed.

(** ** The 10x10 scenario *)

Lemma clip_ge a x lo hi : a <= x → a <= hi → a <= clip x lo hi.
Proof.
  intros Hx Hhi. unfold clip. apply Q.min_glb; [|done].
  eapply Qle_trans; [exact Hx | apply Q.le_max_l].
Qed.

Lemma clip_le b x lo hi : x <= b → lo <= b → clip x lo hi <= b.
Proof.
  intros Hx Hlo. unfold clip.
  eapply Qle_trans; [apply Q.le_min_l | by apply Q.max_lub].
Qed.

Lemma get2_full H W v r c x : get2 (full H W v) r c = Some x → x = v.
Proof.
  unfold get2, full.
  destruct (replicate H (replicate W v) !! r) as [row|] eqn:Hr; simpl; [|done].
  apply lookup_replicate in Hr as [-> _].
  by intros [-> _]%lookup_replicate.
Qed.

Lemma has_shape_full H W v : has_shape H W (full H W v).
Proof.
  split; [apply length_replicate|].
  apply Forall_replicate, length_replicate.
Qed.

Lemma Forall2_get2_r {A B} (R : A → B → Prop)
    (a : list (list A)) (b : list (list B)) r c y :
  Forall2 (Forall2 R) a b → get2 b r c = Some y →
  ∃ x, get2 a r c = Some x ∧ R x y.
Proof.
  intros Hab. unfold get2.
  destruct (b !! r) as [rb|] eqn:Hb; simpl; [|done].
  destruct (Forall2_lookup_r _ _ _ _ _ Hab Hb) as (ra & -> & Hr). simpl.
  intros Hy. exact (Forall2_lookup_r _ _ _ _ _ Hr Hy).
Qed.

Lemma Forall2_same_shape {A B} (R : A → B → Prop)
    (a : list (list A)) (b : list (list B)) :
  Forall2 (Forall2 R) a b → same_shape a b.
Proof.
  intros Hab. eapply Forall2_impl; [exact Hab|].
  intros ra rb. apply Forall2_length.
Qed.

Lemma shape_has_shape {A} H W (a : list (list A)) :
  has_shape (S H) W a → shape a = (S H, W).
Proof.
  intros [Hl Hf]. unfold shape. destruct a as [|row a']; [done|].
  simpl in *. f_equal; [done|]. by inv Hf.
Qed.

Lemma wind_factor_bounds wind_u wind_v r c w :
  get2 (wind_factor wind_u wind_v) r c = Some w → 0 <= w <= 1.
Proof.
  unfold wind_factor. rewrite get2_amap.
  intros (x & _ & ->)%fmap_Some. by apply clip_bounds.
Qed.

Lemma scenario_potential_hot {rng_state}
    (random_sample : rng_state → Q * rng_state) (wind_u' wind_v' rh' : grid) :
  (∀ s, 0 <= (random_sample s).1 < 1) →
  Forall2 (Forall2 (λ h h', ∃ y,
             perturbed_by random_sample (1 # 10) h y ∧ h' = clip y 0 100))
    (full 10 10 40) rh' →
  hot (compute_spread_potential wind_u' wind_v' (full 10 10 10) rh'
         scenario_config)
      (1 # 10).
Proof.
  intros Hrng Hrh r c p. unfold compute_spread_potential.
  rewrite get2_amap, !get2_amap2, !get2_amap.
  destruct (get2 (wind_factor wind_u' wind_v') r c) as [w|] eqn:Hw;
    simpl; [|done].
  destruct (get2 (full 10 10 10) r c) as [sl|] eqn:Hsl; simpl; [|done].
  destruct (get2 rh' r c) as [h'|] eqn:Hh; simpl; [|done].
  intros [= <-].
  apply get2_full in Hsl as ->.
  destruct (Forall2_get2_r _ _ _ _ _ _ Hrh Hh) as (h & Hh0 & y & [s0 Hy] & ->).
  apply get2_full in Hh0 as ->.
  destruct (Hrng s0) as [Hu0 Hu1].
  destruct (wind_factor_bounds _ _ _ _ _ Hw) as [Hw0 _].
  replace (config_get scenario_config "slope_max_deg" 45) with 45
    by (vm_compute; reflexivity).
  replace (config_get scenario_config "wind_weight" (5 # 10)) with (5 # 10)
    by (vm_compute; reflexivity).
  replace (config_get scenario_config "slope_weight" (3 # 10)) with (3 # 10)
    by (vm_compute; reflexivity).
  replace (config_get scenario_config "dryness_weight" (2 # 10)) with (2 # 10)
    by (vm_compute; reflexivity).
  set (u := (random_sample s0).1) in *.
  assert (clip y 0 100 <= 44) as Hh44.
  { apply clip_le; [|lra]. rewrite Hy. lra. }
  assert (56 # 100 <= clip ((100 - clip y 0 100) / 100) 0 1) as Hdry.
  { apply clip_ge; [|lra]. apply Qle_shift_div_l; lra. }
  assert (2 # 9 <= clip (10 / 45) 0 1) as Hslope.
  { apply clip_ge; [|lra]. apply Qle_shift_div_l; lra. }
  assert (17 # 100 <=
          clip ((5 # 10) * w + (3 # 10) * clip (10 / 45) 0 1
                + (2 # 10) * clip ((100 - clip y 0 100) / 100) 0 1) 0 1)
    as Hp.
  { apply clip_ge; lra. }
  split; lra.
Qed.

Lemma reduce_axis0_single f H W (m : grid) :
  has_shape H W m → reduce_axis0 f (H, W) [m] = amap (λ v, f [v]) m.
Proof.
  intros Hm. apply grid_ext.
  - eapply has_shape_same_shape; [apply (has_shape_reduce_axis0 f (H, W))|].
    eapply same_shape_has_shape; [apply same_shape_amap | done].
  - intros r c x y ->%get2_reduce_axis0. rewrite get2_amap. simpl.
    destruct (get2 m r c); simpl; congruence.
Qed.

Lemma sqrt_zero z : z == 0 → sqrt z == 0.
Proof.
  unfold sqrt, Qeq. simpl. intros Hz.
  replace (Qnum z) with 0%Z by lia. done.
Qed.

Lemma np_std_single v : ∃ q, np_std [v] = Val q ∧ q == 0.
Proof.
  exists (sqrt ((Qabs (v - (v + 0) / 1) * Qabs (v - (v + 0) / 1) + 0) / 1)).
  split; [reflexivity|].
  apply sqrt_zero.
  assert (v - (v + 0) / 1 == 0) as Hm by field.
  rewrite Hm. reflexivity.
Qed.

Lemma amap_amap {A B C} (f : B → C) (g : A → B) (a : list (list A)) :
  amap f (amap g a) = amap (λ x, f (g x)) a.
Proof.
  unfold amap. rewrite map_map. apply map_ext. intros row. apply map_map.
Qed.

Section Scenario.
Context {rng_state : Type}.
Context (init_genrand : Z → rng_state).
Context (random_sample : rng_state → Q * rng_state).
Context (rowcol : Affine → Q → Q → option (Z * Z)).

(** The burned cells of the single member of the scenario. *)
Lemma scenario_member_mask transform h (row col : Z)
    (wind_u' wind_v' rh' : grid) :
  (∀ s, 0 <= (random_sample s).1 < 1) →
  rowcol transform (longitude h) (latitude h) = Some (row, col) →
  (4 ≤ row ≤ 5)%Z → (4 ≤ col ≤ 5)%Z →
  same_shape wind_u' (full 10 10 5) → same_shape wind_v' (full 10 10 0) →
  Forall2 (Forall2 (λ h h', ∃ y,
             perturbed_by random_sample (1 # 10) h y ∧ h' = clip y 0 100))
    (full 10 10 40) rh' →
  let max_grid :=
    (run_baseline_spread rowcol [h] wind_u' wind_v' (full 10 10 10) rh'
       transform scenario_config 3).2 in
  has_shape 10 10 max_grid
  ∧ amap (λ b : bool, np_mean [if b then 1 else 0])
      (amap (λ v, gt v 0) max_grid)
    = block_7x7 (Z.to_nat row) (Z.to_nat col).
Proof.
  intros Hrng Hrc Hrow Hcol Hu Hv Hrh max_grid.
  assert (has_shape 10 10 wind_u') as Hu10.
  { eapply same_shape_has_shape; [exact Hu | apply has_shape_full]. }
  assert (same_shape wind_v' wind_u') as Hvu.
  { eapply same_shape_trans; [exact Hv|].
    eapply same_shape_trans; [|apply same_shape_sym, Hu].
    eapply has_shape_same_shape; apply has_shape_full. }
  assert (same_shape (full 10 10 10) wind_u') as Hsu.
  { eapply has_shape_same_shape; [apply has_shape_full | done]. }
  assert (same_shape rh' wind_u') as Hru.
  { eapply same_shape_trans; [apply same_shape_sym, (Forall2_same_shape _ _ _ Hrh)|].
    eapply has_shape_same_shape; [apply has_shape_full | done]. }
  pose proof (run_baseline_spread_grid_eq rowcol [h] wind_u' wind_v'
                (full 10 10 10) rh' transform scenario_config 3 Hvu Hsu Hru
                (ex_intro _ 10%nat (ex_intro _ 10%nat Hu10))) as Heq.
  apply active_grid_eq in Heq. fold max_grid in Heq.
  revert Heq. unfold max_grid. rewrite run_baseline_spread_simulate.
  rewrite (shape_has_shape _ _ _ Hu10).
  set (pot := compute_spread_potential _ _ _ _ _).
  set (g0 := initialize_grid _ _ _ _ _).
  assert (same_shape pot wind_u') as Hpot
    by by apply same_shape_compute_spread_potential.
  assert (same_shape g0 pot) as Hg0.
  { eapply same_shape_trans; [|apply same_shape_sym, Hpot].
    pose proof (same_shape_initialize_grid rowcol [h] transform
      (config_get scenario_config "seed_strength" 1) 10 10 wind_u' Hu10) as Hi.
    by rewrite (shape_has_shape _ _ _ Hu10) in Hi. }
  intros Heq. split.
  { eapply same_shape_has_shape; [|exact Hu10].
    eapply same_shape_trans; [|exact Hpot].
    by apply same_shape_simulate. }
  rewrite <- Heq, active_simulate_hot; [|done|].
  2:{ replace (config_get scenario_config "spread_threshold" (3 # 10))
        with (1 # 10) by (vm_compute; reflexivity).
      by eapply scenario_potential_hot. }
  unfold g0, initialize_grid. cbn [fold_left]. unfold seed_hotspot.
  rewrite Hrc.
  assert (row = 4 ∨ row = 5)%Z as [-> | ->] by lia;
    (assert (col = 4 ∨ col = 5)%Z as [-> | ->] by lia);
    vm_compute; reflexivity.
Qed.

(** C2. The 10x10 scenario: constant fields [wind_u = 5], [wind_v = 0],
    [temp = 295], [rh = 40], [slope = 10], one detection that [rowcol] maps
    to a centre cell (row and column 4 or 5), [n_timesteps = 3],
    [neighbors = 8], [spread_threshold = 0.1], [n_ensemble = 1],
    [base_seed = 0].  Whatever the generator draws in [0, 1),
    [run_monte_carlo_ensemble] returns a probability grid that is 1.0 on the
    7x7 block centred on the seed and 0.0 elsewhere, and an uncertainty grid
    that is 0.0 everywhere. *)
Theorem concrete_scenario transform h (row col : Z) (s : rng_state) :
  (∀ s0, 0 <= (random_sample s0).1 < 1) →
  rowcol transform (longitude h) (latitude h) = Some (row, col) →
  (4 ≤ row ≤ 5)%Z → (4 ≤ col ≤ 5)%Z →
  ∃ probability mean_intensity uncertainty s',
    run_monte_carlo_ensemble init_genrand random_sample rowcol [h]
      (full 10 10 5) (full 10 10 0) (full 10 10 295) (full 10 10 10)
      (full 10 10 40) transform scenario_config ∅ 1 0 3 s
    = Ok (probability, mean_intensity, uncertainty, s')
    ∧ probability = block_7x7 (Z.to_nat row) (Z.to_nat col)
    ∧ has_shape 10 10 uncertainty
    ∧ cells_in (λ x, ∃ q, x = Val q ∧ q == 0) uncertainty.
Proof.
  intros Hrng Hrc Hrow Hcol.
  destruct (ensemble_member_spec init_genrand random_sample rowcol [h]
              (full 10 10 5) (full 10 10 0) (full 10 10 295) (full 10 10 10)
              (full 10 10 40) transform scenario_config ∅ 0 3
              (replicate (Z.to_nat 1) (zeros 10 10)) 0 s)
    as (wu & wv & rh' & s1 & Hm & Hu & Hv & Hh); [simpl; lia|].
  change (config_get ∅ "rh_perturbation" (1 # 10)) with (1 # 10) in Hh.
  destruct (scenario_member_mask transform h row col wu wv rh'
              Hrng Hrc Hrow Hcol)
    as [Hshape Hmask]; [| |done|].
  { apply same_shape_sym, (Forall2_same_shape _ _ _ Hu). }
  { apply same_shape_sym, (Forall2_same_shape _ _ _ Hv). }
  cbv zeta in Hshape, Hmask.
  set (max_grid := (run_baseline_spread rowcol [h] wu wv (full 10 10 10) rh'
                      transform scenario_config 3).2) in *.
  unfold run_monte_carlo_ensemble.
  change (1 <? 0)%Z with false. cbv iota.
  change (shape (full 10 10 5)) with (10%nat, 10%nat).
  change (range 1) with [0%nat]. cbn [foldM fst snd].
  unfold bind at 1. unfold ret at 1.
  rewrite (bind_ok _ _ _ _ _ (bind_ok _ _ _ _ _ Hm)).
  unfold ret at 1.
  rewrite (bind_ok _ _ _ _ _
             (np_max_ok 10 10 _ s1
                (has_shape_reduce_axis0 np_mean (10%nat, 10%nat) _)
                ltac:(lia))).
  unfold ret.
  change (<[0%nat := max_grid]> (replicate (Z.to_nat 1) (zeros 10 10)))
    with [max_grid].
  do 4 eexists. split; [done|].
  split; [|split].
  - change (amap (λ v : Q, if gt v 0 then 1 else 0) <$> [max_grid])
      with [amap (λ v : Q, if gt v 0 then 1 else 0) max_grid].
    rewrite reduce_axis0_single.
    + rewrite amap_amap. rewrite amap_amap in Hmask. exact Hmask.
    + eapply same_shape_has_shape; [apply same_shape_amap | done].
  - apply (has_shape_reduce_axis0 np_std (10%nat, 10%nat)).
  - rewrite reduce_axis0_single by done.
    intros r c x. rewrite get2_amap. intros (v & _ & ->)%fmap_Some.
    apply np_std_single.
Qed.

End Scenario.

(** ** Array objects: what a call allocates and what it writes *)

Section HeapOps.
Implicit Types σ : gmap positive Heap.ndarray.

Lemma heap_bind_some {A B} (m : Heap.heapM A) (k : A → Heap.heapM B) σ x σ' :
  m σ = Some (x, σ') → Heap.bind m k σ = k x σ'.
Proof. unfold Heap.bind. by intros ->. Qed.

Lemma read_float_some l g σ :
  σ !! l = Some (Heap.FloatArray g) → Heap.read_float l σ = Some (g, σ).
Proof. unfold Heap.read_float. by intros ->. Qed.

Lemma read_bool_some l m σ :
  σ !! l = Some (Heap.BoolArray m) → Heap.read_bool l σ = Some (m, σ).
Proof. unfold Heap.read_bool. by intros ->. Qed.

Lemma alloc_allocates a σ : allocates σ (Heap.alloc a σ) a.
Proof.
  unfold allocates, Heap.alloc.
  assert (σ !! fresh (dom σ) = None) as Hfresh.
  { apply not_elem_of_dom, is_fresh. }
  do 2 eexists. split; [done|]. split; [by apply insert_subseteq|].
  split; [done|]. apply lookup_insert_eq.
Qed.

Lemma np_gt_allocates a y g σ :
  σ !! a = Some (Heap.FloatArray g) →
  allocates σ (Heap.np_gt a y σ) (Heap.BoolArray (amap (λ v, gt v y) g)).
Proof.
  intros Ha. unfold Heap.np_gt.
  rewrite (heap_bind_some _ _ _ _ _ (read_float_some _ _ _ Ha)).
  apply alloc_allocates.
Qed.

Lemma np_binary_dilation_allocates a b m s σ :
  σ !! a = Some (Heap.BoolArray m) → σ !! b = Some (Heap.BoolArray s) →
  allocates σ (Heap.np_binary_dilation a b σ)
    (Heap.BoolArray (binary_dilation m s)).
Proof.
  intros Ha Hb. unfold Heap.np_binary_dilation.
  rewrite (heap_bind_some _ _ _ _ _ (read_bool_some _ _ _ Ha)).
  rewrite (heap_bind_some _ _ _ _ _ (read_bool_some _ _ _ Hb)).
  apply alloc_allocates.
Qed.

Lemma np_and_allocates a b ma mb σ :
  σ !! a = Some (Heap.BoolArray ma) → σ !! b = Some (Heap.BoolArray mb) →
  allocates σ (Heap.np_and a b σ) (Heap.BoolArray (amap2 andb ma mb)).
Proof.
  intros Ha Hb. unfold Heap.np_and.
  rewrite (heap_bind_some _ _ _ _ _ (read_bool_some _ _ _ Ha)).
  rewrite (heap_bind_some _ _ _ _ _ (read_bool_some _ _ _ Hb)).
  apply alloc_allocates.
Qed.

Lemma np_not_allocates a ma σ :
  σ !! a = Some (Heap.BoolArray ma) →
  allocates σ (Heap.np_not a σ) (Heap.BoolArray (amap negb ma)).
Proof.
  intros Ha. unfold Heap.np_not.
  rewrite (heap_bind_some _ _ _ _ _ (read_bool_some _ _ _ Ha)).
  apply alloc_allocates.
Qed.

Lemma np_copy_allocates a g σ :
  σ !! a = Some (Heap.FloatArray g) →
  allocates σ (Heap.np_copy a σ) (Heap.FloatArray (copy g)).
Proof.
  intros Ha. unfold Heap.np_copy.
  rewrite (heap_bind_some _ _ _ _ _ (read_float_some _ _ _ Ha)).
  apply alloc_allocates.
Qed.

Lemma np_maximum_allocates a b ga gb σ :
  σ !! a = Some (Heap.FloatArray ga) → σ !! b = Some (Heap.FloatArray gb) →
  allocates σ (Heap.np_maximum a b σ) (Heap.FloatArray (amap2 Qmax ga gb)).
Proof.
  intros Ha Hb. unfold Heap.np_maximum.
  rewrite (heap_bind_some _ _ _ _ _ (read_float_some _ _ _ Ha)).
  rewrite (heap_bind_some _ _ _ _ _ (read_float_some _ _ _ Hb)).
  apply alloc_allocates.
Qed.

Lemma setitem_mask_some a m b ga mm gb σ :
  σ !! a = Some (Heap.FloatArray ga) → σ !! m = Some (Heap.BoolArray mm) →
  σ !! b = Some (Heap.FloatArray gb) →
  Heap.setitem_mask a m b σ
  = Some (tt, <[a := Heap.FloatArray (mask_assign ga mm gb)]> σ).
Proof.
  intros Ha Hm Hb. unfold Heap.setitem_mask.
  rewrite (heap_bind_some _ _ _ _ _ (read_float_some _ _ _ Ha)).
  rewrite (heap_bind_some _ _ _ _ _ (read_bool_some _ _ _ Hm)).
  rewrite (heap_bind_some _ _ _ _ _ (read_float_some _ _ _ Hb)).
  done.
Qed.

Lemma setitem_some a row col v ga σ :
  σ !! a = Some (Heap.FloatArray ga) →
  Heap.setitem a row col v σ
  = Some (tt, <[a := Heap.FloatArray (set2 ga row col v)]> σ).
Proof.
  intros Ha. unfold Heap.setitem.
  by rewrite (heap_bind_some _ _ _ _ _ (read_float_some _ _ _ Ha)).
Qed.

(** [propagate_spread] on array objects: the result is a new object that
    holds the values of [propagate_spread], and no object of the heap of the
    call is changed, also when the two arguments are one object. *)
Lemma propagate_spread_allocates cur pot g p thr nb σ :
  σ !! cur = Some (Heap.FloatArray g) →
  σ !! pot = Some (Heap.FloatArray p) →
  allocates σ (Heap.propagate_spread cur pot thr nb σ)
    (Heap.FloatArray (propagate_spread g p thr nb)).
Proof.
  intros Hcur Hpot. unfold Heap.propagate_spread.
  destruct (np_gt_allocates cur 0 g σ Hcur)
    as (active & σ1 & E1 & S1 & F1 & L1).
  rewrite (heap_bind_some _ _ _ _ _ E1).
  destruct (alloc_allocates
              (Heap.BoolArray (if Qeq_bool nb 4 then structure4
                               else structure8)) σ1)
    as (structure & σ2 & E2 & S2 & F2 & L2).
  rewrite (heap_bind_some _ _ _ _ _ E2).
  destruct (np_binary_dilation_allocates active structure _ _ σ2
              (lookup_weaken _ _ _ _ L1 S2) L2)
    as (nbr & σ3 & E3 & S3 & F3 & L3).
  rewrite (heap_bind_some _ _ _ _ _ E3).
  assert (σ ⊆ σ3) as S03 by (by repeat (etrans; [eassumption|])).
  destruct (np_gt_allocates pot thr p σ3 (lookup_weaken _ _ _ _ Hpot S03))
    as (above & σ4 & E4 & S4 & F4 & L4).
  rewrite (heap_bind_some _ _ _ _ _ E4).
  destruct (np_and_allocates above nbr _ _ σ4 L4
              (lookup_weaken _ _ _ _ L3 S4))
    as (near & σ5 & E5 & S5 & F5 & L5).
  rewrite (heap_bind_some _ _ _ _ _ E5).
  assert (σ1 ⊆ σ5) as S15 by (by repeat (etrans; [eassumption|])).
  destruct (np_not_allocates active _ σ5 (lookup_weaken _ _ _ _ L1 S15))
    as (inactive & σ6 & E6 & S6 & F6 & L6).
  rewrite (heap_bind_some _ _ _ _ _ E6).
  destruct (np_and_allocates near inactive _ _ σ6
              (lookup_weaken _ _ _ _ L5 S6) L6)
    as (can_spread & σ7 & E7 & S7 & F7 & L7).
  rewrite (heap_bind_some _ _ _ _ _ E7).
  assert (σ ⊆ σ7) as S07 by (by repeat (etrans; [eassumption|])).
  destruct (np_copy_allocates cur g σ7 (lookup_weaken _ _ _ _ Hcur S07))
    as (new_grid & σ8 & E8 & S8 & F8 & L8).
  rewrite (heap_bind_some _ _ _ _ _ E8).
  assert (σ ⊆ σ8) as S08 by (by etrans).
  rewrite (heap_bind_some _ _ _ _ _
             (setitem_mask_some new_grid can_spread pot _ _ _ σ8 L8
                (lookup_weaken _ _ _ _ L7 S8)
                (lookup_weaken _ _ _ _ Hpot S08))).
  assert (σ !! new_grid = None) as Fnew.
  { destruct (σ !! new_grid) as [x|] eqn:Hx; [|done].
    by rewrite (lookup_weaken _ _ _ _ Hx S07) in F8. }
  exists new_grid, (<[new_grid := Heap.FloatArray
                        (mask_assign (copy g)
                           (amap2 andb
                              (amap2 andb (amap (λ v, gt v thr) p)
                                 (binary_dilation (amap (λ v, gt v 0) g)
                                    (if Qeq_bool nb 4 then structure4
                                     else structure8)))
                              (amap negb (amap (λ v, gt v 0) g)))
                           p)]> σ8).
  split; [done|]. split; [by apply insert_subseteq_r|].
  split; [done|]. by rewrite lookup_insert_eq.
Qed.

Lemma seed_loop_writes rowcol grid_shape transform seed_strength l
    (hotspots_df : list hotspot) g σ :
  σ !! l = Some (Heap.FloatArray g) →
  Heap.for_each
    (λ _ hotspot,
       Heap.seed_hotspot rowcol grid_shape transform seed_strength l hotspot)
    hotspots_df tt σ
  = Some (tt, <[l := Heap.FloatArray
                  (fold_left
                     (seed_hotspot rowcol grid_shape transform seed_strength)
                     hotspots_df g)]> σ).
Proof.
  revert g σ. induction hotspots_df as [|h hs IH]; intros g σ Hl; simpl.
  - unfold Heap.ret. by rewrite insert_id.
  - assert (Heap.seed_hotspot rowcol grid_shape transform seed_strength l h σ
            = Some (tt, <[l := Heap.FloatArray
                            (seed_hotspot rowcol grid_shape transform
                               seed_strength g h)]> σ)) as Hstep.
    { unfold Heap.seed_hotspot, seed_hotspot.
      destruct (rowcol _ _ _) as [[row col]|].
      - destruct (_ && _)%bool.
        + by apply setitem_some.
        + unfold Heap.ret. by rewrite insert_id.
      - unfold Heap.ret. by rewrite insert_id. }
    rewrite (heap_bind_some _ _ _ _ _ Hstep).
    rewrite (IH _ _ (lookup_insert_eq _ _ _)).
    by rewrite insert_insert_eq.
Qed.

Lemma initialize_grid_allocates rowcol hotspots_df grid_shape transform
    seed_strength σ :
  allocates σ
    (Heap.initialize_grid rowcol hotspots_df grid_shape transform
       seed_strength σ)
    (Heap.FloatArray
       (initialize_grid rowcol hotspots_df grid_shape transform
          seed_strength)).
Proof.
  unfold Heap.initialize_grid.
  destruct (alloc_allocates
              (Heap.FloatArray (zeros grid_shape.1 grid_shape.2)) σ)
    as (l & σ1 & E1 & S1 & F1 & L1).
  rewrite (heap_bind_some _ _ _ _ _ E1).
  rewrite (heap_bind_some _ _ _ _ _
             (seed_loop_writes rowcol grid_shape transform seed_strength l
                hotspots_df _ σ1 L1)).
  unfold Heap.ret, allocates. do 2 eexists. split; [done|].
  split; [by apply insert_subseteq_r|]. split; [done|].
  by rewrite lookup_insert_eq.
Qed.

Lemma compute_spread_potential_allocates wind_u wind_v slope rh
    wu wv sl h cfg σ :
  σ !! wind_u = Some (Heap.FloatArray wu) →
  σ !! wind_v = Some (Heap.FloatArray wv) →
  σ !! slope = Some (Heap.FloatArray sl) →
  σ !! rh = Some (Heap.FloatArray h) →
  allocates σ (Heap.compute_spread_potential wind_u wind_v slope rh cfg σ)
    (Heap.FloatArray (compute_spread_potential wu wv sl h cfg)).
Proof.
  intros Hu Hv Hs Hh. unfold Heap.compute_spread_potential.
  rewrite (heap_bind_some _ _ _ _ _ (read_float_some _ _ _ Hu)).
  rewrite (heap_bind_some _ _ _ _ _ (read_float_some _ _ _ Hv)).
  rewrite (heap_bind_some _ _ _ _ _ (read_float_some _ _ _ Hs)).
  rewrite (heap_bind_some _ _ _ _ _ (read_float_some _ _ _ Hh)).
  apply alloc_allocates.
Qed.

Lemma time_loop_allocates pot p cfg (ts : list nat) cur mx c m σ :
  σ !! pot = Some (Heap.FloatArray p) →
  σ !! cur = Some (Heap.FloatArray c) →
  σ !! mx = Some (Heap.FloatArray m) →
  ∃ cur' mx' σ',
    Heap.for_each (Heap.timestep pot cfg) ts (cur, mx) σ
    = Some ((cur', mx'), σ')
    ∧ σ ⊆ σ'
    ∧ σ' !! cur'
      = Some (Heap.FloatArray (fold_left (timestep p cfg) ts (c, m)).1)
    ∧ σ' !! mx'
      = Some (Heap.FloatArray (fold_left (timestep p cfg) ts (c, m)).2).
Proof.
  revert cur mx c m σ.
  induction ts as [|t ts IH]; intros cur mx c m σ Hpot Hcur Hmx; simpl.
  - by exists cur, mx, σ.
  - unfold Heap.timestep at 1. simpl.
    destruct (propagate_spread_allocates cur pot c p
                (config_get cfg "spread_threshold" (3 # 10))
                (config_get cfg "neighbors" 8) σ Hcur Hpot)
      as (cur1 & σ1 & E1 & S1 & F1 & L1).
    destruct (np_maximum_allocates mx cur1 _ _ σ1
                (lookup_weaken _ _ _ _ Hmx S1) L1)
      as (mx1 & σ2 & E2 & S2 & F2 & L2).
    unfold Heap.bind at 1.
    rewrite (heap_bind_some _ _ _ _ _ E1), (heap_bind_some _ _ _ _ _ E2).
    unfold Heap.ret at 1. cbv beta iota.
    destruct (IH cur1 mx1 _ _ σ2
                (lookup_weaken _ _ _ _ Hpot (transitivity S1 S2))
                (lookup_weaken _ _ _ _ L1 S2) L2)
      as (cur' & mx' & σ' & E & S & Lc & Lm).
    exists cur', mx', σ'. split; [done|].
    split; [by repeat (etrans; [eassumption|])|]. done.
Qed.

Lemma run_baseline_spread_allocates rowcol hotspots_df wind_u wind_v slope rh
    wu wv sl h transform cfg n_timesteps σ :
  σ !! wind_u = Some (Heap.FloatArray wu) →
  σ !! wind_v = Some (Heap.FloatArray wv) →
  σ !! slope = Some (Heap.FloatArray sl) →
  σ !! rh = Some (Heap.FloatArray h) →
  ∃ cur mx σ',
    Heap.run_baseline_spread rowcol hotspots_df wind_u wind_v slope rh
      transform cfg n_timesteps σ
    = Some ((cur, mx), σ')
    ∧ σ ⊆ σ'
    ∧ σ' !! cur
      = Some (Heap.FloatArray
                (run_baseline_spread rowcol hotspots_df wu wv sl h transform
                   cfg n_timesteps).1)
    ∧ σ' !! mx
      = Some (Heap.FloatArray
                (run_baseline_spread rowcol hotspots_df wu wv sl h transform
                   cfg n_timesteps).2).
Proof.
  intros Hu Hv Hs Hh. unfold Heap.run_baseline_spread.
  rewrite (heap_bind_some _ _ _ _ _ (read_float_some _ _ _ Hu)).
  destruct (initialize_grid_allocates rowcol hotspots_df (shape wu) transform
              (config_get cfg "seed_strength" 1) σ)
    as (cur & σ1 & E1 & S1 & F1 & L1).
  rewrite (heap_bind_some _ _ _ _ _ E1).
  destruct (np_copy_allocates cur _ σ1 L1) as (mx & σ2 & E2 & S2 & F2 & L2).
  rewrite (heap_bind_some _ _ _ _ _ E2).
  assert (σ ⊆ σ2) as S02 by (by etrans).
  destruct (compute_spread_potential_allocates wind_u wind_v slope rh
              wu wv sl h cfg σ2
              (lookup_weaken _ _ _ _ Hu S02) (lookup_weaken _ _ _ _ Hv S02)
              (lookup_weaken _ _ _ _ Hs S02) (lookup_weaken _ _ _ _ Hh S02))
    as (pot & σ3 & E3 & S3 & F3 & L3).
  rewrite (heap_bind_some _ _ _ _ _ E3).
  destruct (time_loop_allocates pot _ cfg (range n_timesteps) cur mx _ _ σ3
              L3 (lookup_weaken _ _ _ _ L1 (transitivity S2 S3))
              (lookup_weaken _ _ _ _ L2 S3))
    as (cur' & mx' & σ' & E & S & Lc & Lm).
  exists cur', mx', σ'. split; [done|].
  split; [by repeat (etrans; [eassumption|])|]. done.
Qed.

(** C10. [propagate_spread] never mutates its arguments: after a call the
    objects [current_grid] and [spread_potential], like every object of the
    heap of the call, hold the values they held before, and the returned
    grid is a new object, holding the values of [propagate_spread].
    Consequently [run_baseline_spread] leaves the objects [wind_u],
    [wind_v], [slope] and [rh], like every object of the heap of the call,
    as they were, and returns two objects holding its two grids. *)
Theorem propagate_spread_frame :
  (∀ σ cur pot g p thr nb,
     σ !! cur = Some (Heap.FloatArray g) →
     σ !! pot = Some (Heap.FloatArray p) →
     ∃ new σ',
       Heap.propagate_spread cur pot thr nb σ = Some (new, σ')
       ∧ σ ⊆ σ'
       ∧ σ' !! cur = Some (Heap.FloatArray g)
       ∧ σ' !! pot = Some (Heap.FloatArray p)
       ∧ σ !! new = None
       ∧ σ' !! new = Some (Heap.FloatArray (propagate_spread g p thr nb)))
  ∧ (∀ rowcol σ hotspots_df wind_u wind_v slope rh wu wv sl h transform cfg
       n_timesteps,
       σ !! wind_u = Some (Heap.FloatArray wu) →
       σ !! wind_v = Some (Heap.FloatArray wv) →
       σ !! slope = Some (Heap.FloatArray sl) →
       σ !! rh = Some (Heap.FloatArray h) →
       ∃ cur mx σ',
         Heap.run_baseline_spread rowcol hotspots_df wind_u wind_v slope rh
           transform cfg n_timesteps σ
         = Some ((cur, mx), σ')
         ∧ σ ⊆ σ'
         ∧ σ' !! wind_u = Some (Heap.FloatArray wu)
         ∧ σ' !! wind_v = Some (Heap.FloatArray wv)
         ∧ σ' !! slope = Some (Heap.FloatArray sl)
         ∧ σ' !! rh = Some (Heap.FloatArray h)
         ∧ σ' !! cur
           = Some (Heap.FloatArray
                     (run_baseline_spread rowcol hotspots_df wu wv sl h
                        transform cfg n_timesteps).1)
         ∧ σ' !! mx
           = Some (Heap.FloatArray
                     (run_baseline_spread rowcol hotspots_df wu wv sl h
                        transform cfg n_timesteps).2)).
Proof.
  split.
  - intros σ cur pot g p thr nb Hcur Hpot.
    destruct (propagate_spread_allocates cur pot g p thr nb σ Hcur Hpot)
      as (new & σ' & E & S & F & L).
    exists new, σ'. split; [done|]. split; [done|].
    split; [by eapply lookup_weaken|]. split; [by eapply lookup_weaken|].
    done.
  - intros rowcol σ hotspots_df wind_u wind_v slope rh wu wv sl h transform
      cfg n_timesteps Hu Hv Hs Hh.
    destruct (run_baseline_spread_allocates rowcol hotspots_df wind_u wind_v
                slope rh wu wv sl h transform cfg n_timesteps σ Hu Hv Hs Hh)
      as (cur & mx & σ' & E & S & Lc & Lm).
    exists cur, mx, σ'. split; [done|]. split; [done|].
    repeat (split; [by eapply lookup_weaken|]). done.
Qed.

End HeapOps.

(** ** The properties at concrete inputs *)

Lemma lcg_sample_range s : 0 <= (lcg_sample s).1 < 1.
Proof.
  unfold lcg_sample, Qle, Qlt. simpl.
  pose proof (Z.mod_pos_bound (1103515245 * s + 12345) (2 ^ 31)). lia.
Qed.

Lemma fire_state_corner_seed : fire_state corner_seed.
Proof.
  intros r c v.
  destruct r as [|[|[|r]]]; destruct c as [|[|[|c]]]; try done;
    intros [= <-]; split; discriminate.
Qed.

Lemma concrete_scenario_witness :
  (∀ s0, 0 <= (lcg_sample s0).1 < 1)
  ∧ rowcol_affine unit_transform (longitude hotspot_55) (latitude hotspot_55)
    = Some (5, 5)%Z
  ∧ ∃ probability mean_intensity uncertainty s',
      run_monte_carlo_ensemble lcg_seed lcg_sample rowcol_affine [hotspot_55]
        (full 10 10 5) (full 10 10 0) (full 10 10 295) (full 10 10 10)
        (full 10 10 40) unit_transform scenario_config ∅ 1 0 3 7%Z
      = Ok (probability, mean_intensity, uncertainty, s')
      ∧ probability = block_7x7 5 5
      ∧ has_shape 10 10 uncertainty
      ∧ cells_in (λ x, ∃ q, x = Val q ∧ q == 0) uncertainty.
Proof.
  split; [exact lcg_sample_range|]. split; [reflexivity|].
  apply (concrete_scenario lcg_seed lcg_sample rowcol_affine unit_transform
           hotspot_55 5 5 7%Z lcg_sample_range eq_refl); lia.
Defined.

Lemma propagate_spread_monotonic_witness :
  same_shape corner_seed uniform_half
  ∧ fire_state corner_seed
  ∧ get2 (propagate_spread corner_seed uniform_half (3 # 10) 8) 0 0 = Some 1
  ∧ burned (simulate uniform_half ∅ corner_seed 2).1 1 1.
Proof.
  assert (same_shape corner_seed uniform_half) as Hs by (by repeat constructor).
  destruct (propagate_spread_monotonic corner_seed uniform_half (3 # 10) 8 Hs)
    as [Hcell Hsim].
  split; [exact Hs|]. split; [exact fire_state_corner_seed|]. split.
  - apply (Hcell fire_state_corner_seed 0%nat 0%nat 1); [reflexivity|].
    discriminate.
  - apply (Hsim ∅ 1%nat 1%nat 1%nat). exists (1 # 2).
    split; reflexivity.
Defined.

Lemma propagate_spread_converges_witness :
  has_shape 3 3 corner_seed ∧ has_shape 3 3 walled_half
  ∧ propagate_spread (iterate_spread walled_half (3 # 10) 8 (3 * 3) corner_seed)
      walled_half (3 # 10) 8
    = iterate_spread walled_half (3 # 10) 8 (3 * 3) corner_seed.
Proof.
  assert (has_shape 3 3 corner_seed) as Hg by (by repeat constructor).
  assert (has_shape 3 3 walled_half) as Hp by (by repeat constructor).
  split; [exact Hg|]. split; [exact Hp|].
  exact (proj1 (propagate_spread_converges 3 3 corner_seed walled_half
                  (3 # 10) 8 Hg Hp)).
Defined.

Lemma ensemble_outputs_bounded_witness :
  (0 < (shape uniform_half).1 * (shape uniform_half).2)%nat
  ∧ (1 ≤ 2)%Z ∧ (0 ≤ 42)%Z ∧ (42 + 2 ≤ 2 ^ 32)%Z
  ∧ 0 <= config_get ∅ "seed_strength" 1 <= 1
  ∧ ∃ probability mean_intensity uncertainty s',
      run_monte_carlo_ensemble lcg_seed lcg_sample rowcol_affine [hotspot_11]
        uniform_half corner_seed (full 3 3 295) (full 3 3 10) (full 3 3 40)
        unit_transform ∅ ∅ 2 42 24 7%Z
      = Ok (probability, mean_intensity, uncertainty, s')
      ∧ cells_in (val_in 0 1) probability
      ∧ cells_in (val_in 0 1) mean_intensity
      ∧ cells_in val_nonneg uncertainty.
Proof.
  assert (0 <= config_get ∅ "seed_strength" 1 <= 1) as Hs
    by (split; discriminate).
  assert (0 < (shape uniform_half).1 * (shape uniform_half).2)%nat as Hc
    by (simpl; lia).
  split; [exact Hc|].
  split; [lia|]. split; [lia|]. split; [lia|]. split; [exact Hs|].
  destruct (ensemble_outputs_bounded lcg_seed lcg_sample rowcol_affine
              [hotspot_11] uniform_half corner_seed (full 3 3 295) (full 3 3 10)
              (full 3 3 40) unit_transform ∅ ∅
              2 42 24 7%Z Hc ltac:(lia) ltac:(lia) ltac:(lia))
    as (p & m & u & s' & Hrun & _ & _ & _ & Hp & Hm & Hu).
  exists p, m, u, s'. split; [exact Hrun|]. split; [exact Hp|].
  split; [exact (Hm Hs) | exact Hu].
Defined.

Lemma run_monte_carlo_ensemble_preconditions_witness :
  (-1 < 0)%Z
  ∧ (0 < (shape uniform_half).1 * (shape uniform_half).2)%nat
  ∧ run_monte_carlo_ensemble lcg_seed lcg_sample rowcol_affine [hotspot_11]
      uniform_half corner_seed (full 3 3 295) (full 3 3 10) (full 3 3 40)
      unit_transform ∅ ∅ (-1) 42 24 7%Z
    = Raise ValueError
  ∧ run_monte_carlo_ensemble lcg_seed lcg_sample rowcol_affine [hotspot_11]
      uniform_half corner_seed (full 3 3 295) (full 3 3 10) (full 3 3 40)
      unit_transform ∅ ∅ 0 42 24 7%Z
    = Ok (full_nan 3 3, full_nan 3 3, full_nan 3 3, 7%Z)
  ∧ run_monte_carlo_ensemble lcg_seed lcg_sample rowcol_affine [hotspot_11]
      uniform_half corner_seed (full 3 3 295) (full 3 3 10) (full 3 3 40)
      unit_transform ∅ ∅ 2 42 (-1) 7%Z
    = run_monte_carlo_ensemble lcg_seed lcg_sample rowcol_affine [hotspot_11]
        uniform_half corner_seed (full 3 3 295) (full 3 3 10) (full 3 3 40)
        unit_transform ∅ ∅ 2 42 0 7%Z.
Proof.
  assert (0 < (shape uniform_half).1 * (shape uniform_half).2)%nat as Hc
    by (simpl; lia).
  split; [lia|]. split; [exact Hc|]. split; [|split].
  - apply (proj1 (run_monte_carlo_ensemble_preconditions lcg_seed lcg_sample
             rowcol_affine [hotspot_11] uniform_half corner_seed (full 3 3 295)
             (full 3 3 10) (full 3 3 40) unit_transform ∅ ∅ (-1) 42 24 7%Z)).
    lia.
  - exact (proj1 (proj2 (run_monte_carlo_ensemble_preconditions lcg_seed
             lcg_sample rowcol_affine [hotspot_11] uniform_half corner_seed
             (full 3 3 295) (full 3 3 10) (full 3 3 40) unit_transform ∅ ∅
             0 42 24 7%Z)) Hc).
  - apply (proj2 (proj2 (run_monte_carlo_ensemble_preconditions lcg_seed
             lcg_sample rowcol_affine [hotspot_11] uniform_half corner_seed
             (full 3 3 295) (full 3 3 10) (full 3 3 40) unit_transform ∅ ∅
             2 42 (-1) 7%Z))).
    lia.
Defined.

Lemma final_state_equals_running_max_witness :
  has_shape 3 3 uniform_half ∧ has_shape 3 3 corner_seed
  ∧ has_shape 3 3 (full 3 3 10) ∧ has_shape 3 3 (full 3 3 40)
  ∧ grid_eq
      (run_baseline_spread rowcol_affine [hotspot_11] uniform_half corner_seed
         (full 3 3 10) (full 3 3 40) unit_transform ∅ 24).1
      (run_baseline_spread rowcol_affine [hotspot_11] uniform_half corner_seed
         (full 3 3 10) (full 3 3 40) unit_transform ∅ 24).2.
Proof.
  assert (has_shape 3 3 uniform_half) as H1 by (by repeat constructor).
  assert (has_shape 3 3 corner_seed) as H2 by (by repeat constructor).
  assert (has_shape 3 3 (full 3 3 10)) as H3 by (by repeat constructor).
  assert (has_shape 3 3 (full 3 3 40)) as H4 by (by repeat constructor).
  do 4 (split; [assumption|]).
  apply (final_state_equals_running_max rowcol_affine [hotspot_11] uniform_half
           corner_seed (full 3 3 10) (full 3 3 40) unit_transform ∅ 24 3 3
           H1 H2 H3 H4).
Defined.

Lemma initialize_grid_skips_off_grid_witness :
  off_grid rowcol_affine (3, 3)%nat unit_transform hotspot_far
  ∧ off_grid rowcol_affine (3, 3)%nat singular_transform hotspot_11
  ∧ initialize_grid rowcol_affine ([hotspot_11] ++ hotspot_far :: [hotspot_11])
      (3, 3)%nat unit_transform 1
    = initialize_grid rowcol_affine ([hotspot_11] ++ [hotspot_11]) (3, 3)%nat
        unit_transform 1
  ∧ initialize_grid rowcol_affine ([] ++ hotspot_11 :: []) (3, 3)%nat
      singular_transform 1
    = initialize_grid rowcol_affine ([] ++ []) (3, 3)%nat singular_transform 1.
Proof.
  assert (off_grid rowcol_affine (3, 3)%nat unit_transform hotspot_far) as Hfar.
  { vm_compute. intros [[_ Hlt] _]. discriminate Hlt. }
  assert (off_grid rowcol_affine (3, 3)%nat singular_transform hotspot_11)
    as Hsing by exact I.
  split; [exact Hfar|]. split; [exact Hsing|]. split.
  - apply (initialize_grid_skips_off_grid rowcol_affine (3, 3)%nat
             unit_transform 1 [hotspot_11] [hotspot_11] hotspot_far Hfar).
  - apply (initialize_grid_skips_off_grid rowcol_affine (3, 3)%nat
             singular_transform 1 [] [] hotspot_11 Hsing).
Defined.

Lemma propagate_spread_frame_witness :
  two_arrays !! 1%positive = Some (Heap.FloatArray corner_seed)
  ∧ two_arrays !! 2%positive = Some (Heap.FloatArray uniform_half)
  ∧ (∃ new σ',
       Heap.propagate_spread 1 2 (3 # 10) 8 two_arrays = Some (new, σ')
       ∧ two_arrays ⊆ σ'
       ∧ σ' !! 1%positive = Some (Heap.FloatArray corner_seed)
       ∧ σ' !! 2%positive = Some (Heap.FloatArray uniform_half)
       ∧ two_arrays !! new = None
       ∧ σ' !! new
         = Some (Heap.FloatArray
                   (propagate_spread corner_seed uniform_half (3 # 10) 8)))
  ∧ (∃ cur mx σ',
       Heap.run_baseline_spread rowcol_affine [hotspot_11] 2 1 2 2
         unit_transform ∅ 24 two_arrays
       = Some ((cur, mx), σ')
       ∧ two_arrays ⊆ σ'
       ∧ σ' !! 1%positive = Some (Heap.FloatArray corner_seed)
       ∧ σ' !! 2%positive = Some (Heap.FloatArray uniform_half)).
Proof.
  split; [reflexivity|]. split; [reflexivity|]. split.
  - apply (proj1 propagate_spread_frame two_arrays 1%positive 2%positive
             corner_seed uniform_half (3 # 10) 8 eq_refl eq_refl).
  - destruct (proj2 propagate_spread_frame rowcol_affine two_arrays
                [hotspot_11] 2%positive 1%positive 2%positive 2%positive
                uniform_half corner_seed uniform_half uniform_half
                unit_transform ∅ 24%Z eq_refl eq_refl eq_refl eq_refl)
      as (cur & mx & σ' & Hrun & Hsub & Hu & Hv & _).
    exists cur, mx, σ'. split; [exact Hrun|]. split; [exact Hsub|].
    split; [exact Hv | exact Hu].
Defined.

(** * Further properties of the engine *)

(** ** The dilation, cell by cell *)

Lemma mask_at_true (m : mask) zr zc :
  mask_at m zr zc = true
  ↔ ∃ r' c', zr = Z.of_nat r' ∧ zc = Z.of_nat c' ∧ get2 m r' c' = Some true.
Proof.
  unfold mask_at. split.
  - destruct (_ || _)%bool eqn:Hneg; [done|].
    apply orb_false_iff in Hneg as [Hr Hc].
    apply Z.ltb_ge in Hr, Hc.
    destruct (get2 m (Z.to_nat zr) (Z.to_nat zc)) as [b|] eqn:Hb; [|done].
    simpl. intros ->. exists (Z.to_nat zr), (Z.to_nat zc).
    split; [lia|]. split; [lia | done].
  - intros (r' & c' & -> & -> & Hm).
    rewrite (proj2 (orb_false_iff _ _)) by (split; apply Z.ltb_ge; lia).
    by rewrite !Nat2Z.id, Hm.
Qed.

Lemma dilated_at_exists (m s : mask) r c :
  dilated_at m s r c = true
  ↔ ∃ i j, (i < 3)%nat ∧ (j < 3)%nat ∧ get2 s i j = Some true
      ∧ mask_at m (Z.of_nat r - (Z.of_nat i - 1))%Z
          (Z.of_nat c - (Z.of_nat j - 1))%Z = true.
Proof.
  unfold dilated_at. rewrite existsb_exists. split.
  - intros (i & Hi & H). apply existsb_exists in H as (j & Hj & H).
    apply andb_true_iff in H as [Hs Hm].
    apply in_seq in Hi, Hj. exists i, j.
    split; [lia|]. split; [lia|]. split; [|done].
    destruct (get2 s i j) as [[]|]; done.
  - intros (i & j & Hi & Hj & Hs & Hm). exists i.
    split; [apply in_seq; lia|]. apply existsb_exists. exists j.
    split; [apply in_seq; lia|]. by rewrite Hs, Hm.
Qed.

Lemma dilated_at_adjacent (m : mask) nb r c :
  dilated_at m (if Qeq_bool nb 4 then structure4 else structure8) r c = true
  ↔ ∃ r' c', adjacent nb r c r' c' ∧ get2 m r' c' = Some true.
Proof.
  rewrite dilated_at_exists. unfold adjacent, near. split.
  - intros (i & j & Hi & Hj & Hs & (r' & c' & Hr & Hc & Hm)%mask_at_true).
    exists r', c'. split; [|done].
    destruct (Qeq_bool nb 4);
      destruct i as [|[|[|i]]]; try lia; destruct j as [|[|[|j]]]; try lia;
      try discriminate Hs; lia.
  - intros (r' & c' & Hadj & Hm).
    assert (∃ i j, (i < 3)%nat ∧ (j < 3)%nat
              ∧ get2 (if Qeq_bool nb 4 then structure4 else structure8) i j
                = Some true
              ∧ Z.of_nat r' = (Z.of_nat r - (Z.of_nat i - 1))%Z
              ∧ Z.of_nat c' = (Z.of_nat c - (Z.of_nat j - 1))%Z)
      as (i & j & Hi & Hj & Hs & Hr & Hc).
    { destruct (Qeq_bool nb 4).
      - destruct Hadj as [[-> Hc]|[-> Hr]].
        + assert (c' = c + 1 ∨ c' = c ∨ c' + 1 = c)%nat as [->|[->| <-]] by lia;
            [exists 1%nat, 0%nat | exists 1%nat, 1%nat | exists 1%nat, 2%nat];
            (split; [lia|]); (split; [lia|]); (split; [reflexivity|]); lia.
        + assert (r' = r + 1 ∨ r' = r ∨ r' + 1 = r)%nat as [->|[->| <-]] by lia;
            [exists 0%nat, 1%nat | exists 1%nat, 1%nat | exists 2%nat, 1%nat];
            (split; [lia|]); (split; [lia|]); (split; [reflexivity|]); lia.
      - destruct Hadj as [Hr Hc].
        exists (r + 1 - r')%nat, (c + 1 - c')%nat.
        split; [lia|]. split; [lia|]. split; [|lia].
        assert (r + 1 - r' = 0 ∨ r + 1 - r' = 1 ∨ r + 1 - r' = 2)%nat
          as [->|[->| ->]] by lia;
          (assert (c + 1 - c' = 0 ∨ c + 1 - c' = 1 ∨ c + 1 - c' = 2)%nat
             as [->|[->| ->]] by lia); reflexivity. }
    exists i, j. split; [done|]. split; [done|]. split; [done|].
    apply mask_at_true. by exists r', c'.
Qed.

(** ** Seeding, cell by cell *)

Lemma get2_set2_eq (g : grid) r c v x :
  get2 g r c = Some x → get2 (set2 g r c v) r c = Some v.
Proof.
  unfold get2, set2. rewrite list_lookup_alter_eq.
  destruct (g !! r) as [row|]; simpl; [|done].
  intros Hx. apply list_lookup_insert_eq. by eapply lookup_lt_Some.
Qed.

Lemma get2_set2_ne (g : grid) r0 c0 v r c :
  (r0, c0) ≠ (r, c) → get2 (set2 g r0 c0 v) r c = get2 g r c.
Proof.
  intros Hne. unfold get2, set2. destruct (decide (r0 = r)) as [->|Hr].
  - rewrite list_lookup_alter_eq. destruct (g !! r) as [row|]; simpl; [|done].
    apply list_lookup_insert_ne. congruence.
  - by rewrite list_lookup_alter_ne.
Qed.

Lemma has_shape_get2_is_Some {A} H W (a : list (list A)) r c :
  has_shape H W a → (r < H)%nat → (c < W)%nat → is_Some (get2 a r c).
Proof.
  intros [Hl Hf] Hr Hc. unfold get2.
  destruct (lookup_lt_is_Some_2 a r) as [row Hrow]; [lia|].
  rewrite Hrow. simpl. apply lookup_lt_is_Some_2.
  by rewrite (Forall_lookup_1 _ _ _ _ Hf Hrow).
Qed.

Lemma has_shape_zeros H W : has_shape H W (zeros H W).
Proof.
  split; [apply length_replicate|].
  apply Forall_replicate, length_replicate.
Qed.

Lemma get2_zeros H W r c :
  (r < H)%nat → (c < W)%nat → get2 (zeros H W) r c = Some 0.
Proof.
  intros Hr Hc. unfold get2, zeros.
  rewrite lookup_replicate_2 by done. simpl. by apply lookup_replicate_2.
Qed.

Lemma has_shape_seed_hotspot rowcol grid_shape H W transform seed_strength
    (g : grid) h :
  has_shape H W g →
  has_shape H W (seed_hotspot rowcol grid_shape transform seed_strength g h).
Proof.
  intros Hg. unfold seed_hotspot.
  destruct (rowcol _ _ _) as [[row col]|]; [|done].
  destruct (_ && _)%bool; [|done].
  eapply same_shape_has_shape; [apply same_shape_set2 | done].
Qed.

Lemma has_shape_seed_fold rowcol grid_shape H W transform seed_strength
    (hotspots_df : list hotspot) (g : grid) :
  has_shape H W g →
  has_shape H W
    (fold_left (seed_hotspot rowcol grid_shape transform seed_strength)
       hotspots_df g).
Proof.
  revert g. induction hotspots_df as [|h hs IH]; intros g Hg; [done|].
  simpl. by apply IH, has_shape_seed_hotspot.
Qed.

(** The fold of the seeding loop from any grid of the shape: a cell holds the
    seed strength when some hotspot falls on it, and is left alone else. *)
Lemma get2_seed_fold rowcol H W transform seed_strength
    (hotspots_df : list hotspot) (g : grid) r c :
  has_shape H W g → (r < H)%nat → (c < W)%nat →
  get2 (fold_left (seed_hotspot rowcol (H, W) transform seed_strength)
          hotspots_df g) r c
  = if existsb (placedb rowcol transform r c) hotspots_df
    then Some seed_strength else get2 g r c.
Proof.
  intros Hg Hr Hc. revert g Hg.
  induction hotspots_df as [|h hs IH]; intros g Hg; [done|].
  simpl fold_left. simpl existsb.
  rewrite IH by by apply has_shape_seed_hotspot.
  destruct (existsb _ hs); [by rewrite orb_true_r|].
  rewrite orb_false_r. unfold seed_hotspot, placedb.
  destruct (rowcol _ _ _) as [[row col]|]; [|done].
  cbn [fst snd].
  destruct ((row =? Z.of_nat r)%Z && (col =? Z.of_nat c)%Z)%bool eqn:Hrc.
  - apply andb_true_iff in Hrc as [->%Z.eqb_eq ->%Z.eqb_eq].
    rewrite (proj2 (andb_true_iff _ _)).
    + rewrite !Nat2Z.id.
      destruct (has_shape_get2_is_Some H W g r c Hg Hr Hc) as [x Hx].
      by eapply get2_set2_eq.
    + split; [|apply Z.ltb_lt; lia].
      apply andb_true_iff. split; [|apply Z.leb_le; lia].
      apply andb_true_iff. split; [apply Z.leb_le | apply Z.ltb_lt]; lia.
  - destruct ((0 <=? row)%Z && (row <? Z.of_nat H)%Z && (0 <=? col)%Z
              && (col <? Z.of_nat W)%Z)%bool eqn:Hin; [|done].
    apply get2_set2_ne. intros [= <- <-].
    repeat (apply andb_true_iff in Hin as [Hin ?]).
    rewrite !Z2Nat.id, !Z.eqb_refl in Hrc by (by apply Z.leb_le). done.
Qed.

(** X1. The grid returned by [initialize_grid] has the requested shape, and
    each of its cells holds [seed_strength] when [rowcol] maps some hotspot
    to it, and 0 otherwise. *)
Theorem initialize_grid_cells rowcol (hotspots_df : list hotspot) H W
    transform seed_strength :
  has_shape H W
    (initialize_grid rowcol hotspots_df (H, W) transform seed_strength)
  ∧ ∀ r c, (r < H)%nat → (c < W)%nat →
      get2 (initialize_grid rowcol hotspots_df (H, W) transform seed_strength)
        r c
      = Some (if existsb (placedb rowcol transform r c) hotspots_df
              then seed_strength else 0).
Proof.
  unfold initialize_grid. cbn [fst snd]. split.
  - apply has_shape_seed_fold, has_shape_zeros.
  - intros r c Hr Hc.
    rewrite (get2_seed_fold rowcol H W transform seed_strength hotspots_df
               (zeros H W) r c (has_shape_zeros H W) Hr Hc).
    rewrite get2_zeros by done. by destruct (existsb _ _).
Qed.

Lemma existsb_same_elements {A} (f : A → bool) (l l' : list A) :
  (∀ x, x ∈ l ↔ x ∈ l') → existsb f l = existsb f l'.
Proof.
  intros Hll. apply eq_true_iff_eq. rewrite !existsb_exists.
  split; intros (x & Hx & Hf); exists x; (split; [|done]);
    apply list_elem_of_In, Hll, list_elem_of_In, Hx.
Qed.

(** X2. [initialize_grid] depends on the set of hotspots only: two tables
    with the same rows, in any order and with any repetitions, give the same
    grid (seeding a detection twice is seeding it once). *)
Theorem initialize_grid_same_hotspots rowcol (hotspots_df hotspots_df' : list hotspot)
    grid_shape transform seed_strength :
  (∀ h, h ∈ hotspots_df ↔ h ∈ hotspots_df') →
  initialize_grid rowcol hotspots_df grid_shape transform seed_strength
  = initialize_grid rowcol hotspots_df' grid_shape transform seed_strength.
Proof.
  intros Hsame. destruct grid_shape as [H W].
  unfold initialize_grid. cbn [fst snd].
  pose proof (has_shape_seed_fold rowcol (H, W) H W transform seed_strength
                hotspots_df _ (has_shape_zeros H W)) as Hs.
  pose proof (has_shape_seed_fold rowcol (H, W) H W transform seed_strength
                hotspots_df' _ (has_shape_zeros H W)) as Hs'.
  apply grid_ext; [by eapply has_shape_same_shape|].
  intros r c x y Hx Hy.
  destruct (has_shape_get2 _ _ _ _ _ _ Hs Hx) as [Hr Hc].
  rewrite (get2_seed_fold rowcol H W transform seed_strength hotspots_df _
             r c (has_shape_zeros H W) Hr Hc) in Hx.
  rewrite (get2_seed_fold rowcol H W transform seed_strength hotspots_df' _
             r c (has_shape_zeros H W) Hr Hc) in Hy.
  rewrite (existsb_same_elements _ _ _ Hsame) in Hx. congruence.
Qed.

Lemma initialize_grid_same_hotspots_witness :
  (∀ h, h ∈ [hotspot_11; hotspot_far; hotspot_11]
        ↔ h ∈ [hotspot_far; hotspot_11])
  ∧ initialize_grid rowcol_affine [hotspot_11; hotspot_far; hotspot_11]
      (3, 3)%nat unit_transform 1
    = initialize_grid rowcol_affine [hotspot_far; hotspot_11] (3, 3)%nat
        unit_transform 1.
Proof.
  assert (∀ h, h ∈ [hotspot_11; hotspot_far; hotspot_11]
               ↔ h ∈ [hotspot_far; hotspot_11]) as Hsame.
  { intros h. rewrite !elem_of_cons. rewrite !elem_of_nil. tauto. }
  split; [exact Hsame|].
  exact (initialize_grid_same_hotspots rowcol_affine _ _ (3, 3)%nat
           unit_transform 1 Hsame).
Defined.

(** ** The spread potential *)



(** ** How fire advances *)

Lemma burned_active (g : grid) r c :
  burned g r c ↔ get2 (amap (λ v, gt v 0) g) r c = Some true.
Proof.
  unfold burned. rewrite get2_amap. split.
  - intros (v & -> & Hv). simpl. f_equal. by apply gt_spec.
  - destruct (get2 g r c) as [v|]; [|done]. simpl. intros [= Hv].
    exists v. split; [done|]. by apply gt_spec.
Qed.

Lemma can_spread_at_true (g : grid) thr nb r c v pv :
  can_spread_at g thr nb r c v pv = true
  ↔ v <= 0 ∧ thr < pv ∧ ∃ r' c', adjacent nb r c r' c' ∧ burned g r' c'.
Proof.
  unfold can_spread_at.
  rewrite !andb_true_iff, negb_true_iff, gt_spec, gt_false,
    dilated_at_adjacent.
  setoid_rewrite burned_active. tauto.
Qed.

(** X4. A step of [propagate_spread] ignites exactly the cells that are not
    burned, whose potential exceeds the threshold, and that have a burned
    cell among their neighbours (4 or 8, as [neighbors] selects): such a cell
    takes its potential as value, and every other cell keeps its value. *)
Theorem propagate_spread_ignition (g pot : grid) (thr nb : Q) r c v p :
  get2 g r c = Some v → get2 pot r c = Some p →
  (v <= 0 ∧ thr < p ∧ (∃ r' c', adjacent nb r c r' c' ∧ burned g r' c') →
   get2 (propagate_spread g pot thr nb) r c = Some p)
  ∧ (¬ (v <= 0 ∧ thr < p ∧ ∃ r' c', adjacent nb r c r' c' ∧ burned g r' c') →
     get2 (propagate_spread g pot thr nb) r c = Some v).
Proof.
  intros Hv Hp. rewrite get2_propagate_spread, Hv, Hp. simpl.
  rewrite <- can_spread_at_true.
  destruct (can_spread_at g thr nb r c v p); split; intros H; done.
Qed.

Lemma propagate_spread_ignition_witness :
  get2 corner_seed 1 1 = Some 0 ∧ get2 uniform_half 1 1 = Some (1 # 2)
  ∧ get2 (propagate_spread corner_seed uniform_half (3 # 10) 8) 1 1
    = Some (1 # 2)
  ∧ get2 (propagate_spread corner_seed uniform_half (3 # 10) 4) 1 1 = Some 0.
Proof.
  split; [reflexivity|]. split; [reflexivity|]. split.
  - apply (proj1 (propagate_spread_ignition corner_seed uniform_half (3 # 10)
                    8 1 1 0 (1 # 2) eq_refl eq_refl)).
    split; [discriminate|]. split; [reflexivity|].
    exists 0%nat, 0%nat. split.
    + unfold adjacent, near. simpl. lia.
    + exists 1. split; reflexivity.
  - apply (proj2 (propagate_spread_ignition corner_seed uniform_half (3 # 10)
                    4 1 1 0 (1 # 2) eq_refl eq_refl)).
    intros (_ & _ & r' & c' & Hadj & v & Hv & Hpos).
    unfold adjacent, near in Hadj. simpl in Hadj.
    assert ((r' = 1 ∧ (c' = 0 ∨ c' = 1 ∨ c' = 2)
             ∨ c' = 1 ∧ (r' = 0 ∨ r' = 1 ∨ r' = 2))%nat) as Hcase by lia.
    destruct Hcase as [[-> [->|[->| ->]]]|[-> [->|[->| ->]]]];
      injection Hv as <-; discriminate Hpos.
Defined.

Lemma adjacent_near nb r c r' c' :
  adjacent nb r c r' c' → near 1 r r' ∧ near 1 c c'.
Proof.
  unfold adjacent, near. destruct (Qeq_bool nb 4); lia.
Qed.

Lemma burned_propagate_spread_near (g pot : grid) thr nb r c :
  burned (propagate_spread g pot thr nb) r c →
  ∃ r' c', burned g r' c' ∧ near 1 r r' ∧ near 1 c c'.
Proof.
  intros (x & Hx & Hpos). rewrite get2_propagate_spread in Hx.
  destruct (get2 g r c) as [v|] eqn:Hv; simpl in Hx; [|done].
  destruct (get2 pot r c) as [pv|] eqn:Hpv; simpl in Hx; [|done].
  injection Hx as <-.
  destruct (can_spread_at g thr nb r c v pv) eqn:Hcs.
  - apply can_spread_at_true in Hcs as (_ & _ & r' & c' & Hadj & Hb).
    exists r', c'. split; [done|]. by eapply adjacent_near.
  - exists r, c. split; [by exists v|]. unfold near. lia.
Qed.

(** X5. Fire advances at most one cell per timestep: a cell that is burned
    after [t] turns of the time loop is at most [t] rows and [t] columns away
    from a cell that was burned in the seeded grid. *)
Theorem simulate_front_speed (pot : grid) (cfg : config) (g0 : grid) t r c :
  burned (simulate pot cfg g0 t).1 r c →
  ∃ r0 c0, burned g0 r0 c0 ∧ near t r r0 ∧ near t c c0.
Proof.
  revert r c. induction t as [|t IH]; intros r c Hb.
  - exists r, c. split; [done|]. unfold near. lia.
  - rewrite simulate_S in Hb. unfold timestep in Hb. simpl in Hb.
    apply burned_propagate_spread_near in Hb as (r' & c' & Hb & Hr & Hc).
    destruct (IH r' c' Hb) as (r0 & c0 & Hb0 & Hr0 & Hc0).
    exists r0, c0. split; [done|]. unfold near in *. lia.
Qed.

Lemma simulate_front_speed_witness :
  burned (simulate uniform_half ∅ corner_seed 2).1 2 2
  ∧ ∃ r0 c0, burned corner_seed r0 c0 ∧ near 2 2 r0 ∧ near 2 2 c0.
Proof.
  assert (burned (simulate uniform_half ∅ corner_seed 2).1 2 2) as Hb.
  { exists (1 # 2). split; reflexivity. }
  split; [exact Hb|].
  exact (simulate_front_speed uniform_half ∅ corner_seed 2 2 2 Hb).
Defined.

(** ** Where fire does not go *)

Lemma Qmax_eq_l m v : m == v → Qmax m v = m.
Proof.
  intros Heq. unfold Qmax, GenericMinMax.gmax.
  by rewrite (proj1 (Qeq_alt m v) Heq).
Qed.

Lemma amap2_Qmax_tracked (mx cur : grid) :
  same_shape mx cur → max_tracks (cur, mx) → amap2 Qmax mx cur = mx.
Proof.
  intros Hs Ht. apply grid_ext.
  - apply same_shape_amap2. done.
  - intros r c x y. rewrite get2_amap2. intros Hx Hy. rewrite Hy in Hx.
    simpl in Hx. destruct (get2 cur r c) as [v|] eqn:Hv; simpl in Hx; [|done].
    injection Hx as <-.
    destruct (Ht r c v Hv) as (m & Hm & Heq). simpl in Hm.
    assert (m = y) as -> by congruence. by apply Qmax_eq_l.
Qed.

Lemma simulate_fixed (pot : grid) (cfg : config) (g0 : grid) t :
  propagate_spread g0 pot (config_get cfg "spread_threshold" (3 # 10))
    (config_get cfg "neighbors" 8) = g0 →
  simulate pot cfg g0 t = (g0, g0).
Proof.
  intros Hfix. induction t as [|t IH]; [done|].
  rewrite simulate_S, IH. unfold timestep. cbn [fst snd]. rewrite Hfix.
  f_equal. apply amap2_Qmax_tracked; [apply same_shape_refl|].
  intros r c v Hv. exists v. split; [done | reflexivity].
Qed.

Lemma propagate_spread_no_fire (g pot : grid) thr nb :
  same_shape g pot → (∀ r c, ¬ burned g r c) →
  propagate_spread g pot thr nb = g.
Proof.
  intros Hs Hnone. apply grid_ext; [by apply same_shape_propagate_spread|].
  intros r c x y Hx Hy. rewrite get2_propagate_spread, Hy in Hx.
  simpl in Hx. destruct (get2 pot r c) as [pv|]; simpl in Hx; [|done].
  injection Hx as <-.
  destruct (can_spread_at g thr nb r c y pv) eqn:Hcs; [|done].
  apply can_spread_at_true in Hcs as (_ & _ & r' & c' & _ & Hb).
  by destruct (Hnone r' c').
Qed.

Lemma initialize_grid_off_grid rowcol (hotspots_df : list hotspot) grid_shape
    transform seed_strength :
  Forall (off_grid rowcol grid_shape transform) hotspots_df →
  initialize_grid rowcol hotspots_df grid_shape transform seed_strength
  = zeros grid_shape.1 grid_shape.2.
Proof.
  unfold initialize_grid. generalize (zeros grid_shape.1 grid_shape.2).
  induction 1 as [|h hs Hh _ IH]; intros; simpl; [done|].
  by rewrite seed_hotspot_off_grid.
Qed.

Lemma run_baseline_spread_shapes rowcol hotspots_df
    (wind_u wind_v slope rh : grid) transform cfg H W :
  has_shape H W wind_u → has_shape H W wind_v →
  has_shape H W slope → has_shape H W rh →
  same_shape
    (initialize_grid rowcol hotspots_df (shape wind_u) transform
       (config_get cfg "seed_strength" 1))
    (compute_spread_potential wind_u wind_v slope rh cfg)
  ∧ has_shape H W (compute_spread_potential wind_u wind_v slope rh cfg).
Proof.
  intros Hu Hv Hs Hr.
  assert (same_shape (compute_spread_potential wind_u wind_v slope rh cfg)
            wind_u) as Hp.
  { apply same_shape_compute_spread_potential;
      by eapply has_shape_same_shape. }
  split.
  - eapply same_shape_trans; [by eapply same_shape_initialize_grid|].
    by apply same_shape_sym.
  - by eapply same_shape_has_shape.
Qed.

(** X6. No fire without a burned seed: when no hotspot falls on the grid, or
    when [seed_strength] is not positive, [run_baseline_spread] returns the
    seeded grid, unchanged, as final state and as running maximum, for every
    [n_timesteps]; with no hotspot on the grid that grid is all zeros. *)
Theorem run_baseline_spread_no_fire rowcol (hotspots_df : list hotspot)
    (wind_u wind_v slope rh : grid) transform cfg n_timesteps H W :
  has_shape H W wind_u → has_shape H W wind_v →
  has_shape H W slope → has_shape H W rh →
  Forall (off_grid rowcol (shape wind_u) transform) hotspots_df
  ∨ config_get cfg "seed_strength" 1 <= 0 →
  let g0 :=
    initialize_grid rowcol hotspots_df (shape wind_u) transform
      (config_get cfg "seed_strength" 1) in
  run_baseline_spread rowcol hotspots_df wind_u wind_v slope rh transform cfg
    n_timesteps
  = (g0, g0)
  ∧ (Forall (off_grid rowcol (shape wind_u) transform) hotspots_df →
     g0 = zeros (shape wind_u).1 (shape wind_u).2).
Proof.
  intros Hu Hv Hs Hr Hcase g0. split.
  - rewrite run_baseline_spread_simulate. apply simulate_fixed.
    apply propagate_spread_no_fire.
    + by eapply (run_baseline_spread_shapes rowcol hotspots_df).
    + intros r c (v & Hv0 & Hpos).
      assert (cells_in (λ x, x <= 0) g0) as Hle.
      { destruct Hcase as [Hoff|Hneg].
        - unfold g0. rewrite initialize_grid_off_grid by done.
          apply cells_in_zeros. apply Qle_refl.
        - apply cells_in_initialize_grid; [apply Qle_refl | done]. }
      specialize (Hle r c v Hv0). simpl in Hle. lra.
  - intros Hoff. by apply initialize_grid_off_grid.
Qed.

Lemma run_baseline_spread_no_fire_witness :
  has_shape 3 3 uniform_half ∧ has_shape 3 3 corner_seed
  ∧ has_shape 3 3 (full 3 3 10) ∧ has_shape 3 3 (full 3 3 40)
  ∧ Forall (off_grid rowcol_affine (shape uniform_half) unit_transform)
      [hotspot_far]
  ∧ run_baseline_spread rowcol_affine [hotspot_far] uniform_half corner_seed
      (full 3 3 10) (full 3 3 40) unit_transform ∅ 24
    = (zeros 3 3, zeros 3 3).
Proof.
  assert (has_shape 3 3 uniform_half) as H1 by (by repeat constructor).
  assert (has_shape 3 3 corner_seed) as H2 by (by repeat constructor).
  assert (has_shape 3 3 (full 3 3 10)) as H3 by (by repeat constructor).
  assert (has_shape 3 3 (full 3 3 40)) as H4 by (by repeat constructor).
  assert (Forall (off_grid rowcol_affine (shape uniform_half) unit_transform)
            [hotspot_far]) as Hoff.
  { constructor; [|constructor]. vm_compute. intros [[_ Hlt] _].
    discriminate Hlt. }
  do 4 (split; [assumption|]). split; [exact Hoff|].
  destruct (run_baseline_spread_no_fire rowcol_affine [hotspot_far]
              uniform_half corner_seed (full 3 3 10) (full 3 3 40)
              unit_transform ∅ 24 3 3 H1 H2 H3 H4 (or_introl Hoff))
    as [Hrun Hzero].
  rewrite Hrun. by rewrite (Hzero Hoff).
Defined.

Lemma get2_propagate_spread_blocked (g pot : grid) thr nb r c p :
  get2 pot r c = Some p → p <= thr →
  get2 (propagate_spread g pot thr nb) r c = get2 g r c.
Proof.
  intros Hp Hle. rewrite get2_propagate_spread, Hp.
  destruct (get2 g r c) as [v|]; simpl; [|done].
  unfold can_spread_at. by rewrite (proj2 (gt_false p thr) Hle).
Qed.

(** X7. A cell whose potential does not exceed [spread_threshold] never
    ignites: in the final grid of [run_baseline_spread] it holds what the
    seeding left in it, for every [n_timesteps]. *)
Theorem run_baseline_spread_blocked_cell rowcol (hotspots_df : list hotspot)
    (wind_u wind_v slope rh : grid) transform cfg n_timesteps r c p :
  get2 (compute_spread_potential wind_u wind_v slope rh cfg) r c = Some p →
  p <= config_get cfg "spread_threshold" (3 # 10) →
  get2 (run_baseline_spread rowcol hotspots_df wind_u wind_v slope rh
          transform cfg n_timesteps).1 r c
  = get2 (initialize_grid rowcol hotspots_df (shape wind_u) transform
            (config_get cfg "seed_strength" 1)) r c.
Proof.
  intros Hp Hle. rewrite run_baseline_spread_simulate.
  induction (Z.to_nat n_timesteps) as [|t IH]; [done|].
  rewrite simulate_S. unfold timestep. cbn [fst].
  by rewrite (get2_propagate_spread_blocked _ _ _ _ _ _ _ Hp Hle).
Qed.

Lemma run_baseline_spread_blocked_cell_witness :
  ∃ p,
    get2 (compute_spread_potential uniform_half corner_seed (full 3 3 10)
            (full 3 3 40) {[ "spread_threshold" := 1 # 2 ]}) 2 2
    = Some p
    ∧ p <= config_get {[ "spread_threshold" := 1 # 2 ]} "spread_threshold"
             (3 # 10)
    ∧ get2 (run_baseline_spread rowcol_affine [hotspot_11] uniform_half
              corner_seed (full 3 3 10) (full 3 3 40) unit_transform
              {[ "spread_threshold" := 1 # 2 ]} 24).1 2 2
      = get2 (initialize_grid rowcol_affine [hotspot_11] (shape uniform_half)
                unit_transform
                (config_get {[ "spread_threshold" := 1 # 2 ]} "seed_strength"
                   1)) 2 2.
Proof.
  eexists. split; [reflexivity|].
  assert (clip ((5 # 10) * clip (sqrt ((1 # 2) * (1 # 2) + 0 * 0) / 20) 0 1
                + (3 # 10) * clip (10 / 45) 0 1
                + (2 # 10) * clip ((100 - 40) / 100) 0 1) 0 1
          <= config_get {[ "spread_threshold" := 1 # 2 ]} "spread_threshold"
               (3 # 10)) as Hle by (vm_compute; discriminate).
  split; [exact Hle|].
  exact (run_baseline_spread_blocked_cell rowcol_affine [hotspot_11]
           uniform_half corner_seed (full 3 3 10) (full 3 3 40) unit_transform
           {[ "spread_threshold" := 1 # 2 ]} 24 2 2 _ eq_refl Hle).
Defined.

(** X8. A [spread_threshold] of 1 or more disables spreading: the potential
    never exceeds 1, so [run_baseline_spread] returns the seeded grid as
    final state and as running maximum, for every [n_timesteps]. *)
Theorem run_baseline_spread_threshold_one rowcol (hotspots_df : list hotspot)
    (wind_u wind_v slope rh : grid) transform cfg n_timesteps H W :
  has_shape H W wind_u → has_shape H W wind_v →
  has_shape H W slope → has_shape H W rh →
  1 <= config_get cfg "spread_threshold" (3 # 10) →
  let g0 :=
    initialize_grid rowcol hotspots_df (shape wind_u) transform
      (config_get cfg "seed_strength" 1) in
  run_baseline_spread rowcol hotspots_df wind_u wind_v slope rh transform cfg
    n_timesteps
  = (g0, g0).
Proof.
  intros Hu Hv Hs Hr Hthr g0. rewrite run_baseline_spread_simulate.
  apply simulate_fixed.
  destruct (run_baseline_spread_shapes rowcol hotspots_df wind_u wind_v slope
              rh transform cfg H W Hu Hv Hs Hr) as [Hshape _].
  apply grid_ext; [by apply same_shape_propagate_spread|].
  intros r c x y Hx Hy.
  destruct (proj1 (same_shape_get2 _ _ r c Hshape)) as [p Hp]; [by eexists|].
  rewrite (get2_propagate_spread_blocked _ _ _ _ _ _ p Hp) in Hx.
  - congruence.
  - destruct (compute_spread_potential_bounds _ _ _ _ _ _ _ _ Hp) as [_ H1].
    by eapply Qle_trans.
Qed.

Lemma run_baseline_spread_threshold_one_witness :
  has_shape 3 3 uniform_half ∧ has_shape 3 3 corner_seed
  ∧ has_shape 3 3 (full 3 3 10) ∧ has_shape 3 3 (full 3 3 40)
  ∧ 1 <= config_get {[ "spread_threshold" := 1 ]} "spread_threshold" (3 # 10)
  ∧ run_baseline_spread rowcol_affine [hotspot_11] uniform_half corner_seed
      (full 3 3 10) (full 3 3 40) unit_transform {[ "spread_threshold" := 1 ]}
      24
    = (initialize_grid rowcol_affine [hotspot_11] (shape uniform_half)
         unit_transform
         (config_get {[ "spread_threshold" := 1 ]} "seed_strength" 1),
       initialize_grid rowcol_affine [hotspot_11] (shape uniform_half)
         unit_transform
         (config_get {[ "spread_threshold" := 1 ]} "seed_strength" 1)).
Proof.
  assert (has_shape 3 3 uniform_half) as H1 by (by repeat constructor).
  assert (has_shape 3 3 corner_seed) as H2 by (by repeat constructor).
  assert (has_shape 3 3 (full 3 3 10)) as H3 by (by repeat constructor).
  assert (has_shape 3 3 (full 3 3 40)) as H4 by (by repeat constructor).
  assert (1 <= config_get {[ "spread_threshold" := 1 ]} "spread_threshold"
                 (3 # 10)) as H5 by discriminate.
  do 5 (split; [assumption|]).
  exact (run_baseline_spread_threshold_one rowcol_affine [hotspot_11]
           uniform_half corner_seed (full 3 3 10) (full 3 3 40) unit_transform
           {[ "spread_threshold" := 1 ]} 24 3 3 H1 H2 H3 H4 H5).
Defined.

(** ** Saturation of a run *)

Lemma simulate_fst (pot : grid) (cfg : config) (g0 : grid) t :
  (simulate pot cfg g0 t).1
  = iterate_spread pot (config_get cfg "spread_threshold" (3 # 10))
      (config_get cfg "neighbors" 8) t g0.
Proof.
  induction t as [|t IH]; [done|].
  rewrite simulate_S. unfold timestep. cbn [fst]. by rewrite IH.
Qed.

Lemma iterate_spread_fixed H W (g pot : grid) thr nb :
  has_shape H W g → has_shape H W pot →
  propagate_spread (iterate_spread pot thr nb (H * W) g) pot thr nb
  = iterate_spread pot thr nb (H * W) g.
Proof.
  intros Hg Hp.
  assert (same_shape g pot) as Hs by by eapply has_shape_same_shape.
  destruct (iterate_spread_progress H W g pot thr nb (H * W) Hp Hs)
    as [Hfix|Hall]; [done|].
  pose proof (same_shape_iterate_spread pot thr nb (H * W) g Hs) as Hsk.
  apply (propagate_spread_settled_fixed H W); [|done|].
  - by eapply same_shape_has_shape.
  - intros rc Hrc _. unfold settled_count in Hall.
    rewrite <- (length_cells H W) in Hall at 1.
    by apply (filter_length_all _ _ Hall).
Qed.

Lemma simulate_saturated (pot : grid) (cfg : config) (g0 : grid) t k :
  same_shape g0 pot → (∀ r c p, get2 pot r c = Some p → 0 <= p) →
  propagate_spread (simulate pot cfg g0 t).1 pot
    (config_get cfg "spread_threshold" (3 # 10))
    (config_get cfg "neighbors" 8)
  = (simulate pot cfg g0 t).1 →
  simulate pot cfg g0 (t + k) = simulate pot cfg g0 t.
Proof.
  intros Hs Hpot Hfix. induction k as [|k IH]; [by rewrite Nat.add_0_r|].
  rewrite Nat.add_succ_r, simulate_S, IH.
  pose proof (simulate_max_tracks pot cfg g0 t Hpot) as Ht.
  destruct (same_shape_simulate pot cfg g0 t Hs) as [H1 H2].
  destruct (simulate pot cfg g0 t) as [cur mx]. unfold timestep.
  cbn [fst snd] in *. rewrite Hfix. f_equal.
  apply amap2_Qmax_tracked; [|done].
  eapply same_shape_trans; [exact H2 | by apply same_shape_sym].
Qed.

(** X9. A run saturates: on grids of shape (H, W), [run_baseline_spread]
    returns for every [n_timesteps] of at least H * W the two grids it
    returns for [n_timesteps = H * W]. *)
Theorem run_baseline_spread_saturates rowcol (hotspots_df : list hotspot)
    (wind_u wind_v slope rh : grid) transform cfg n_timesteps H W :
  has_shape H W wind_u → has_shape H W wind_v →
  has_shape H W slope → has_shape H W rh →
  (Z.of_nat (H * W) ≤ n_timesteps)%Z →
  run_baseline_spread rowcol hotspots_df wind_u wind_v slope rh transform cfg
    n_timesteps
  = run_baseline_spread rowcol hotspots_df wind_u wind_v slope rh transform
      cfg (Z.of_nat (H * W)).
Proof.
  intros Hu Hv Hs Hr Hn. rewrite !run_baseline_spread_simulate.
  destruct (run_baseline_spread_shapes rowcol hotspots_df wind_u wind_v slope
              rh transform cfg H W Hu Hv Hs Hr) as [Hshape Hpot].
  rewrite Nat2Z.id.
  replace (Z.to_nat n_timesteps)
    with (H * W + (Z.to_nat n_timesteps - H * W))%nat by lia.
  apply simulate_saturated; [done| |].
  - intros r c p Hp.
    by destruct (compute_spread_potential_bounds _ _ _ _ _ _ _ _ Hp).
  - rewrite simulate_fst. apply iterate_spread_fixed; [|done].
    by eapply same_shape_has_shape.
Qed.

Lemma run_baseline_spread_saturates_witness :
  has_shape 3 3 uniform_half ∧ has_shape 3 3 corner_seed
  ∧ has_shape 3 3 (full 3 3 10) ∧ has_shape 3 3 (full 3 3 40)
  ∧ (Z.of_nat (3 * 3) ≤ 24)%Z
  ∧ run_baseline_spread rowcol_affine [hotspot_11] uniform_half corner_seed
      (full 3 3 10) (full 3 3 40) unit_transform ∅ 24
    = run_baseline_spread rowcol_affine [hotspot_11] uniform_half corner_seed
        (full 3 3 10) (full 3 3 40) unit_transform ∅ (Z.of_nat (3 * 3)).
Proof.
  assert (has_shape 3 3 uniform_half) as H1 by (by repeat constructor).
  assert (has_shape 3 3 corner_seed) as H2 by (by repeat constructor).
  assert (has_shape 3 3 (full 3 3 10)) as H3 by (by repeat constructor).
  assert (has_shape 3 3 (full 3 3 40)) as H4 by (by repeat constructor).
  assert (Z.of_nat (3 * 3) ≤ 24)%Z as H5 by (simpl; lia).
  do 5 (split; [assumption|]).
  exact (run_baseline_spread_saturates rowcol_affine [hotspot_11] uniform_half
           corner_seed (full 3 3 10) (full 3 3 40) unit_transform ∅ 24 3 3
           H1 H2 H3 H4 H5).
Defined.

(** * Further properties of the ensemble *)

Section Members.
Context {rng_state : Type}.
Context (init_genrand : Z → rng_state).
Context (random_sample : rng_state → Q * rng_state).
Context (rowcol : Affine → Q → Q → option (Z * Z)).

Lemma ensemble_member_member_grid hotspots_df wind_u wind_v temp slope rh
    transform model_config mc_config base_seed n_timesteps acc i s :
  (0 ≤ base_seed + Z.of_nat i < 2 ^ 32)%Z →
  ∃ s',
    ensemble_member init_genrand random_sample rowcol hotspots_df
      wind_u wind_v temp slope rh transform model_config mc_config
      base_seed n_timesteps acc i s
    = Ok (<[i := member_grid init_genrand random_sample rowcol hotspots_df
                   wind_u wind_v temp slope rh transform model_config
                   mc_config n_timesteps (base_seed + Z.of_nat i)]> acc, s').
Proof.
  intros Hseed. unfold ensemble_member, member_grid.
  destruct (perturb_weather_spec init_genrand random_sample wind_u wind_v temp
              rh mc_config (base_seed + Z.of_nat i) s Hseed)
    as (wu & wv & t' & rh' & s' & Hp & _).
  rewrite (bind_ok _ _ _ _ _ Hp).
  rewrite (perturb_weather_reseeds init_genrand random_sample _ _ _ _ _ _
             (init_genrand 0%Z) s), Hp.
  exists s'. by destruct (run_baseline_spread _ _ _ _ _ _ _ _ _).
Qed.

Lemma foldM_insert_seq {B} (g : nat → B)
    (f : list B → nat → M rng_state (list B)) m k acc s :
  length acc = (k + m)%nat →
  (∀ acc i s, (k ≤ i < k + m)%nat → ∃ s', f acc i s = Ok (<[i := g i]> acc, s')) →
  ∃ s', foldM f (seq k m) acc s = Ok (take k acc ++ map g (seq k m), s').
Proof.
  revert k acc s. induction m as [|m IH]; intros k acc s Hlen Hf.
  - exists s. simpl. rewrite app_nil_r, take_ge by lia. done.
  - simpl. destruct (Hf acc k s) as [s1 Hk]; [lia|].
    rewrite (bind_ok _ _ _ _ _ Hk).
    destruct (IH (S k) (<[k := g k]> acc) s1) as [s2 Hrest].
    { rewrite length_insert. lia. }
    { intros acc' i s' Hi. apply Hf. lia. }
    exists s2. rewrite Hrest. f_equal. f_equal.
    rewrite (take_S_r _ _ (g k)) by (apply list_lookup_insert_eq; lia).
    rewrite take_insert_ge by lia. by rewrite <- app_assoc.
Qed.

Lemma foldM_raise {A B} (f : B → A → M rng_state B) err l1 i l2 acc s :
  (∀ acc j s, j ∈ l1 → ∃ acc' s', f acc j s = Ok (acc', s')) →
  (∀ acc s, f acc i s = Raise err) →
  foldM f (l1 ++ i :: l2) acc s = Raise err.
Proof.
  revert acc s. induction l1 as [|j l1 IH]; intros acc s Hok Hi; simpl.
  - unfold bind. by rewrite Hi.
  - destruct (Hok acc j s) as (acc' & s' & Hj); [by left|].
    rewrite (bind_ok _ _ _ _ _ Hj). apply IH; [|done].
    intros acc0 j0 s0 Hj0. apply Hok. by right.
Qed.

(** The stack after the ensemble loop: one member per seed. *)
Lemma ensemble_loop_members hotspots_df wind_u wind_v temp slope rh
    transform model_config mc_config n_ensemble base_seed n_timesteps s :
  (0 ≤ base_seed)%Z → (base_seed + n_ensemble ≤ 2 ^ 32)%Z →
  ∃ s',
    foldM (ensemble_member init_genrand random_sample rowcol hotspots_df
             wind_u wind_v temp slope rh transform model_config mc_config
             base_seed n_timesteps)
      (range n_ensemble)
      (replicate (Z.to_nat n_ensemble)
         (zeros (shape wind_u).1 (shape wind_u).2)) s
    = Ok (map (λ i, member_grid init_genrand random_sample rowcol
                      hotspots_df wind_u wind_v temp slope rh transform
                      model_config mc_config n_timesteps
                      (base_seed + Z.of_nat i))
            (range n_ensemble),
          s').
Proof.
  intros Hb Hmax. unfold range.
  edestruct (foldM_insert_seq
    (λ i, member_grid init_genrand random_sample rowcol hotspots_df wind_u
            wind_v temp slope rh transform model_config mc_config n_timesteps
            (base_seed + Z.of_nat i))
    (ensemble_member init_genrand random_sample rowcol hotspots_df wind_u
       wind_v temp slope rh transform model_config mc_config base_seed
       n_timesteps)
    (Z.to_nat n_ensemble) 0
    (replicate (Z.to_nat n_ensemble)
       (zeros (shape wind_u).1 (shape wind_u).2)) s) as [s' Hfold].
  { by rewrite length_replicate. }
  { intros acc i s0 Hi. apply ensemble_member_member_grid. lia. }
  exists s'. by rewrite Hfold, take_0, app_nil_l.
Qed.

(** The ensemble as the statistics of its members. *)
Lemma run_monte_carlo_ensemble_stack hotspots_df wind_u wind_v temp slope rh
    transform model_config mc_config n_ensemble base_seed n_timesteps s :
  (0 < (shape wind_u).1 * (shape wind_u).2)%nat →
  (0 ≤ n_ensemble)%Z → (0 ≤ base_seed)%Z →
  (base_seed + n_ensemble ≤ 2 ^ 32)%Z →
  ∃ s',
    run_monte_carlo_ensemble init_genrand random_sample rowcol hotspots_df
      wind_u wind_v temp slope rh transform model_config mc_config
      n_ensemble base_seed n_timesteps s
    = Ok (ensemble_statistics (shape wind_u)
            (map (λ i, member_grid init_genrand random_sample rowcol
                         hotspots_df wind_u wind_v temp slope rh transform
                         model_config mc_config n_timesteps
                         (base_seed + Z.of_nat i))
               (range n_ensemble)),
          s').
Proof.
  intros Hcells Hn Hb Hmax. unfold run_monte_carlo_ensemble.
  rewrite (proj2 (Z.ltb_ge n_ensemble 0)) by lia.
  unfold bind at 1. unfold ret at 1.
  destruct (ensemble_loop_members hotspots_df wind_u wind_v temp slope rh
              transform model_config mc_config n_ensemble base_seed
              n_timesteps s Hb Hmax) as [s' Hfold].
  rewrite (bind_ok _ _ _ _ _ Hfold).
  rewrite (bind_ok _ _ _ _ _
             (np_max_ok _ _ _ s' (has_shape_reduce_axis0 np_mean _ _) Hcells)).
  by exists s'.
Qed.

(** X10. The ensemble is the statistics of its members, and a member
    depends on its own seed only: for [n_ensemble] members with seeds
    [base_seed + i] within numpy's range, on a grid that has cells,
    [run_monte_carlo_ensemble] returns the probability, mean intensity and
    uncertainty of the stack whose [i]-th grid is the running maximum of the
    run on the weather perturbed with the seed [base_seed + i]. *)
Theorem run_monte_carlo_ensemble_members hotspots_df
    wind_u wind_v temp slope rh transform model_config mc_config
    n_ensemble base_seed n_timesteps (s : rng_state) :
  (0 < (shape wind_u).1 * (shape wind_u).2)%nat →
  (0 ≤ n_ensemble)%Z → (0 ≤ base_seed)%Z →
  (base_seed + n_ensemble ≤ 2 ^ 32)%Z →
  ∃ s',
    run_monte_carlo_ensemble init_genrand random_sample rowcol hotspots_df
      wind_u wind_v temp slope rh transform model_config mc_config
      n_ensemble base_seed n_timesteps s
    = Ok (ensemble_statistics (shape wind_u)
            (map (λ i, member_grid init_genrand random_sample rowcol
                         hotspots_df wind_u wind_v temp slope rh transform
                         model_config mc_config n_timesteps
                         (base_seed + Z.of_nat i))
               (range n_ensemble)),
          s').
Proof.
  intros Hcells Hn Hb Hmax.
  destruct (ensemble_loop_members hotspots_df wind_u wind_v temp slope rh
              transform model_config mc_config n_ensemble base_seed
              n_timesteps s Hb Hmax) as [s' Hfold].
  exists s'. unfold run_monte_carlo_ensemble.
  rewrite (proj2 (Z.ltb_ge n_ensemble 0)) by lia.
  unfold bind at 1. unfold ret at 1.
  rewrite (bind_ok _ _ _ _ _ Hfold).
  by rewrite (bind_ok _ _ _ _ _
                (np_max_ok _ _ _ s' (has_shape_reduce_axis0 np_mean _ _)
                   Hcells)).
Qed.

End Members.

(** ** The statistics of a stack, cell by cell *)

Lemma get2_ensemble_statistics grid_shape (stack : list grid) r c :
  (∀ x, get2 (ensemble_statistics grid_shape stack).1.1 r c = Some x →
        x = np_mean (map indicator (cell_values stack r c)))
  ∧ (∀ x, get2 (ensemble_statistics grid_shape stack).1.2 r c = Some x →
          x = np_mean (cell_values stack r c))
  ∧ (∀ x, get2 (ensemble_statistics grid_shape stack).2 r c = Some x →
          x = np_std (cell_values stack r c)).
Proof.
  unfold ensemble_statistics, cell_values. cbn [fst snd].
  split; [|split]; intros x ->%get2_reduce_axis0; [|done..].
  f_equal. rewrite map_map, <- list_fmap_compose. apply map_ext. intros m.
  simpl. rewrite get2_amap. unfold indicator.
  destruct (get2 m r c) as [v|]; simpl; [done|].
  by change (gt 0 0) with false.
Qed.

Lemma is_Some_get2_ensemble_statistics grid_shape (stack : list grid) r c :
  (r < grid_shape.1)%nat → (c < grid_shape.2)%nat →
  is_Some (get2 (ensemble_statistics grid_shape stack).1.1 r c)
  ∧ is_Some (get2 (ensemble_statistics grid_shape stack).1.2 r c)
  ∧ is_Some (get2 (ensemble_statistics grid_shape stack).2 r c).
Proof.
  intros Hr Hc. unfold ensemble_statistics. cbn [fst snd].
  repeat split;
    exact (has_shape_get2_is_Some _ _ _ r c (has_shape_reduce_axis0 _ _ _)
             Hr Hc).
Qed.

Lemma np_mean_val xs :
  xs ≠ [] →
  np_mean xs = Val (fold_right Qplus 0 xs / inject_Z (Z.of_nat (length xs)))
  ∧ 0 < inject_Z (Z.of_nat (length xs)).
Proof.
  intros Hne. destruct xs as [|x xs]; [done|]. split; [done|].
  unfold Qlt. simpl. lia.
Qed.

Lemma Qdiv_eq_iff a n b : 0 < n → a / n == b ↔ a == b * n.
Proof.
  intros Hn. split; intros H.
  - rewrite <- H. field. lra.
  - rewrite H. field. lra.
Qed.

Lemma indicator_bounds v : 0 <= indicator v <= 1.
Proof. unfold indicator. destruct (gt v 0); lra. Qed.

Lemma indicator_sum_zero vs :
  fold_right Qplus 0 (map indicator vs) == 0 ↔ Forall (λ v, ¬ 0 < v) vs.
Proof.
  induction vs as [|v vs IH]; simpl; [by split|].
  pose proof (sum_bounds 0 1 (map indicator vs)) as [Hlo _].
  { apply Forall_fmap, Forall_true. intros x. apply indicator_bounds. }
  rewrite Forall_cons, <- IH. unfold indicator at 1.
  destruct (gt v 0) eqn:Hv.
  - apply gt_spec in Hv. split; [lra | tauto].
  - apply gt_false in Hv. split.
    + intros H. split; [lra|lra].
    + intros [_ H]. lra.
Qed.

Lemma indicator_sum_all vs :
  fold_right Qplus 0 (map indicator vs) == inject_Z (Z.of_nat (length vs))
  ↔ Forall (λ v, 0 < v) vs.
Proof.
  induction vs as [|v vs IH]; [by split|].
  simpl length. simpl map. simpl fold_right.
  pose proof (sum_bounds 0 1 (map indicator vs)) as [_ Hhi].
  { apply Forall_fmap, Forall_true. intros x. apply indicator_bounds. }
  rewrite length_map in Hhi.
  rewrite Forall_cons, <- IH, Nat2Z.inj_succ, <- Z.add_1_r, inject_Z_plus.
  change (inject_Z 1) with 1.
  set (n := inject_Z (Z.of_nat (length vs))) in *.
  set (t := fold_right Qplus 0 (map indicator vs)) in *.
  unfold indicator at 1. destruct (gt v 0) eqn:Hv.
  - apply gt_spec in Hv. split; [intros H; split; [done | lra] | intros [_ H]; lra].
  - apply gt_false in Hv. split; [intros H; lra | intros [H _]; lra].
Qed.

Lemma sum_le_indicator vs :
  Forall (λ v, 0 <= v <= 1) vs →
  fold_right Qplus 0 vs <= fold_right Qplus 0 (map indicator vs).
Proof.
  induction 1 as [|v vs [H0 H1] _ IH]; simpl; [lra|].
  unfold indicator at 1. destruct (gt v 0) eqn:Hv; [lra|].
  apply gt_false in Hv. lra.
Qed.

Lemma sum_constant v xs :
  Forall (λ x, x == v) xs →
  fold_right Qplus 0 xs == v * inject_Z (Z.of_nat (length xs)).
Proof.
  induction 1 as [|x xs Hx _ IH].
  - change (inject_Z (Z.of_nat (length (@nil Q)))) with 0. simpl. lra.
  - simpl length. simpl fold_right.
    rewrite Nat2Z.inj_succ, <- Z.add_1_r, inject_Z_plus.
    change (inject_Z 1) with 1. rewrite IH, Hx. ring.
Qed.

(** The mean and the standard deviation of values that are all equal. *)
Lemma np_mean_std_constant v xs :
  xs ≠ [] → Forall (λ x, x == v) xs →
  val_eq v (np_mean xs) ∧ val_eq 0 (np_std xs).
Proof.
  intros Hne Hxs.
  destruct (np_mean_val xs Hne) as [Hm Hn].
  assert (fold_right Qplus 0 xs / inject_Z (Z.of_nat (length xs)) == v) as Hv.
  { apply Qdiv_eq_iff; [done|]. by apply sum_constant. }
  split; [by eexists|].
  unfold np_std. rewrite Hm.
  set (m := fold_right Qplus 0 xs / inject_Z (Z.of_nat (length xs))) in *.
  set (ds := map (λ x, Qabs (x - m) * Qabs (x - m)) xs).
  assert (ds ≠ []) as Hds by (by destruct xs).
  destruct (np_mean_val ds Hds) as [-> Hnd].
  eexists; split; [done|]. apply sqrt_zero.
  apply Qdiv_eq_iff; [done|]. rewrite Qmult_0_l.
  rewrite (sum_constant 0 ds).
  - ring.
  - apply Forall_fmap. eapply Forall_impl; [exact Hxs|].
    intros x Hx. unfold compose. cbv beta in Hx |- *.
    assert (x - m == 0) as Hz by (rewrite Hx, Hv; ring).
    rewrite Hz. reflexivity.
Qed.

Lemma burned_cell_value (m : grid) r c :
  burned m r c ↔ 0 < default 0 (get2 m r c).
Proof.
  unfold burned. destruct (get2 m r c) as [v|]; simpl.
  - split; [by intros (? & [= <-] & ?) | by exists v].
  - split; [by intros (? & [=] & _) | lra].
Qed.

Lemma Forall_cell_values (P : Q → Prop) (stack : list grid) r c :
  Forall P (cell_values stack r c)
  ↔ Forall (λ m, P (default 0 (get2 m r c))) stack.
Proof. unfold cell_values. apply Forall_fmap. Qed.

Lemma cell_values_nonempty (stack : list grid) r c :
  stack ≠ [] → cell_values stack r c ≠ [] ∧ map indicator (cell_values stack r c) ≠ [].
Proof. by destruct stack. Qed.

Lemma range_nonempty n : (1 ≤ n)%Z → range n ≠ [].
Proof.
  intros Hn. unfold range.
  destruct (Z.to_nat n) as [|k] eqn:Hk; [lia | done].
Qed.

(** ** The ensemble, cell by cell *)

Section Statistics.
Context {rng_state : Type}.
Context (init_genrand : Z → rng_state).
Context (random_sample : rng_state → Q * rng_state).
Context (rowcol : Affine → Q → Q → option (Z * Z)).
Context (hotspots_df : list hotspot) (wind_u wind_v temp slope rh : grid).
Context (transform : Affine) (model_config mc_config : config).
Context (n_timesteps : Z).

Local Abbreviation member seed :=
  (member_grid init_genrand random_sample rowcol hotspots_df wind_u wind_v
     temp slope rh transform model_config mc_config n_timesteps seed).
Local Abbreviation members n_ensemble base_seed :=
  (ensemble_members init_genrand random_sample rowcol hotspots_df wind_u
     wind_v temp slope rh transform model_config mc_config n_ensemble
     base_seed n_timesteps).
Local Abbreviation run n_ensemble base_seed :=
  (run_monte_carlo_ensemble init_genrand random_sample rowcol hotspots_df
     wind_u wind_v temp slope rh transform model_config mc_config n_ensemble
     base_seed n_timesteps).

Lemma members_nonempty n_ensemble base_seed :
  (1 ≤ n_ensemble)%Z → members n_ensemble base_seed ≠ [].
Proof.
  intros Hn%range_nonempty. unfold ensemble_members.
  by destruct (range n_ensemble).
Qed.

(** The cells of the three outputs, as reductions of the members' cells. *)
Lemma run_monte_carlo_ensemble_cells n_ensemble base_seed s :
  (0 < (shape wind_u).1 * (shape wind_u).2)%nat →
  (1 ≤ n_ensemble)%Z → (0 ≤ base_seed)%Z →
  (base_seed + n_ensemble ≤ 2 ^ 32)%Z →
  ∃ p mi u s',
    run n_ensemble base_seed s = Ok (p, mi, u, s')
    ∧ ∀ r c, (r < (shape wind_u).1)%nat → (c < (shape wind_u).2)%nat →
        get2 p r c
        = Some (np_mean (map indicator
                           (cell_values (members n_ensemble base_seed) r c)))
        ∧ get2 mi r c
          = Some (np_mean (cell_values (members n_ensemble base_seed) r c))
        ∧ get2 u r c
          = Some (np_std (cell_values (members n_ensemble base_seed) r c)).
Proof.
  intros Hcells Hn Hb Hmax.
  destruct (run_monte_carlo_ensemble_stack init_genrand random_sample rowcol
              hotspots_df wind_u wind_v temp slope rh transform model_config
              mc_config n_ensemble base_seed n_timesteps s Hcells)
    as [s' Hrun]; [lia | done | done |].
  fold (members n_ensemble base_seed) in Hrun.
  destruct (ensemble_statistics (shape wind_u) (members n_ensemble base_seed))
    as [[p mi] u] eqn:Hst.
  exists p, mi, u, s'. split; [done|]. intros r c Hr Hc.
  pose proof (get2_ensemble_statistics (shape wind_u)
                (members n_ensemble base_seed) r c) as (Hp & Hm & Hu).
  pose proof (is_Some_get2_ensemble_statistics (shape wind_u)
                (members n_ensemble base_seed) r c Hr Hc)
    as ([x Hx] & [y Hy] & [z Hz]).
  rewrite Hst in *. cbn [fst snd] in *.
  by rewrite Hx, Hy, Hz, (Hp x Hx), (Hm y Hy), (Hu z Hz).
Qed.

(** X11. The burn probability of a cell is 0 exactly when no member of the
    ensemble burned the cell, and 1 exactly when every member did. *)
Theorem ensemble_probability_extremes n_ensemble base_seed s :
  (0 < (shape wind_u).1 * (shape wind_u).2)%nat →
  (1 ≤ n_ensemble)%Z → (0 ≤ base_seed)%Z →
  (base_seed + n_ensemble ≤ 2 ^ 32)%Z →
  ∃ p mi u s',
    run n_ensemble base_seed s = Ok (p, mi, u, s')
    ∧ ∀ r c, (r < (shape wind_u).1)%nat → (c < (shape wind_u).2)%nat →
        ∃ q, get2 p r c = Some (Val q)
          ∧ (q == 0 ↔ Forall (λ m, ¬ burned m r c)
                        (members n_ensemble base_seed))
          ∧ (q == 1 ↔ Forall (λ m, burned m r c)
                        (members n_ensemble base_seed)).
Proof.
  intros Hcells Hn Hb Hmax.
  destruct (run_monte_carlo_ensemble_cells n_ensemble base_seed s Hcells Hn Hb
              Hmax) as (p & mi & u & s' & Hrun & Hcell).
  exists p, mi, u, s'. split; [done|]. intros r c Hr Hc.
  destruct (Hcell r c Hr Hc) as (Hp & _).
  set (stack := members n_ensemble base_seed) in *.
  destruct (cell_values_nonempty stack r c (members_nonempty _ _ Hn))
    as [_ Hne].
  destruct (np_mean_val _ Hne) as [Hmean Hlen].
  rewrite Hmean in Hp. eexists. split; [exact Hp|].
  rewrite length_map in *.
  split.
  - rewrite Qdiv_eq_iff by done. rewrite Qmult_0_l, indicator_sum_zero.
    rewrite Forall_cell_values. apply Forall_iff. intros m.
    by rewrite burned_cell_value.
  - rewrite Qdiv_eq_iff by done. rewrite Qmult_1_l, indicator_sum_all.
    rewrite Forall_cell_values. apply Forall_iff. intros m.
    by rewrite burned_cell_value.
Qed.

Lemma cells_in_member_grid (P : Q → Prop) seed :
  P 0 → P (config_get model_config "seed_strength" 1) →
  (∀ x, 0 <= x <= 1 → P x) →
  cells_in P (member seed).
Proof.
  intros H0 Hs H01. unfold member_grid.
  destruct (perturb_weather _ _ _ _ _ _ _ _ _)
    as [[[[[wu wv] t'] rh'] s']|e].
  - by apply cells_in_run_baseline_spread.
  - intros r c x Hx. unfold get2 in Hx. by rewrite lookup_nil in Hx.
Qed.

(** X12. With a seed strength in [0, 1], the mean intensity of a cell never
    exceeds its burn probability. *)
Theorem ensemble_mean_intensity_le_probability n_ensemble base_seed s :
  0 <= config_get model_config "seed_strength" 1 <= 1 →
  (0 < (shape wind_u).1 * (shape wind_u).2)%nat →
  (1 ≤ n_ensemble)%Z → (0 ≤ base_seed)%Z →
  (base_seed + n_ensemble ≤ 2 ^ 32)%Z →
  ∃ p mi u s',
    run n_ensemble base_seed s = Ok (p, mi, u, s')
    ∧ ∀ r c, (r < (shape wind_u).1)%nat → (c < (shape wind_u).2)%nat →
        ∃ qm qp, get2 mi r c = Some (Val qm) ∧ get2 p r c = Some (Val qp)
          ∧ qm <= qp.
Proof.
  intros Hseed Hcells Hn Hb Hmax.
  destruct (run_monte_carlo_ensemble_cells n_ensemble base_seed s Hcells Hn Hb
              Hmax) as (p & mi & u & s' & Hrun & Hcell).
  exists p, mi, u, s'. split; [done|]. intros r c Hr Hc.
  destruct (Hcell r c Hr Hc) as (Hp & Hm & _).
  set (stack := members n_ensemble base_seed) in *.
  destruct (cell_values_nonempty stack r c (members_nonempty _ _ Hn))
    as [Hne Hne'].
  destruct (np_mean_val _ Hne) as [Hmean Hlen].
  destruct (np_mean_val _ Hne') as [Hmean' _].
  rewrite Hmean in Hm. rewrite Hmean' in Hp.
  do 2 eexists. split; [exact Hm|]. split; [exact Hp|].
  rewrite length_map. unfold Qdiv. apply Qmult_le_compat_r.
  - apply sum_le_indicator. apply Forall_cell_values.
    apply Forall_forall. intros m Hin.
    unfold stack, ensemble_members in Hin.
    apply list_elem_of_fmap in Hin as (i & -> & _).
    destruct (get2 (member (base_seed + Z.of_nat i)) r c) as [v|] eqn:Hv;
      simpl; [|lra].
    by apply (cells_in_member_grid (λ x, 0 <= x <= 1)
                (base_seed + Z.of_nat i)) in Hv; [|lra|..].
  - apply Qlt_le_weak, Qinv_lt_0_compat, Hlen.
Qed.

(** X13. An ensemble of one member has no spread: its uncertainty is 0 in
    every cell, its mean intensity is the grid of the member, and its burn
    probability is the 0/1 mask of the cells that the member burned. *)
Theorem ensemble_single_member base_seed s :
  (0 < (shape wind_u).1 * (shape wind_u).2)%nat →
  (0 ≤ base_seed < 2 ^ 32)%Z →
  ∃ p mi u s',
    run 1%Z base_seed s = Ok (p, mi, u, s')
    ∧ ∀ r c, (r < (shape wind_u).1)%nat → (c < (shape wind_u).2)%nat →
        ∃ qp qm qu,
          get2 p r c = Some (Val qp) ∧ get2 mi r c = Some (Val qm)
          ∧ get2 u r c = Some (Val qu)
          ∧ qp == indicator (default 0 (get2 (member base_seed) r c))
          ∧ qm == default 0 (get2 (member base_seed) r c)
          ∧ qu == 0.
Proof.
  intros Hcells Hseed.
  destruct (run_monte_carlo_ensemble_cells 1%Z base_seed s Hcells)
    as (p & mi & u & s' & Hrun & Hcell); [lia..|].
  exists p, mi, u, s'. split; [done|]. intros r c Hr Hc.
  destruct (Hcell r c Hr Hc) as (Hp & Hm & Hu).
  change (members 1%Z base_seed) with [member (base_seed + Z.of_nat 0)] in *.
  change (Z.of_nat 0) with 0%Z in *. rewrite Z.add_0_r in *.
  unfold cell_values in *. simpl map in *.
  set (v := default 0 (get2 (member base_seed) r c)) in *.
  destruct (np_mean_std_constant (indicator v) [indicator v]) as [Hp' _];
    [done | by repeat constructor |].
  destruct (np_mean_std_constant v [v]) as [Hm' Hu'];
    [done | by repeat constructor |].
  destruct Hp' as (qp & Hqp & Hpe). destruct Hm' as (qm & Hqm & Hme).
  destruct Hu' as (qu & Hqu & Hue).
  exists qp, qm, qu. by rewrite Hp, Hm, Hu, Hqp, Hqm, Hqu.
Qed.

Lemma member_grid_off_grid H W seed :
  has_shape H W wind_u → has_shape H W wind_v →
  has_shape H W slope → has_shape H W rh →
  (0 < H * W)%nat →
  Forall (off_grid rowcol (H, W) transform) hotspots_df →
  (0 ≤ seed < 2 ^ 32)%Z →
  member seed = zeros H W.
Proof.
  intros Hu Hv Hs Hr Hcells Hoff Hseed. unfold member_grid.
  destruct (perturb_weather_spec init_genrand random_sample wind_u wind_v temp
              rh mc_config seed (init_genrand 0%Z) Hseed)
    as (wu & wv & t' & rh' & s' & -> & Hwu & Hwv & Hrh).
  apply Forall2_same_shape, same_shape_sym in Hwu, Hwv, Hrh.
  pose proof (same_shape_has_shape H W _ _ Hwu Hu) as Hu'.
  pose proof (same_shape_has_shape H W _ _ Hwv Hv) as Hv'.
  pose proof (same_shape_has_shape H W _ _ Hrh Hr) as Hr'.
  destruct H as [|H]; [lia|].
  rewrite run_baseline_spread_simulate, (shape_has_shape H W wu Hu').
  rewrite initialize_grid_off_grid by done. cbn [fst snd].
  rewrite simulate_fixed; [done|].
  apply propagate_spread_no_fire.
  - eapply has_shape_same_shape; [apply has_shape_zeros|].
    by eapply (run_baseline_spread_shapes rowcol hotspots_df).
  - intros r c (v & Hv0 & Hpos).
    apply (cells_in_zeros (λ x, x <= 0)) in Hv0; [lra | apply Qle_refl].
Qed.

(** X14. No detection on the grid, no fire in the ensemble: when every
    hotspot falls outside the grid (or there is none), the burn probability,
    the mean intensity and the uncertainty are 0 in every cell, whatever the
    weather, the perturbations and the seeds. *)
Theorem ensemble_no_detections H W n_ensemble base_seed s :
  has_shape H W wind_u → has_shape H W wind_v →
  has_shape H W slope → has_shape H W rh →
  (0 < H * W)%nat →
  Forall (off_grid rowcol (H, W) transform) hotspots_df →
  (1 ≤ n_ensemble)%Z → (0 ≤ base_seed)%Z →
  (base_seed + n_ensemble ≤ 2 ^ 32)%Z →
  ∃ p mi u s',
    run n_ensemble base_seed s = Ok (p, mi, u, s')
    ∧ ∀ r c, (r < H)%nat → (c < W)%nat →
        ∃ qp qm qu,
          get2 p r c = Some (Val qp) ∧ get2 mi r c = Some (Val qm)
          ∧ get2 u r c = Some (Val qu)
          ∧ qp == 0 ∧ qm == 0 ∧ qu == 0.
Proof.
  intros Hu Hv Hs Hr Hcells Hoff Hn Hb Hmax.
  assert (shape wind_u = (H, W)) as Hshape.
  { destruct H as [|H]; [lia|]. by apply shape_has_shape. }
  destruct (run_monte_carlo_ensemble_cells n_ensemble base_seed s)
    as (p & mi & u & s' & Hrun & Hcell);
    [by rewrite Hshape | done..|].
  exists p, mi, u, s'. split; [done|]. intros r c Hr' Hc'.
  rewrite Hshape in Hcell. destruct (Hcell r c Hr' Hc') as (Hp & Hm & Hu').
  set (stack := members n_ensemble base_seed) in *.
  destruct (cell_values_nonempty stack r c (members_nonempty _ _ Hn))
    as [Hne Hne'].
  assert (Forall (λ x, x = 0) (cell_values stack r c)) as Hzero.
  { apply Forall_cell_values, Forall_forall. intros m Hin.
    unfold stack, ensemble_members in Hin.
    apply list_elem_of_fmap in Hin as (i & -> & Hi).
    rewrite (member_grid_off_grid H W); [by rewrite get2_zeros | done..|].
    unfold range in Hi. apply elem_of_seq in Hi. lia. }
  destruct (np_mean_std_constant 0 (cell_values stack r c) Hne)
    as [(qm & Hqm & Hme) (qu & Hqu & Hue)].
  { eapply Forall_impl; [exact Hzero|]. by intros x ->. }
  destruct (np_mean_std_constant 0 (map indicator (cell_values stack r c))
              Hne') as [(qp & Hqp & Hpe) _].
  { apply Forall_fmap. eapply Forall_impl; [exact Hzero|]. by intros x ->. }
  exists qp, qm, qu. by rewrite Hp, Hm, Hu', Hqp, Hqm, Hqu.
Qed.

End Statistics.

(** ** The perturbation of the weather *)

Section Perturbation.
Context {rng_state : Type}.
Context (init_genrand : Z → rng_state).
Context (random_sample : rng_state → Q * rng_state).

Lemma perturbed_by_within pert x x' :
  (∀ s, 0 <= (random_sample s).1 < 1) →
  perturbed_by random_sample pert x x' → within_fraction pert x x'.
Proof.
  intros Hrange [s ->]. specialize (Hrange s).
  set (u := (random_sample s).1) in *. unfold within_fraction.
  assert (x * (1 + (- pert + (pert - - pert) * u)) - x
          == (pert * x) * (2 * u - 1)) as -> by ring.
  rewrite Qabs_Qmult, <- (Qabs_Qmult pert x).
  pose proof (Qabs_nonneg (pert * x)) as Hnn.
  assert (Qabs (2 * u - 1) <= 1) as Hd by (apply Qabs_Qle_condition; lra).
  set (a := Qabs (pert * x)) in *. set (d := Qabs (2 * u - 1)) in *.
  nra.
Qed.

Lemma clip_within e h y :
  0 <= h <= 100 → Qabs (y - h) <= e → Qabs (clip y 0 100 - h) <= e.
Proof.
  intros Hh [Hlo Hhi]%Qabs_Qle_condition. apply Qabs_Qle_condition.
  pose proof (clip_ge (h - e) y 0 100) as Hge.
  pose proof (clip_le (h + e) y 0 100) as Hle.
  split.
  - assert (h - e <= clip y 0 100) by (apply Hge; lra). lra.
  - assert (clip y 0 100 <= h + e) by (apply Hle; lra). lra.
Qed.

Lemma perturb_weather_draws wind_u wind_v temp rh cfg seed s :
  (0 ≤ seed < 2 ^ 32)%Z →
  ∃ wind_u' wind_v' temp' rh' s',
    perturb_weather init_genrand random_sample wind_u wind_v temp rh cfg
      seed s
    = Ok (wind_u', wind_v', temp', rh', s')
    ∧ Forall2 (Forall2 (perturbed_by random_sample
                 (config_get cfg "wind_perturbation" (2 # 10))))
        wind_u wind_u'
    ∧ Forall2 (Forall2 (perturbed_by random_sample
                 (config_get cfg "wind_perturbation" (2 # 10))))
        wind_v wind_v'
    ∧ Forall2 (Forall2 (perturbed_by random_sample
                 (config_get cfg "temp_perturbation" (5 # 100))))
        temp temp'
    ∧ Forall2 (Forall2 (λ h h', ∃ y,
                 perturbed_by random_sample
                   (config_get cfg "rh_perturbation" (1 # 10)) h y
                 ∧ h' = clip y 0 100))
        rh rh'.
Proof.
  intros Hseed. unfold perturb_weather, np_random_seed, bind at 1.
  rewrite (proj2 (andb_true_iff _ _))
    by (split; [apply Z.leb_le | apply Z.ltb_lt]; lia).
  set (wp := config_get cfg "wind_perturbation" (2 # 10)).
  set (tp := config_get cfg "temp_perturbation" (5 # 100)).
  set (rp := config_get cfg "rh_perturbation" (1 # 10)).
  destruct (np_random_uniform_spec random_sample (- wp) wp wind_u
              (init_genrand seed)) as (du & s1 & Hu & Hdu).
  destruct (np_random_uniform_spec random_sample (- wp) wp wind_v s1)
    as (dv & s2 & Hv & Hdv).
  destruct (np_random_uniform_spec random_sample (- tp) tp temp s2)
    as (dt & s3 & Ht & Hdt).
  destruct (np_random_uniform_spec random_sample (- rp) rp rh s3)
    as (dh & s4 & Hh & Hdh).
  rewrite (bind_ok _ _ _ _ _ Hu), (bind_ok _ _ _ _ _ Hv),
    (bind_ok _ _ _ _ _ Ht), (bind_ok _ _ _ _ _ Hh).
  unfold ret. do 5 eexists. split; [done|].
  split; [|split; [|split]].
  - eapply Forall2_amap2_r; [exact Hdu|]. intros x d (s0 & ->). by exists s0.
  - eapply Forall2_amap2_r; [exact Hdv|]. intros x d (s0 & ->). by exists s0.
  - eapply Forall2_amap2_r; [exact Hdt|]. intros x d (s0 & ->). by exists s0.
  - eapply Forall2_amap_r.
    + eapply (Forall2_amap2_r _ (perturbed_by random_sample rp)); [exact Hdh|].
      intros x d (s0 & ->). by exists s0.
    + intros h y Hy. simpl. by exists y.
Qed.

Lemma Forall2_Forall2_impl {A B} (R S : A → B → Prop)
    (a : list (list A)) (b : list (list B)) :
  (∀ x y, R x y → S x y) →
  Forall2 (Forall2 R) a b → Forall2 (Forall2 S) a b.
Proof.
  intros HRS Hab. eapply Forall2_impl; [exact Hab|].
  intros ra rb Hr. eapply Forall2_impl; [exact Hr | exact HRS].
Qed.

(** X15. With a seed in numpy's range and a generator that draws from
    [0, 1), [perturb_weather] returns four arrays of the shapes of its
    inputs in which every wind and temperature cell is within its
    perturbation fraction of the input cell, and every humidity cell is in
    [0, 100] and, where the input humidity is in [0, 100], within its
    fraction of it. *)
Theorem perturb_weather_within wind_u wind_v temp rh cfg seed s :
  (∀ s, 0 <= (random_sample s).1 < 1) →
  (0 ≤ seed < 2 ^ 32)%Z →
  ∃ wind_u' wind_v' temp' rh' s',
    perturb_weather init_genrand random_sample wind_u wind_v temp rh cfg
      seed s
    = Ok (wind_u', wind_v', temp', rh', s')
    ∧ Forall2 (Forall2 (within_fraction
                 (config_get cfg "wind_perturbation" (2 # 10))))
        wind_u wind_u'
    ∧ Forall2 (Forall2 (within_fraction
                 (config_get cfg "wind_perturbation" (2 # 10))))
        wind_v wind_v'
    ∧ Forall2 (Forall2 (within_fraction
                 (config_get cfg "temp_perturbation" (5 # 100))))
        temp temp'
    ∧ Forall2 (Forall2 (λ h h',
                 0 <= h' <= 100
                 ∧ (0 <= h <= 100 →
                    within_fraction
                      (config_get cfg "rh_perturbation" (1 # 10)) h h')))
        rh rh'.
Proof.
  intros Hrange Hseed.
  destruct (perturb_weather_draws wind_u wind_v temp rh cfg seed s Hseed)
    as (wu & wv & t' & rh' & s' & Hrun & Hu & Hv & Ht & Hh).
  exists wu, wv, t', rh', s'. split; [done|].
  split; [|split; [|split]].
  - eapply Forall2_Forall2_impl; [|exact Hu].
    intros x y. by apply perturbed_by_within.
  - eapply Forall2_Forall2_impl; [|exact Hv].
    intros x y. by apply perturbed_by_within.
  - eapply Forall2_Forall2_impl; [|exact Ht].
    intros x y. by apply perturbed_by_within.
  - eapply Forall2_Forall2_impl; [|exact Hh].
    intros h h' (y & Hy & ->). split.
    + apply clip_bounds. lra.
    + intros Hin. apply clip_within; [done|].
      by apply perturbed_by_within.
Qed.

End Perturbation.

(** ** What the ensemble does not depend on, and when it fails *)

Section Dependence.
Context {rng_state : Type}.
Context (init_genrand : Z → rng_state).
Context (random_sample : rng_state → Q * rng_state).
Context (rowcol : Affine → Q → Q → option (Z * Z)).

Lemma mapM_Forall2_ext {A A' B} (f : A → M rng_state B)
    (g : A' → M rng_state B) l l' s :
  Forall2 (λ x y, ∀ s, f x s = g y s) l l' → mapM f l s = mapM g l' s.
Proof.
  intros Hll. revert s. induction Hll as [|x y l l' Hxy _ IH]; intros s.
  - done.
  - simpl. unfold bind. rewrite Hxy. destruct (g y s) as [[z s1]|e]; [|done].
    by rewrite IH.
Qed.

Lemma np_random_uniform_same_shape low high (a b : grid) s :
  same_shape a b →
  np_random_uniform random_sample low high a s
  = np_random_uniform random_sample low high b s.
Proof.
  intros Hab. unfold np_random_uniform. apply mapM_Forall2_ext.
  eapply Forall2_impl; [exact Hab|]. intros ra rb Hlen s1.
  apply mapM_Forall2_ext. apply Forall2_same_length_lookup_2; [done|].
  by intros.
Qed.

Lemma ensemble_member_same_shape_temp hotspots_df wind_u wind_v temp temp2
    slope rh transform model_config mc_config base_seed n_timesteps acc i s :
  same_shape temp temp2 →
  ensemble_member init_genrand random_sample rowcol hotspots_df wind_u wind_v
    temp slope rh transform model_config mc_config base_seed n_timesteps
    acc i s
  = ensemble_member init_genrand random_sample rowcol hotspots_df wind_u
      wind_v temp2 slope rh transform model_config mc_config base_seed
      n_timesteps acc i s.
Proof.
  intros Ht. unfold ensemble_member, perturb_weather, bind.
  destruct (np_random_seed _ _ _) as [[[] s0]|e]; [|done].
  destruct (np_random_uniform _ _ _ wind_u _) as [[du s1]|e]; [|done].
  destruct (np_random_uniform _ _ _ wind_v _) as [[dv s2]|e]; [|done].
  rewrite (np_random_uniform_same_shape _ _ temp temp2) by done.
  destruct (np_random_uniform _ _ _ temp2 _) as [[dt s3]|e]; [|done].
  by destruct (np_random_uniform _ _ _ rh _) as [[dh s4]|e].
Qed.

Lemma foldM_ext {A B} (f g : B → A → M rng_state B) l acc s :
  (∀ acc x s, f acc x s = g acc x s) → foldM f l acc s = foldM g l acc s.
Proof.
  intros Hfg. revert acc s. induction l as [|x l IH]; intros acc s; [done|].
  simpl. unfold bind. rewrite Hfg.
  by destruct (g acc x s) as [[acc' s']|e].
Qed.

(** X16. The temperature has no influence on the ensemble beyond its
    shape: with two temperature arrays of one shape, and everything else
    equal, [run_monte_carlo_ensemble] gives the same outcome, outputs and
    exceptions alike. *)
Theorem run_monte_carlo_ensemble_ignores_temperature hotspots_df
    wind_u wind_v temp temp2 slope rh transform model_config mc_config
    n_ensemble base_seed n_timesteps (s : rng_state) :
  same_shape temp temp2 →
  run_monte_carlo_ensemble init_genrand random_sample rowcol hotspots_df
    wind_u wind_v temp slope rh transform model_config mc_config n_ensemble
    base_seed n_timesteps s
  = run_monte_carlo_ensemble init_genrand random_sample rowcol hotspots_df
      wind_u wind_v temp2 slope rh transform model_config mc_config
      n_ensemble base_seed n_timesteps s.
Proof.
  intros Ht. unfold run_monte_carlo_ensemble.
  destruct (n_ensemble <? 0)%Z; [done|].
  unfold bind, ret.
  rewrite (foldM_ext _
             (ensemble_member init_genrand random_sample rowcol hotspots_df
                wind_u wind_v temp2 slope rh transform model_config mc_config
                base_seed n_timesteps)); [done|].
  intros acc' i s'. by apply ensemble_member_same_shape_temp.
Qed.

Lemma perturb_weather_bad_seed wind_u wind_v temp rh cfg seed s :
  ¬ (0 ≤ seed < 2 ^ 32)%Z →
  perturb_weather init_genrand random_sample wind_u wind_v temp rh cfg seed s
  = Raise ValueError.
Proof.
  intros Hseed. unfold perturb_weather, np_random_seed, bind at 1.
  destruct (0 <=? seed)%Z eqn:H0; [|done].
  destruct (seed <? 2 ^ 32)%Z eqn:H1; [|done].
  apply Z.leb_le in H0. apply Z.ltb_lt in H1. lia.
Qed.

(** X17. A seed outside numpy's range fails the whole ensemble: with at
    least one member, when [base_seed] is negative or the last seed
    [base_seed + n_ensemble - 1] is 2^32 or more,
    [run_monte_carlo_ensemble] raises [ValueError] and returns nothing, even
    if earlier members had valid seeds. *)
Theorem run_monte_carlo_ensemble_seed_out_of_range hotspots_df
    wind_u wind_v temp slope rh transform model_config mc_config
    n_ensemble base_seed n_timesteps (s : rng_state) :
  (1 ≤ n_ensemble)%Z →
  (base_seed < 0 ∨ 2 ^ 32 < base_seed + n_ensemble)%Z →
  run_monte_carlo_ensemble init_genrand random_sample rowcol hotspots_df
    wind_u wind_v temp slope rh transform model_config mc_config n_ensemble
    base_seed n_timesteps s
  = Raise ValueError.
Proof.
  intros Hn Hbad. unfold run_monte_carlo_ensemble.
  rewrite (proj2 (Z.ltb_ge n_ensemble 0)) by lia.
  unfold bind at 1. unfold ret at 1. unfold bind at 1.
  set (i0 := if decide (0 ≤ base_seed < 2 ^ 32)%Z
             then Z.to_nat (2 ^ 32 - base_seed) else 0%nat).
  assert (i0 < Z.to_nat n_ensemble)%nat as Hi0
    by (unfold i0; destruct (decide _); lia).
  assert (¬ (0 ≤ base_seed + Z.of_nat i0 < 2 ^ 32)%Z) as Hbad0
    by (unfold i0; destruct (decide _); lia).
  assert (∀ j, (j < i0)%nat → (0 ≤ base_seed + Z.of_nat j < 2 ^ 32)%Z)
    as Hgood by (unfold i0; destruct (decide _); lia).
  unfold range.
  replace (Z.to_nat n_ensemble)
    with (i0 + S (Z.to_nat n_ensemble - S i0))%nat by lia.
  rewrite seq_app. cbn [seq]. rewrite Nat.add_0_l.
  rewrite foldM_raise with (err := ValueError); [done| |].
  - intros acc j s0 Hj%elem_of_seq.
    destruct (ensemble_member_member_grid init_genrand random_sample rowcol
                hotspots_df wind_u wind_v temp slope rh transform
                model_config mc_config base_seed n_timesteps acc j s0)
      as [s' Hok]; [apply Hgood; lia|].
    by eexists _, s'.
  - intros acc s0. unfold ensemble_member.
    unfold bind. by rewrite perturb_weather_bad_seed.
Qed.

End Dependence.

(** ** The further properties at concrete inputs *)

Lemma initialize_grid_cells_witness :
  (1 < 3)%nat ∧ (1 < 3)%nat
  ∧ get2 (initialize_grid rowcol_affine [hotspot_11; hotspot_far] (3, 3)%nat
            unit_transform 1) 1 1
    = Some (if existsb (placedb rowcol_affine unit_transform 1 1)
                 [hotspot_11; hotspot_far]
            then 1 else 0).
Proof.
  split; [lia|]. split; [lia|].
  exact (proj2 (initialize_grid_cells rowcol_affine [hotspot_11; hotspot_far]
                  3 3 unit_transform 1) 1%nat 1%nat ltac:(lia) ltac:(lia)).
Defined.

Lemma uniform_half_cells :
  (0 < (shape uniform_half).1 * (shape uniform_half).2)%nat.
Proof. simpl. lia. Qed.

Lemma uniform_half_cell_11 :
  (1 < (shape uniform_half).1)%nat ∧ (1 < (shape uniform_half).2)%nat.
Proof. simpl. lia. Qed.

Lemma run_monte_carlo_ensemble_members_witness :
  (0 < (shape uniform_half).1 * (shape uniform_half).2)%nat
  ∧ (0 ≤ 2)%Z ∧ (0 ≤ 42)%Z ∧ (42 + 2 ≤ 2 ^ 32)%Z
  ∧ ∃ s',
      run_monte_carlo_ensemble lcg_seed lcg_sample rowcol_affine [hotspot_11]
        uniform_half corner_seed (full 3 3 295) (full 3 3 10) (full 3 3 40)
        unit_transform ∅ ∅ 2 42 24 7%Z
      = Ok (ensemble_statistics (shape uniform_half)
              (map (λ i, member_grid lcg_seed lcg_sample rowcol_affine
                           [hotspot_11] uniform_half corner_seed
                           (full 3 3 295) (full 3 3 10) (full 3 3 40)
                           unit_transform ∅ ∅ 24 (42 + Z.of_nat i))
                 (range 2)),
            s').
Proof.
  split; [exact uniform_half_cells|].
  split; [lia|]. split; [lia|]. split; [lia|].
  exact (run_monte_carlo_ensemble_members lcg_seed lcg_sample rowcol_affine
           [hotspot_11] uniform_half corner_seed (full 3 3 295) (full 3 3 10)
           (full 3 3 40) unit_transform ∅ ∅ 2 42 24 7%Z uniform_half_cells
           ltac:(lia) ltac:(lia) ltac:(lia)).
Defined.

Lemma ensemble_probability_extremes_witness :
  (0 < (shape uniform_half).1 * (shape uniform_half).2)%nat
  ∧ (1 ≤ 2)%Z ∧ (0 ≤ 42)%Z ∧ (42 + 2 ≤ 2 ^ 32)%Z
  ∧ ∃ p mi u s',
      run_monte_carlo_ensemble lcg_seed lcg_sample rowcol_affine [hotspot_11]
        uniform_half corner_seed (full 3 3 295) (full 3 3 10) (full 3 3 40)
        unit_transform ∅ ∅ 2 42 24 7%Z
      = Ok (p, mi, u, s')
      ∧ ∃ q, get2 p 1 1 = Some (Val q)
          ∧ (q == 0 ↔ Forall (λ m, ¬ burned m 1 1)
                        (ensemble_members lcg_seed lcg_sample rowcol_affine
                           [hotspot_11] uniform_half corner_seed
                           (full 3 3 295) (full 3 3 10) (full 3 3 40)
                           unit_transform ∅ ∅ 2 42 24))
          ∧ (q == 1 ↔ Forall (λ m, burned m 1 1)
                        (ensemble_members lcg_seed lcg_sample rowcol_affine
                           [hotspot_11] uniform_half corner_seed
                           (full 3 3 295) (full 3 3 10) (full 3 3 40)
                           unit_transform ∅ ∅ 2 42 24)).
Proof.
  split; [exact uniform_half_cells|].
  split; [lia|]. split; [lia|]. split; [lia|].
  destruct (ensemble_probability_extremes lcg_seed lcg_sample rowcol_affine
              [hotspot_11] uniform_half corner_seed (full 3 3 295)
              (full 3 3 10) (full 3 3 40) unit_transform ∅ ∅ 24 2 42 7%Z
              uniform_half_cells ltac:(lia) ltac:(lia) ltac:(lia))
    as (p & mi & u & s' & Hrun & Hcell).
  exists p, mi, u, s'. split; [exact Hrun|].
  exact (Hcell 1%nat 1%nat (proj1 uniform_half_cell_11)
           (proj2 uniform_half_cell_11)).
Defined.

Lemma ensemble_mean_intensity_le_probability_witness :
  0 <= config_get ∅ "seed_strength" 1 <= 1
  ∧ (0 < (shape uniform_half).1 * (shape uniform_half).2)%nat
  ∧ (1 ≤ 2)%Z ∧ (0 ≤ 42)%Z ∧ (42 + 2 ≤ 2 ^ 32)%Z
  ∧ ∃ p mi u s',
      run_monte_carlo_ensemble lcg_seed lcg_sample rowcol_affine [hotspot_11]
        uniform_half corner_seed (full 3 3 295) (full 3 3 10) (full 3 3 40)
        unit_transform ∅ ∅ 2 42 24 7%Z
      = Ok (p, mi, u, s')
      ∧ ∃ qm qp, get2 mi 1 1 = Some (Val qm) ∧ get2 p 1 1 = Some (Val qp)
          ∧ qm <= qp.
Proof.
  assert (0 <= config_get ∅ "seed_strength" 1 <= 1) as Hs
    by (split; discriminate).
  split; [exact Hs|]. split; [exact uniform_half_cells|].
  split; [lia|]. split; [lia|]. split; [lia|].
  destruct (ensemble_mean_intensity_le_probability lcg_seed lcg_sample
              rowcol_affine [hotspot_11] uniform_half corner_seed
              (full 3 3 295) (full 3 3 10) (full 3 3 40) unit_transform ∅ ∅
              24 2 42 7%Z Hs uniform_half_cells ltac:(lia) ltac:(lia)
              ltac:(lia))
    as (p & mi & u & s' & Hrun & Hcell).
  exists p, mi, u, s'. split; [exact Hrun|].
  exact (Hcell 1%nat 1%nat (proj1 uniform_half_cell_11)
           (proj2 uniform_half_cell_11)).
Defined.

Lemma ensemble_single_member_witness :
  (0 < (shape uniform_half).1 * (shape uniform_half).2)%nat
  ∧ (0 ≤ 42 < 2 ^ 32)%Z
  ∧ ∃ p mi u s',
      run_monte_carlo_ensemble lcg_seed lcg_sample rowcol_affine [hotspot_11]
        uniform_half corner_seed (full 3 3 295) (full 3 3 10) (full 3 3 40)
        unit_transform ∅ ∅ 1 42 24 7%Z
      = Ok (p, mi, u, s')
      ∧ ∃ qp qm qu,
          get2 p 1 1 = Some (Val qp) ∧ get2 mi 1 1 = Some (Val qm)
          ∧ get2 u 1 1 = Some (Val qu)
          ∧ qp == indicator (default 0 (get2
                   (member_grid lcg_seed lcg_sample rowcol_affine
                      [hotspot_11] uniform_half corner_seed (full 3 3 295)
                      (full 3 3 10) (full 3 3 40) unit_transform ∅ ∅ 24 42)
                   1 1))
          ∧ qm == default 0 (get2
                   (member_grid lcg_seed lcg_sample rowcol_affine
                      [hotspot_11] uniform_half corner_seed (full 3 3 295)
                      (full 3 3 10) (full 3 3 40) unit_transform ∅ ∅ 24 42)
                   1 1)
          ∧ qu == 0.
Proof.
  split; [exact uniform_half_cells|]. split; [lia|].
  destruct (ensemble_single_member lcg_seed lcg_sample rowcol_affine
              [hotspot_11] uniform_half corner_seed (full 3 3 295)
              (full 3 3 10) (full 3 3 40) unit_transform ∅ ∅ 24 42 7%Z
              uniform_half_cells ltac:(lia))
    as (p & mi & u & s' & Hrun & Hcell).
  exists p, mi, u, s'. split; [exact Hrun|].
  exact (Hcell 1%nat 1%nat (proj1 uniform_half_cell_11)
           (proj2 uniform_half_cell_11)).
Defined.

Lemma has_shape_examples :
  has_shape 3 3 uniform_half ∧ has_shape 3 3 corner_seed
  ∧ has_shape 3 3 (full 3 3 10) ∧ has_shape 3 3 (full 3 3 40).
Proof. repeat split; by repeat constructor. Qed.

Lemma hotspot_far_off_grid :
  Forall (off_grid rowcol_affine (3, 3)%nat unit_transform) [hotspot_far].
Proof.
  constructor; [|constructor]. vm_compute. intros [[_ Hlt] _].
  discriminate Hlt.
Qed.

Lemma ensemble_no_detections_witness :
  has_shape 3 3 uniform_half ∧ has_shape 3 3 corner_seed
  ∧ has_shape 3 3 (full 3 3 10) ∧ has_shape 3 3 (full 3 3 40)
  ∧ (0 < 3 * 3)%nat
  ∧ Forall (off_grid rowcol_affine (3, 3)%nat unit_transform) [hotspot_far]
  ∧ (1 ≤ 2)%Z ∧ (0 ≤ 42)%Z ∧ (42 + 2 ≤ 2 ^ 32)%Z
  ∧ ∃ p mi u s',
      run_monte_carlo_ensemble lcg_seed lcg_sample rowcol_affine
        [hotspot_far] uniform_half corner_seed (full 3 3 295) (full 3 3 10)
        (full 3 3 40) unit_transform ∅ ∅ 2 42 24 7%Z
      = Ok (p, mi, u, s')
      ∧ ∃ qp qm qu,
          get2 p 1 1 = Some (Val qp) ∧ get2 mi 1 1 = Some (Val qm)
          ∧ get2 u 1 1 = Some (Val qu)
          ∧ qp == 0 ∧ qm == 0 ∧ qu == 0.
Proof.
  destruct has_shape_examples as (H1 & H2 & H3 & H4).
  do 4 (split; [assumption|]). split; [lia|].
  split; [exact hotspot_far_off_grid|].
  split; [lia|]. split; [lia|]. split; [lia|].
  destruct (ensemble_no_detections lcg_seed lcg_sample rowcol_affine
              [hotspot_far] uniform_half corner_seed (full 3 3 295)
              (full 3 3 10) (full 3 3 40) unit_transform ∅ ∅ 24 3 3 2 42 7%Z
              H1 H2 H3 H4 ltac:(lia) hotspot_far_off_grid ltac:(lia)
              ltac:(lia) ltac:(lia))
    as (p & mi & u & s' & Hrun & Hcell).
  exists p, mi, u, s'. split; [exact Hrun|].
  exact (Hcell 1%nat 1%nat ltac:(lia) ltac:(lia)).
Defined.

Lemma perturb_weather_within_witness :
  (∀ s, 0 <= (lcg_sample s).1 < 1) ∧ (0 ≤ 42 < 2 ^ 32)%Z
  ∧ ∃ wind_u' wind_v' temp' rh' s',
      perturb_weather lcg_seed lcg_sample uniform_half corner_seed
        (full 3 3 295) (full 3 3 40) ∅ 42 7%Z
      = Ok (wind_u', wind_v', temp', rh', s')
      ∧ Forall2 (Forall2 (within_fraction
                   (config_get ∅ "wind_perturbation" (2 # 10))))
          uniform_half wind_u'
      ∧ Forall2 (Forall2 (within_fraction
                   (config_get ∅ "wind_perturbation" (2 # 10))))
          corner_seed wind_v'
      ∧ Forall2 (Forall2 (within_fraction
                   (config_get ∅ "temp_perturbation" (5 # 100))))
          (full 3 3 295) temp'
      ∧ Forall2 (Forall2 (λ h h',
                   0 <= h' <= 100
                   ∧ (0 <= h <= 100 →
                      within_fraction
                        (config_get ∅ "rh_perturbation" (1 # 10)) h h')))
          (full 3 3 40) rh'.
Proof.
  split; [exact lcg_sample_range|]. split; [lia|].
  exact (perturb_weather_within lcg_seed lcg_sample uniform_half corner_seed
           (full 3 3 295) (full 3 3 40) ∅ 42 7%Z lcg_sample_range ltac:(lia)).
Defined.

Lemma same_shape_temperatures : same_shape (full 3 3 295) (full 3 3 310).
Proof. by repeat constructor. Qed.

Lemma run_monte_carlo_ensemble_ignores_temperature_witness :
  same_shape (full 3 3 295) (full 3 3 310)
  ∧ run_monte_carlo_ensemble lcg_seed lcg_sample rowcol_affine [hotspot_11]
      uniform_half corner_seed (full 3 3 295) (full 3 3 10) (full 3 3 40)
      unit_transform ∅ ∅ 2 42 24 7%Z
    = run_monte_carlo_ensemble lcg_seed lcg_sample rowcol_affine [hotspot_11]
        uniform_half corner_seed (full 3 3 310) (full 3 3 10) (full 3 3 40)
        unit_transform ∅ ∅ 2 42 24 7%Z.
Proof.
  split; [exact same_shape_temperatures|].
  exact (run_monte_carlo_ensemble_ignores_temperature lcg_seed lcg_sample
           rowcol_affine [hotspot_11] uniform_half corner_seed (full 3 3 295)
           (full 3 3 310) (full 3 3 10) (full 3 3 40) unit_transform ∅ ∅
           2 42 24 7%Z same_shape_temperatures).
Defined.

Lemma run_monte_carlo_ensemble_seed_out_of_range_witness :
  (1 ≤ 2)%Z ∧ (2 ^ 32 - 1 < 0 ∨ 2 ^ 32 < 2 ^ 32 - 1 + 2)%Z
  ∧ run_monte_carlo_ensemble lcg_seed lcg_sample rowcol_affine [hotspot_11]
      uniform_half corner_seed (full 3 3 295) (full 3 3 10) (full 3 3 40)
      unit_transform ∅ ∅ 2 (2 ^ 32 - 1) 24 7%Z
    = Raise ValueError.
Proof.
  split; [lia|]. split; [right; lia|].
  exact (run_monte_carlo_ensemble_seed_out_of_range lcg_seed lcg_sample
           rowcol_affine [hotspot_11] uniform_half corner_seed (full 3 3 295)
           (full 3 3 10) (full 3 3 40) unit_transform ∅ ∅ 2 (2 ^ 32 - 1) 24
           7%Z ltac:(lia) ltac:(right; lia)).
Defined.

(** * Monotonicity of the spread *)

Lemma adjacent_4_any nb r c r' c' :
  adjacent 4 r c r' c' → adjacent nb r c r' c'.
Proof.
  unfold adjacent, near. change (Qeq_bool 4 4) with true. cbv iota.
  destruct (Qeq_bool nb 4); lia.
Qed.

Lemma grid_le_get2 (a b : grid) r c x :
  grid_le a b → get2 a r c = Some x → ∃ y, get2 b r c = Some y ∧ x <= y.
Proof.
  intros Hab Hx.
  destruct (Forall2_get2_r (flip Qle) b a r c x) as (y & Hy & Hle);
    [|done|by exists y].
  apply Forall2_flip. eapply Forall2_impl; [exact Hab|].
  intros ra rb Hr. by apply Forall2_flip.
Qed.

(** A step keeps the order of burned sets: more fire, more potential, a lower
    threshold and more neighbours can only burn more. *)
Lemma propagate_spread_burned_mono (g g' pot pot' : grid) thr thr' nb nb' :
  same_shape g pot → same_shape g' pot' → grid_le pot pot' →
  burned_sub g g' → thr' <= thr →
  (∀ r c r' c', adjacent nb r c r' c' → adjacent nb' r c r' c') →
  burned_sub (propagate_spread g pot thr nb)
    (propagate_spread g' pot' thr' nb').
Proof.
  intros Hs Hs' Hpot Hsub Hthr Hadj r c (x & Hx & Hpos).
  rewrite get2_propagate_spread in Hx.
  destruct (get2 g r c) as [v|] eqn:Hv; simpl in Hx; [|done].
  destruct (get2 pot r c) as [pv|] eqn:Hpv; simpl in Hx; [|done].
  injection Hx as <-.
  destruct (grid_le_get2 pot pot' r c pv Hpot Hpv) as (pv' & Hpv' & Hle).
  destruct (proj2 (same_shape_get2 g' pot' r c Hs')) as [v' Hv'];
    [by eexists|].
  destruct (Qlt_le_dec 0 v') as [Hpos'|Hneg'].
  { exists v'. split; [|done]. by apply propagate_spread_keeps_burned. }
  destruct (can_spread_at g thr nb r c v pv) eqn:Hcs.
  - apply can_spread_at_true in Hcs as (_ & Hgt & r' & c' & Ha & Hb).
    exists pv'. split; [|lra].
    rewrite get2_propagate_spread, Hv', Hpv'. simpl.
    rewrite (proj2 (can_spread_at_true g' thr' nb' r c v' pv')); [done|].
    split; [done|]. split; [lra|]. exists r', c'. split; auto.
  - destruct (Hsub r c) as (w & Hw & Hwpos); [by exists v|].
    rewrite Hv' in Hw. injection Hw as <-. lra.
Qed.

Lemma burned_maximum (a b : grid) r c :
  same_shape a b →
  burned (amap2 Qmax a b) r c ↔ burned a r c ∨ burned b r c.
Proof.
  intros Hs. unfold burned. rewrite get2_amap2. split.
  - intros (m & Hm & Hpos).
    destruct (get2 a r c) as [x|]; simpl in Hm; [|done].
    destruct (get2 b r c) as [y|]; simpl in Hm; [|done].
    injection Hm as <-.
    destruct (Q.max_spec x y) as [[_ Heq]|[_ Heq]]; rewrite Heq in Hpos.
    + right. by exists y.
    + left. by exists x.
  - intros [(x & Hx & Hpos)|(y & Hy & Hpos)].
    + destruct (proj1 (same_shape_get2 a b r c Hs)) as [y Hy]; [by eexists|].
      exists (Qmax x y). rewrite Hx, Hy. split; [done|].
      eapply Qlt_le_trans; [exact Hpos | apply Q.le_max_l].
    + destruct (proj2 (same_shape_get2 a b r c Hs)) as [x Hx]; [by eexists|].
      exists (Qmax x y). rewrite Hx, Hy. split; [done|].
      eapply Qlt_le_trans; [exact Hpos | apply Q.le_max_r].
Qed.

(** The time loop keeps the order of burned sets, in the current grid and in
    the running maximum. *)
Lemma simulate_burned_mono (pot pot' : grid) (cfg cfg' : config)
    (g0 g0' : grid) t :
  same_shape g0 pot → same_shape g0' pot' → grid_le pot pot' →
  burned_sub g0 g0' →
  config_get cfg' "spread_threshold" (3 # 10)
  <= config_get cfg "spread_threshold" (3 # 10) →
  (∀ r c r' c',
     adjacent (config_get cfg "neighbors" 8) r c r' c' →
     adjacent (config_get cfg' "neighbors" 8) r c r' c') →
  burned_sub (simulate pot cfg g0 t).1 (simulate pot' cfg' g0' t).1
  ∧ burned_sub (simulate pot cfg g0 t).2 (simulate pot' cfg' g0' t).2.
Proof.
  intros Hs Hs' Hpot Hsub Hthr Hadj. induction t as [|t [IH1 IH2]]; [done|].
  rewrite !simulate_S. unfold timestep. cbn [fst snd].
  destruct (same_shape_simulate pot cfg g0 t Hs) as [Hc Hm].
  destruct (same_shape_simulate pot' cfg' g0' t Hs') as [Hc' Hm'].
  assert (burned_sub
            (propagate_spread (simulate pot cfg g0 t).1 pot
               (config_get cfg "spread_threshold" (3 # 10))
               (config_get cfg "neighbors" 8))
            (propagate_spread (simulate pot' cfg' g0' t).1 pot'
               (config_get cfg' "spread_threshold" (3 # 10))
               (config_get cfg' "neighbors" 8))) as Hstep
    by (by apply propagate_spread_burned_mono).
  split; [done|]. intros r c.
  rewrite !burned_maximum.
  - intros [Hb|Hb]; [left; by apply IH2 | right; by apply Hstep].
  - eapply same_shape_trans; [exact Hm'|]. apply same_shape_sym.
    eapply same_shape_trans; [by apply same_shape_propagate_spread | done].
  - eapply same_shape_trans; [exact Hm|]. apply same_shape_sym.
    eapply same_shape_trans; [by apply same_shape_propagate_spread | done].
Qed.

Lemma grid_le_refl (a : grid) : grid_le a a.
Proof.
  apply Forall_Forall2_diag, Forall_true. intros row.
  apply Forall_Forall2_diag, Forall_true. intros x. apply Qle_refl.
Qed.

Lemma config_get_insert_ne (cfg : config) k k' v d :
  k ≠ k' → config_get (<[k := v]> cfg) k' d = config_get cfg k' d.
Proof. intros Hne. unfold config_get. by rewrite lookup_insert_ne. Qed.

Lemma config_get_insert (cfg : config) k v d :
  config_get (<[k := v]> cfg) k d = v.
Proof. unfold config_get. by rewrite lookup_insert_eq. Qed.

Lemma initialize_grid_burned_sub rowcol (hotspots_df hotspots_df' : list hotspot)
    grid_shape transform seed_strength :
  hotspots_df ⊆ hotspots_df' →
  burned_sub
    (initialize_grid rowcol hotspots_df grid_shape transform seed_strength)
    (initialize_grid rowcol hotspots_df' grid_shape transform seed_strength).
Proof.
  intros Hsub r c (v & Hv & Hpos). destruct grid_shape as [H W].
  unfold initialize_grid in *. cbn [fst snd] in *.
  destruct (has_shape_get2 H W _ r c v
              (has_shape_seed_fold rowcol (H, W) H W transform seed_strength
                 hotspots_df (zeros H W) (has_shape_zeros H W)) Hv)
    as [Hr Hc].
  rewrite (get2_seed_fold rowcol H W transform seed_strength hotspots_df
             (zeros H W) r c (has_shape_zeros H W) Hr Hc) in Hv.
  exists v. split; [|done].
  rewrite (get2_seed_fold rowcol H W transform seed_strength hotspots_df'
             (zeros H W) r c (has_shape_zeros H W) Hr Hc).
  rewrite get2_zeros in * by done.
  destruct (existsb _ hotspots_df) eqn:Hex.
  - apply existsb_exists in Hex as (h & Hin & Hp).
    rewrite (proj2 (existsb_exists _ hotspots_df')); [done|].
    exists h. split; [|done]. apply list_elem_of_In, Hsub, list_elem_of_In, Hin.
  - injection Hv as <-. lra.
Qed.

Lemma clip_mono x y lo hi : x <= y → clip x lo hi <= clip y lo hi.
Proof.
  intros Hxy. unfold clip.
  apply Q.min_le_compat_r, Q.max_le_compat_r, Hxy.
Qed.

(** The potential grows with the slope and with the dryness of the air. *)
Lemma compute_spread_potential_mono (wind_u wind_v slope slope' rh rh' : grid)
    (cfg : config) H W :
  has_shape H W wind_u → has_shape H W wind_v →
  has_shape H W slope → has_shape H W slope' →
  has_shape H W rh → has_shape H W rh' →
  grid_le slope slope' → grid_le rh' rh →
  0 < config_get cfg "slope_max_deg" 45 →
  0 <= config_get cfg "slope_weight" (3 # 10) →
  0 <= config_get cfg "dryness_weight" (2 # 10) →
  grid_le (compute_spread_potential wind_u wind_v slope rh cfg)
    (compute_spread_potential wind_u wind_v slope' rh' cfg).
Proof.
  intros Hu Hv Hs Hs' Hr Hr' Hsl Hrh Hmax Hsw Hdw.
  apply cells_Forall2.
  - eapply same_shape_trans.
    + apply same_shape_compute_spread_potential;
        by eapply has_shape_same_shape.
    + apply same_shape_sym, same_shape_compute_spread_potential;
        by eapply has_shape_same_shape.
  - intros r c x y. unfold compute_spread_potential.
    rewrite !get2_amap, !get2_amap2, !get2_amap.
    destruct (get2 (wind_factor wind_u wind_v) r c) as [w|]; simpl; [|done].
    destruct (get2 slope r c) as [s|] eqn:Es; simpl; [|done].
    destruct (get2 rh r c) as [h|] eqn:Eh; simpl; [|done].
    destruct (grid_le_get2 slope slope' r c s Hsl Es) as (s' & -> & Hss).
    destruct (Forall2_get2_r Qle rh' rh r c h Hrh Eh) as (h' & -> & Hhh).
    simpl. intros [= <-] [= <-]. apply clip_mono.
    set (sm := config_get cfg "slope_max_deg" 45) in *.
    set (sw := config_get cfg "slope_weight" (3 # 10)) in *.
    set (dw := config_get cfg "dryness_weight" (2 # 10)) in *.
    assert (clip (s / sm) 0 1 <= clip (s' / sm) 0 1) as Hcs.
    { apply clip_mono. unfold Qdiv. apply Qmult_le_compat_r; [done|].
      apply Qlt_le_weak, Qinv_lt_0_compat, Hmax. }
    assert (clip ((100 - h) / 100) 0 1 <= clip ((100 - h') / 100) 0 1) as Hch.
    { apply clip_mono. unfold Qdiv. apply Qmult_le_compat_r; [lra|].
      discriminate. }
    set (a := clip (s / sm) 0 1) in *. set (a' := clip (s' / sm) 0 1) in *.
    set (b := clip ((100 - h) / 100) 0 1) in *.
    set (b' := clip ((100 - h') / 100) 0 1) in *.
    nra.
Qed.

Lemma compute_spread_potential_insert (wind_u wind_v slope rh : grid)
    (cfg : config) k v :
  k ≠ "slope_max_deg" → k ≠ "rh_dry_threshold" → k ≠ "wind_weight" →
  k ≠ "slope_weight" → k ≠ "dryness_weight" →
  compute_spread_potential wind_u wind_v slope rh (<[k := v]> cfg)
  = compute_spread_potential wind_u wind_v slope rh cfg.
Proof.
  intros. unfold compute_spread_potential.
  by rewrite !config_get_insert_ne by done.
Qed.

(** The order of burned sets along a run: more detections, steeper slopes,
    drier air, a lower threshold and more neighbours can only burn more. *)
Lemma run_baseline_spread_burned_mono rowcol
    (hotspots_df hotspots_df' : list hotspot)
    (wind_u wind_v slope slope' rh rh' : grid) transform (cfg cfg' : config)
    n_timesteps H W :
  has_shape H W wind_u → has_shape H W wind_v →
  has_shape H W slope → has_shape H W slope' →
  has_shape H W rh → has_shape H W rh' →
  hotspots_df ⊆ hotspots_df' →
  config_get cfg' "seed_strength" 1 = config_get cfg "seed_strength" 1 →
  grid_le (compute_spread_potential wind_u wind_v slope rh cfg)
    (compute_spread_potential wind_u wind_v slope' rh' cfg') →
  config_get cfg' "spread_threshold" (3 # 10)
  <= config_get cfg "spread_threshold" (3 # 10) →
  (∀ r c r' c',
     adjacent (config_get cfg "neighbors" 8) r c r' c' →
     adjacent (config_get cfg' "neighbors" 8) r c r' c') →
  burned_sub
    (run_baseline_spread rowcol hotspots_df wind_u wind_v slope rh transform
       cfg n_timesteps).1
    (run_baseline_spread rowcol hotspots_df' wind_u wind_v slope' rh'
       transform cfg' n_timesteps).1
  ∧ burned_sub
      (run_baseline_spread rowcol hotspots_df wind_u wind_v slope rh transform
         cfg n_timesteps).2
      (run_baseline_spread rowcol hotspots_df' wind_u wind_v slope' rh'
         transform cfg' n_timesteps).2.
Proof.
  intros Hu Hv Hs Hs' Hr Hr' Hsub Hseed Hpot Hthr Hadj.
  rewrite !run_baseline_spread_simulate, Hseed.
  apply simulate_burned_mono; [| |done| |done|done].
  - by eapply (run_baseline_spread_shapes rowcol hotspots_df).
  - rewrite <- Hseed.
    by eapply (run_baseline_spread_shapes rowcol hotspots_df').
  - by apply initialize_grid_burned_sub.
Qed.

(** X18. Fire set by more detections burns at least as much: when every
    hotspot of one table is in another, every cell burned by the run on the
    first, in its final grid and in its running maximum, is burned by the run
    on the second. *)
Theorem run_baseline_spread_more_hotspots rowcol
    (hotspots_df hotspots_df' : list hotspot)
    (wind_u wind_v slope rh : grid) transform (cfg : config) n_timesteps H W :
  has_shape H W wind_u → has_shape H W wind_v →
  has_shape H W slope → has_shape H W rh →
  hotspots_df ⊆ hotspots_df' →
  burned_sub
    (run_baseline_spread rowcol hotspots_df wind_u wind_v slope rh transform
       cfg n_timesteps).1
    (run_baseline_spread rowcol hotspots_df' wind_u wind_v slope rh
       transform cfg n_timesteps).1
  ∧ burned_sub
      (run_baseline_spread rowcol hotspots_df wind_u wind_v slope rh transform
         cfg n_timesteps).2
      (run_baseline_spread rowcol hotspots_df' wind_u wind_v slope rh
         transform cfg n_timesteps).2.
Proof.
  intros Hu Hv Hs Hr Hsub.
  apply (run_baseline_spread_burned_mono rowcol hotspots_df hotspots_df'
           wind_u wind_v slope slope rh rh transform cfg cfg n_timesteps H W);
    try done.
  - apply grid_le_refl.
  - apply Qle_refl.
Qed.

(** X19. Eight neighbours spread at least as far as four: every cell burned
    by a run with [neighbors = 4] is burned by the run with any other value
    of [neighbors], everything else equal. *)
Theorem run_baseline_spread_more_neighbors rowcol (hotspots_df : list hotspot)
    (wind_u wind_v slope rh : grid) transform (cfg : config) nb n_timesteps
    H W :
  has_shape H W wind_u → has_shape H W wind_v →
  has_shape H W slope → has_shape H W rh →
  burned_sub
    (run_baseline_spread rowcol hotspots_df wind_u wind_v slope rh transform
       (<["neighbors" := 4]> cfg) n_timesteps).1
    (run_baseline_spread rowcol hotspots_df wind_u wind_v slope rh
       transform (<["neighbors" := nb]> cfg) n_timesteps).1
  ∧ burned_sub
      (run_baseline_spread rowcol hotspots_df wind_u wind_v slope rh transform
         (<["neighbors" := 4]> cfg) n_timesteps).2
      (run_baseline_spread rowcol hotspots_df wind_u wind_v slope rh
         transform (<["neighbors" := nb]> cfg) n_timesteps).2.
Proof.
  intros Hu Hv Hs Hr.
  apply (run_baseline_spread_burned_mono rowcol hotspots_df hotspots_df
           wind_u wind_v slope slope rh rh transform
           (<["neighbors" := 4]> cfg) (<["neighbors" := nb]> cfg)
           n_timesteps H W); try done.
  - by rewrite !config_get_insert_ne.
  - rewrite !compute_spread_potential_insert by done. apply grid_le_refl.
  - rewrite !config_get_insert_ne by done. apply Qle_refl.
  - intros r c r' c'. rewrite !config_get_insert. apply adjacent_4_any.
Qed.

(** X20. A lower threshold spreads at least as far: every cell burned by a
    run with the spread threshold [thr] is burned by the run with a threshold
    [thr' <= thr], everything else equal. *)
Theorem run_baseline_spread_lower_threshold rowcol (hotspots_df : list hotspot)
    (wind_u wind_v slope rh : grid) transform (cfg : config) thr thr'
    n_timesteps H W :
  has_shape H W wind_u → has_shape H W wind_v →
  has_shape H W slope → has_shape H W rh →
  thr' <= thr →
  burned_sub
    (run_baseline_spread rowcol hotspots_df wind_u wind_v slope rh transform
       (<["spread_threshold" := thr]> cfg) n_timesteps).1
    (run_baseline_spread rowcol hotspots_df wind_u wind_v slope rh
       transform (<["spread_threshold" := thr']> cfg) n_timesteps).1
  ∧ burned_sub
      (run_baseline_spread rowcol hotspots_df wind_u wind_v slope rh transform
         (<["spread_threshold" := thr]> cfg) n_timesteps).2
      (run_baseline_spread rowcol hotspots_df wind_u wind_v slope rh
         transform (<["spread_threshold" := thr']> cfg) n_timesteps).2.
Proof.
  intros Hu Hv Hs Hr Hthr.
  apply (run_baseline_spread_burned_mono rowcol hotspots_df hotspots_df
           wind_u wind_v slope slope rh rh transform
           (<["spread_threshold" := thr]> cfg)
           (<["spread_threshold" := thr']> cfg) n_timesteps H W); try done.
  - by rewrite !config_get_insert_ne.
  - rewrite !compute_spread_potential_insert by done. apply grid_le_refl.
  - by rewrite !config_get_insert.
  - intros r c r' c'. by rewrite !config_get_insert_ne.
Qed.

(** X21. Steeper slopes and drier air spread at least as far: with a positive
    [slope_max_deg] and non-negative slope and dryness weights, every cell
    burned by a run is burned by the run on a slope grid that is nowhere
    lower and a humidity grid that is nowhere higher. *)
Theorem run_baseline_spread_steeper_drier rowcol (hotspots_df : list hotspot)
    (wind_u wind_v slope slope' rh rh' : grid) transform (cfg : config)
    n_timesteps H W :
  has_shape H W wind_u → has_shape H W wind_v →
  has_shape H W slope → has_shape H W slope' →
  has_shape H W rh → has_shape H W rh' →
  grid_le slope slope' → grid_le rh' rh →
  0 < config_get cfg "slope_max_deg" 45 →
  0 <= config_get cfg "slope_weight" (3 # 10) →
  0 <= config_get cfg "dryness_weight" (2 # 10) →
  burned_sub
    (run_baseline_spread rowcol hotspots_df wind_u wind_v slope rh transform
       cfg n_timesteps).1
    (run_baseline_spread rowcol hotspots_df wind_u wind_v slope' rh'
       transform cfg n_timesteps).1
  ∧ burned_sub
      (run_baseline_spread rowcol hotspots_df wind_u wind_v slope rh transform
         cfg n_timesteps).2
      (run_baseline_spread rowcol hotspots_df wind_u wind_v slope' rh'
         transform cfg n_timesteps).2.
Proof.
  intros Hu Hv Hs Hs' Hr Hr' Hsl Hrh Hmax Hsw Hdw.
  apply (run_baseline_spread_burned_mono rowcol hotspots_df hotspots_df
           wind_u wind_v slope slope' rh rh' transform cfg cfg n_timesteps
           H W); try done.
  - by apply (compute_spread_potential_mono _ _ _ _ _ _ _ H W).
  - apply Qle_refl.
Qed.

(** * The spread direction *)




Section Direction.
Context (arctan2 : Q → Q → Q) (np_pi : Q).


End Direction.

(** * The products index *)

Lemma update_products_index_fires now fire_id metadata fs :
  ∃ e,
    entry_id e = fire_id
    ∧ index_fires (load_products_index
                     (update_products_index now fire_id metadata fs))
      = filter (λ f, entry_id f ≠ fire_id)
          (index_fires (load_products_index fs)) ++ [e].
Proof.
  unfold update_products_index, load_products_index.
  eexists. split; [|by destruct fs]. done.
Qed.

Lemma filter_none {A} (P : A → Prop) `{∀ x, Decision (P x)} (l : list A) :
  (∀ x, ¬ P x) → filter P l = [].
Proof.
  intros Hno. induction l as [|x l IH]; [done|].
  rewrite filter_cons. by destruct (decide (P x)); [destruct (Hno x)|].
Qed.

(** X23. After [update_products_index] the index lists the fire once, as its
    last entry, with the given metadata; the entries of the other fires are
    those of before, in their order. *)
Theorem update_products_index_entry now fire_id metadata fs :
  let before := index_fires (load_products_index fs) in
  let after :=
    index_fires (load_products_index
                   (update_products_index now fire_id metadata fs)) in
  ∃ e,
    after = filter (λ f, entry_id f ≠ fire_id) before ++ [e]
    ∧ filter (λ f, entry_id f = fire_id) after = [e]
    ∧ filter (λ f, entry_id f ≠ fire_id) after
      = filter (λ f, entry_id f ≠ fire_id) before
    ∧ entry_id e = fire_id
    ∧ entry_region e = md_region metadata
    ∧ entry_centroid e = md_centroid metadata
    ∧ entry_bbox e = md_bbox metadata
    ∧ entry_nowcast_available e = [md_horizon_hours metadata]
    ∧ entry_last_updated e = md_generated_at metadata.
Proof.
  intros before after.
  destruct (update_products_index_fires now fire_id metadata fs)
    as (e0 & _ & _).
  set (e := {| entry_id := fire_id;
               entry_region := md_region metadata;
               entry_centroid := md_centroid metadata;
               entry_bbox := md_bbox metadata;
               entry_status := "active";
               entry_nowcast_available := [md_horizon_hours metadata];
               entry_last_updated := md_generated_at metadata |}).
  assert (after = filter (λ f, entry_id f ≠ fire_id) before ++ [e]) as Hafter
    by (unfold after, before, update_products_index; by destruct fs).
  exists e. split; [done|]. rewrite Hafter, !filter_app.
  rewrite !filter_cons, !filter_nil. cbn [entry_id e].
  destruct (decide (fire_id = fire_id)) as [_|]; [|done].
  destruct (decide (fire_id ≠ fire_id)) as [|_]; [done|].
  rewrite app_nil_r, !list_filter_filter.
  split; [|split; [|done]].
  - rewrite filter_none; [done|]. by intros f [Hne Heq].
  - apply list_filter_iff. tauto.
Qed.

Lemma NoDup_update_ids fire_id (old : list fire_entry) e :
  entry_id e = fire_id →
  NoDup (entry_id <$> old) →
  NoDup (entry_id <$> (filter (λ f, entry_id f ≠ fire_id) old ++ [e])).
Proof.
  intros He Hnd. rewrite fmap_app. apply NoDup_app. split; [|split].
  - induction old as [|f old IH]; [constructor|].
    rewrite fmap_cons in Hnd. apply NoDup_cons in Hnd as [Hf Hnd].
    rewrite filter_cons. destruct (decide _); [|by apply IH].
    rewrite fmap_cons. apply NoDup_cons. split; [|by apply IH].
    intros (f' & Heq & Hin%list_elem_of_filter)%list_elem_of_fmap.
    apply Hf. apply list_elem_of_fmap. exists f'. tauto.
  - intros x (f & -> & [Hne _]%list_elem_of_filter)%list_elem_of_fmap.
    simpl. rewrite He. intros Hx%list_elem_of_singleton. done.
  - simpl. apply NoDup_singleton.
Qed.

(** X24. An index that only [update_products_index] writes never lists a
    fire twice: started without [index.json], after any sequence of runs the
    ids of the entries are distinct, and they are the ids of the fires that
    were run. *)
Theorem index_after_ids (runs : list (string * string * fire_metadata)) :
  let fires := index_fires (load_products_index (index_after runs None)) in
  NoDup (entry_id <$> fires)
  ∧ ∀ fire_id, fire_id ∈ entry_id <$> fires ↔ fire_id ∈ (λ run, run.1.2) <$> runs.
Proof.
  cbn zeta. unfold index_after.
  assert (∀ fs,
    NoDup (entry_id <$> index_fires (load_products_index fs)) →
    let fires :=
      index_fires (load_products_index
        (fold_left (λ fs run, update_products_index run.1.1 run.1.2 run.2 fs)
           runs fs)) in
    NoDup (entry_id <$> fires)
    ∧ ∀ fire_id,
        fire_id ∈ entry_id <$> fires
        ↔ fire_id ∈ entry_id <$> index_fires (load_products_index fs)
          ∨ fire_id ∈ (λ run, run.1.2) <$> runs) as Hgen.
  { induction runs as [|[[now fid] md] runs IH]; intros fs Hnd.
    - cbn zeta. simpl. split; [done|]. intros fire_id.
      rewrite elem_of_nil. tauto.
    - cbn zeta. simpl fold_left.
      destruct (update_products_index_fires now fid md fs) as (e & He & Hfs).
      specialize (IH (update_products_index now fid md fs)).
      cbn zeta in IH. rewrite Hfs in IH.
      destruct IH as [IHnd IHin]; [by apply NoDup_update_ids|].
      split; [done|]. intros fire_id. rewrite IHin.
      rewrite fmap_app, !fmap_cons, fmap_nil, elem_of_app.
      rewrite list_elem_of_singleton, elem_of_cons, He.
      rewrite !list_elem_of_fmap. setoid_rewrite list_elem_of_filter.
      cbn [fst snd].
      destruct (decide (fire_id = fid)) as [->|Hne]; [tauto|].
      split.
      + intros [[(f & -> & _ & Hin)|Heq]|Hin]; [|done|tauto].
        left. by exists f.
      + intros [(f & -> & Hin)|[Heq|Hin]]; [|done|tauto].
        left. left. by exists f. }
  destruct (Hgen None) as [Hnd Hin]; [constructor|].
  split; [done|]. intros fire_id. rewrite Hin. simpl.
  rewrite elem_of_nil. tauto.
Qed.

(** X25. The last write wins: running a fire again replaces what the earlier
    run of that fire left in the index, and the index is the one that the
    second run alone would have written. *)
Theorem update_products_index_overwrites now now' fire_id metadata metadata'
    fs :
  update_products_index now' fire_id metadata'
    (update_products_index now fire_id metadata fs)
  = update_products_index now' fire_id metadata' fs.
Proof.
  unfold update_products_index. f_equal. f_equal. cbn [index_fires].
  rewrite filter_app, list_filter_filter, filter_cons, filter_nil.
  cbn [entry_id].
  destruct (decide (fire_id ≠ fire_id)) as [|_]; [done|].
  rewrite app_nil_r. f_equal. apply list_filter_iff. tauto.
Qed.

(** * Calibration *)

Lemma length_concat_has_shape {A} H W (a : list (list A)) :
  has_shape H W a → length (concat a) = (H * W)%nat.
Proof.
  intros [<- Hf]. induction Hf as [|row a Hrow _ IH]; [done|].
  simpl. rewrite length_app, Hrow, IH. done.
Qed.

Lemma shape_size {A} H W (a : list (list A)) :
  has_shape H W a → ((shape a).1 * (shape a).2 = H * W)%nat.
Proof.
  intros Ha. destruct H as [|H].
  - destruct Ha as [Hl _]. by destruct a.
  - by rewrite (shape_has_shape H W a Ha).
Qed.



Lemma rows_of_concat H W (a : grid) :
  has_shape H W a → rows_of H W (concat a) = a.
Proof.
  intros [<- Hf]. induction Hf as [|row a Hrow _ IH]; [done|].
  simpl. rewrite take_app_length' by done.
  by rewrite drop_app_length' by done; rewrite IH.
Qed.

Lemma shape_rows_of_concat H W (a : grid) :
  has_shape H W a → rows_of (shape a).1 (shape a).2 (concat a) = a.
Proof.
  intros Ha. destruct H as [|H].
  - destruct Ha as [Hl _]. by destruct a.
  - rewrite (shape_has_shape H W a Ha). by apply rows_of_concat.
Qed.

Lemma rows_of_map (f : Q → Q) H W flat :
  rows_of H W (map f flat) = amap f (rows_of H W flat).
Proof.
  revert flat. induction H as [|H IH]; intros flat; [done|].
  simpl. unfold amap in *. simpl.
  change (map f flat) with (f <$> flat).
  rewrite <- fmap_take, <- fmap_drop. f_equal. apply IH.
Qed.

Section Calibrated.
Context (predict : list Q → result (list Q)).


(** X27. A calibrator that returns its input leaves a probability map with
    cells in [0, 1] unchanged: flattening, clipping and reshaping give the
    grid back. *)
Theorem apply_calibration_identity (probability_grid : grid) H W :
  has_shape H W probability_grid →
  cells_in (λ x, 0 <= x <= 1) probability_grid →
  predict (concat probability_grid) = Ok (concat probability_grid) →
  ∃ calibrated_grid,
    apply_calibration predict probability_grid = Ok calibrated_grid
    ∧ grid_eq calibrated_grid probability_grid.
Proof.
  intros Hp Hin Hpred. unfold apply_calibration, np_reshape.
  rewrite Hpred, length_map.
  rewrite (length_concat_has_shape H W _ Hp), (shape_size H W _ Hp).
  rewrite Nat.eqb_refl. eexists. split; [done|].
  rewrite rows_of_map, (shape_rows_of_concat H W _ Hp).
  apply cells_Forall2; [apply same_shape_amap|].
  intros r c x y. rewrite get2_amap. intros Hx Hy.
  rewrite Hy in Hx. injection Hx as <-.
  specialize (Hin r c y Hy). cbv beta in Hin. unfold clip.
  rewrite Q.max_l by lra. apply Q.min_l. lra.
Qed.

End Calibrated.

(** * The UTM zone *)


(** ** The monotonicity, direction, calibration and zone properties at
    concrete inputs *)

Lemma hotspots_subset : [hotspot_11] ⊆ [hotspot_11; hotspot_far].
Proof. intros h Hh%list_elem_of_singleton. subst. by left. Qed.

Lemma run_baseline_spread_more_hotspots_witness :
  has_shape 3 3 uniform_half ∧ has_shape 3 3 corner_seed
  ∧ has_shape 3 3 (full 3 3 10) ∧ has_shape 3 3 (full 3 3 40)
  ∧ [hotspot_11] ⊆ [hotspot_11; hotspot_far]
  ∧ burned_sub
      (run_baseline_spread rowcol_affine [hotspot_11] uniform_half corner_seed
         (full 3 3 10) (full 3 3 40) unit_transform ∅ 24).1
      (run_baseline_spread rowcol_affine [hotspot_11; hotspot_far]
         uniform_half corner_seed (full 3 3 10) (full 3 3 40) unit_transform
         ∅ 24).1
  ∧ burned_sub
      (run_baseline_spread rowcol_affine [hotspot_11] uniform_half corner_seed
         (full 3 3 10) (full 3 3 40) unit_transform ∅ 24).2
      (run_baseline_spread rowcol_affine [hotspot_11; hotspot_far]
         uniform_half corner_seed (full 3 3 10) (full 3 3 40) unit_transform
         ∅ 24).2.
Proof.
  destruct has_shape_examples as (H1 & H2 & H3 & H4).
  do 4 (split; [assumption|]). split; [exact hotspots_subset|].
  exact (run_baseline_spread_more_hotspots rowcol_affine [hotspot_11]
           [hotspot_11; hotspot_far] uniform_half corner_seed (full 3 3 10)
           (full 3 3 40) unit_transform ∅ 24 3 3 H1 H2 H3 H4
           hotspots_subset).
Defined.

Lemma run_baseline_spread_more_neighbors_witness :
  has_shape 3 3 uniform_half ∧ has_shape 3 3 corner_seed
  ∧ has_shape 3 3 (full 3 3 10) ∧ has_shape 3 3 (full 3 3 40)
  ∧ burned_sub
      (run_baseline_spread rowcol_affine [hotspot_11] uniform_half corner_seed
         (full 3 3 10) (full 3 3 40) unit_transform (<["neighbors" := 4]> ∅)
         1).1
      (run_baseline_spread rowcol_affine [hotspot_11] uniform_half corner_seed
         (full 3 3 10) (full 3 3 40) unit_transform (<["neighbors" := 8]> ∅)
         1).1
  ∧ burned_sub
      (run_baseline_spread rowcol_affine [hotspot_11] uniform_half corner_seed
         (full 3 3 10) (full 3 3 40) unit_transform (<["neighbors" := 4]> ∅)
         1).2
      (run_baseline_spread rowcol_affine [hotspot_11] uniform_half corner_seed
         (full 3 3 10) (full 3 3 40) unit_transform (<["neighbors" := 8]> ∅)
         1).2.
Proof.
  destruct has_shape_examples as (H1 & H2 & H3 & H4).
  do 4 (split; [assumption|]).
  exact (run_baseline_spread_more_neighbors rowcol_affine [hotspot_11]
           uniform_half corner_seed (full 3 3 10) (full 3 3 40) unit_transform
           ∅ 8 1 3 3 H1 H2 H3 H4).
Defined.

Lemma threshold_order : 1 # 10 <= 3 # 10.
Proof. discriminate. Qed.

Lemma run_baseline_spread_lower_threshold_witness :
  has_shape 3 3 uniform_half ∧ has_shape 3 3 corner_seed
  ∧ has_shape 3 3 (full 3 3 10) ∧ has_shape 3 3 (full 3 3 40)
  ∧ 1 # 10 <= 3 # 10
  ∧ burned_sub
      (run_baseline_spread rowcol_affine [hotspot_11] uniform_half corner_seed
         (full 3 3 10) (full 3 3 40) unit_transform
         (<["spread_threshold" := 3 # 10]> ∅) 24).1
      (run_baseline_spread rowcol_affine [hotspot_11] uniform_half corner_seed
         (full 3 3 10) (full 3 3 40) unit_transform
         (<["spread_threshold" := 1 # 10]> ∅) 24).1
  ∧ burned_sub
      (run_baseline_spread rowcol_affine [hotspot_11] uniform_half corner_seed
         (full 3 3 10) (full 3 3 40) unit_transform
         (<["spread_threshold" := 3 # 10]> ∅) 24).2
      (run_baseline_spread rowcol_affine [hotspot_11] uniform_half corner_seed
         (full 3 3 10) (full 3 3 40) unit_transform
         (<["spread_threshold" := 1 # 10]> ∅) 24).2.
Proof.
  destruct has_shape_examples as (H1 & H2 & H3 & H4).
  do 4 (split; [assumption|]). split; [exact threshold_order|].
  exact (run_baseline_spread_lower_threshold rowcol_affine [hotspot_11]
           uniform_half corner_seed (full 3 3 10) (full 3 3 40) unit_transform
           ∅ (3 # 10) (1 # 10) 24 3 3 H1 H2 H3 H4 threshold_order).
Defined.

Lemma steeper_drier_examples :
  has_shape 3 3 (full 3 3 20) ∧ has_shape 3 3 (full 3 3 30)
  ∧ grid_le (full 3 3 10) (full 3 3 20) ∧ grid_le (full 3 3 30) (full 3 3 40)
  ∧ 0 < config_get ∅ "slope_max_deg" 45
  ∧ 0 <= config_get ∅ "slope_weight" (3 # 10)
  ∧ 0 <= config_get ∅ "dryness_weight" (2 # 10).
Proof.
  split; [by repeat constructor|]. split; [by repeat constructor|].
  split; [by repeat constructor|]. split; [by repeat constructor|].
  split; [reflexivity|]. split; discriminate.
Qed.

Lemma run_baseline_spread_steeper_drier_witness :
  has_shape 3 3 uniform_half ∧ has_shape 3 3 corner_seed
  ∧ has_shape 3 3 (full 3 3 10) ∧ has_shape 3 3 (full 3 3 20)
  ∧ has_shape 3 3 (full 3 3 40) ∧ has_shape 3 3 (full 3 3 30)
  ∧ grid_le (full 3 3 10) (full 3 3 20) ∧ grid_le (full 3 3 30) (full 3 3 40)
  ∧ 0 < config_get ∅ "slope_max_deg" 45
  ∧ 0 <= config_get ∅ "slope_weight" (3 # 10)
  ∧ 0 <= config_get ∅ "dryness_weight" (2 # 10)
  ∧ burned_sub
      (run_baseline_spread rowcol_affine [hotspot_11] uniform_half corner_seed
         (full 3 3 10) (full 3 3 40) unit_transform ∅ 24).1
      (run_baseline_spread rowcol_affine [hotspot_11] uniform_half corner_seed
         (full 3 3 20) (full 3 3 30) unit_transform ∅ 24).1
  ∧ burned_sub
      (run_baseline_spread rowcol_affine [hotspot_11] uniform_half corner_seed
         (full 3 3 10) (full 3 3 40) unit_transform ∅ 24).2
      (run_baseline_spread rowcol_affine [hotspot_11] uniform_half corner_seed
         (full 3 3 20) (full 3 3 30) unit_transform ∅ 24).2.
Proof.
  destruct has_shape_examples as (H1 & H2 & H3 & H4).
  destruct steeper_drier_examples as (H5 & H6 & H7 & H8 & H9 & H10 & H11).
  split; [exact H1|]. split; [exact H2|]. split; [exact H3|].
  split; [exact H5|]. split; [exact H4|]. split; [exact H6|].
  split; [exact H7|]. split; [exact H8|]. split; [exact H9|].
  split; [exact H10|]. split; [exact H11|].
  exact (run_baseline_spread_steeper_drier rowcol_affine [hotspot_11]
           uniform_half corner_seed (full 3 3 10) (full 3 3 20) (full 3 3 40)
           (full 3 3 30) unit_transform ∅ 24 3 3 H1 H2 H3 H5 H4 H6 H7 H8 H9
           H10 H11).
Defined.




Lemma identity_calibrator_answer :
  cells_in (λ x, 0 <= x <= 1) uniform_half
  ∧ scaling_calibrator 1 (concat uniform_half) = Ok (concat uniform_half).
Proof.
  split; [|reflexivity].
  intros r c x Hx. apply get2_full in Hx as ->. split; discriminate.
Qed.

Lemma apply_calibration_identity_witness :
  has_shape 3 3 uniform_half
  ∧ cells_in (λ x, 0 <= x <= 1) uniform_half
  ∧ scaling_calibrator 1 (concat uniform_half) = Ok (concat uniform_half)
  ∧ ∃ calibrated_grid,
      apply_calibration (scaling_calibrator 1) uniform_half
      = Ok calibrated_grid
      ∧ grid_eq calibrated_grid uniform_half.
Proof.
  destruct has_shape_examples as (H1 & _).
  destruct identity_calibrator_answer as [Hc Ha].
  split; [exact H1|]. split; [exact Hc|]. split; [exact Ha|].
  exact (apply_calibration_identity (scaling_calibrator 1) uniform_half 3 3
           H1 Hc Ha).
Defined.


